(** * LCS gateway: packet builder, TCP client, controller and agent manager

    A shallow embedding of [packet-builder.js], [tcp-client.js],
    [controller.js] and [agent-manager.js].

    Conventions.
    - A JavaScript number is modelled as an integer [Z]; every argument of
      the builders is integer valued.  The one place where the program
      computes with fractions, [fadeControl], is modelled on binary64
      floats.
    - A [Buffer] is a list of bytes, each a [Z] in [0, 255]; stores coerce
      with [toUint8], the 32-bit operators coerce with [ToInt32].
    - A thrown exception is the [Throw] branch of [result]. *)

From Stdlib Require Import ZArith Lia List Floats.
From stdpp Require Import gmap strings list.

Open Scope Z_scope.

(** ** JavaScript values used by the program *)

Module JS.

Inductive exn : Type :=
| RangeError
| TypeError
| Error (msg : string).

Inductive result (A : Type) : Type :=
| Ok (a : A)
| Throw (e : exn).
Arguments Ok {A} a.
Arguments Throw {A} e.

Definition bind {A B} (r : result A) (k : A -> result B) : result B :=
  match r with
  | Ok a => k a
  | Throw e => Throw e
  end.

(** [ToInt32]: wrap into [-2^31, 2^31). *)
Definition ToInt32 (v : Z) : Z := (v + 2 ^ 31) mod 2 ^ 32 - 2 ^ 31.

(** [undefined] coerces to 0 under the 32-bit operators. *)
Definition ToInt32' (v : option Z) : Z :=
  match v with
  | Some x => ToInt32 x
  | None => 0
  end.

(** [a << n] for [0 <= n < 32] *)
Definition shl (a n : Z) : Z := ToInt32 (Z.shiftl (ToInt32 a) n).
(** [a >> n] for [0 <= n < 32] (sign propagating) *)
Definition sar (a n : Z) : Z := Z.shiftr (ToInt32 a) n.
(** [a | b] *)
Definition or (a b : Z) : Z := Z.lor (ToInt32 a) (ToInt32 b).
(** [a & b] *)
Definition and (a b : Z) : Z := Z.land (ToInt32 a) (ToInt32 b).
(** [~a] *)
Definition not (a : Z) : Z := Z.lnot (ToInt32 a).

(** a store into a [Uint8Array] slot *)
Definition toUint8 (v : Z) : Z := Z.land v 255.

(** *** Strings

    The strings that the program passes to these methods are made of ASCII
    characters. *)

(** [s.toUpperCase()] *)
Definition toUpperCase_char (a : Ascii.ascii) : Ascii.ascii :=
  let n := Ascii.nat_of_ascii a in
  if ((97 <=? n) && (n <=? 122))%nat then Ascii.ascii_of_nat (n - 32) else a.

Fixpoint toUpperCase (s : string) : string :=
  match s with
  | EmptyString => EmptyString
  | String a s' => String (toUpperCase_char a) (toUpperCase s')
  end.

(** what [.] of a regular expression matches: any character but a line
    terminator *)
Definition dot (a : Ascii.ascii) : bool :=
  negb (Ascii.eqb a (Ascii.ascii_of_nat 10) || Ascii.eqb a (Ascii.ascii_of_nat 13)).

(** The matches of [/.{2}/g] in [s], from left to right: a match takes two
    characters, and the search moves on by one character where there is
    none. *)
Fixpoint matches_dot2 (s : string) : list string :=
  match s with
  | String a s1 =>
      match s1 with
      | String b s2 =>
          if dot a && dot b then String a (String b EmptyString) :: matches_dot2 s2
          else matches_dot2 s1
      | EmptyString => []
      end
  | EmptyString => []
  end.

(** [s.match(/.{2}/g)]: [null] when there is no match *)
Definition match_dot2 (s : string) : option (list string) :=
  match matches_dot2 s with
  | [] => None
  | l => Some l
  end.

(** [l.join(sep)] *)
Fixpoint join (sep : string) (l : list string) : string :=
  match l with
  | [] => EmptyString
  | [x] => x
  | x :: rest => x +:+ sep +:+ join sep rest
  end.

(** A string that need not be ASCII is given by its UTF-16 code units, as
    the language has it. *)
Definition string16 : Type := list Z.

(** [s.replace(/\0/g, '')] *)
Definition replace_nul (s : string16) : string16 :=
  List.filter (fun u => negb (u =? 0)) s.

End JS.

Notation "x <- r ;; k" := (JS.bind r (fun x => k))
  (at level 100, r at next level, right associativity).

(** ** Node's [Buffer] *)

Module Buffer.

Definition t : Type := list Z.

Definition wf (b : t) : Prop := Forall (fun x => 0 <= x < 256) b.

(** [Buffer.alloc(n)] *)
Definition alloc (n : Z) : t := repeat 0 (Z.to_nat n).

(** [Buffer.from(array)] *)
Definition from (a : list Z) : t := map JS.toUint8 a.

(** [b.length] *)
Definition length (b : t) : Z := Z.of_nat (List.length b).

(** [b[i]]: [undefined] out of range *)
Definition get (b : t) (i : Z) : option Z :=
  if i <? 0 then None else b !! Z.to_nat i.

(** [b[i] = v]: ignored out of range *)
Definition set (b : t) (i : Z) (v : Z) : t :=
  if i <? 0 then b else <[Z.to_nat i := JS.toUint8 v]> b.

(** [src.copy(target, targetStart)]: copies what fits *)
Definition copy (src target : t) (targetStart : Z) : t :=
  let off := Z.to_nat targetStart in
  take off target
    ++ take (List.length target - off)%nat src
    ++ drop (off + List.length src)%nat target.

(** [b.writeUInt16BE(value, offset)] *)
Definition writeUInt16BE (b : t) (value offset : Z) : JS.result t :=
  if (value <? 0) || (65535 <? value) then JS.Throw JS.RangeError
  else if (offset <? 0) || (length b <? offset + 2) then JS.Throw JS.RangeError
  else JS.Ok (<[Z.to_nat offset + 1 := Z.land value 255]>
                (<[Z.to_nat offset := Z.shiftr value 8]> b))%nat.

(** [b.writeUInt16LE(value, offset)] *)
Definition writeUInt16LE (b : t) (value offset : Z) : JS.result t :=
  if (value <? 0) || (65535 <? value) then JS.Throw JS.RangeError
  else if (offset <? 0) || (length b <? offset + 2) then JS.Throw JS.RangeError
  else JS.Ok (<[Z.to_nat offset + 1 := Z.shiftr value 8]>
                (<[Z.to_nat offset := Z.land value 255]> b))%nat.

(** [b.readUInt16LE(offset)] *)
Definition readUInt16LE (b : t) (offset : Z) : JS.result Z :=
  if (offset <? 0) || (length b <? offset + 2) then JS.Throw JS.RangeError
  else JS.Ok (nth (Z.to_nat offset) b 0 + 256 * nth (Z.to_nat offset + 1) b 0).

(** an index argument of [slice]: negative counts from the end, then clamp *)
Definition clamp (b : t) (i : Z) : Z :=
  if i <? 0 then Z.max (length b + i) 0 else Z.min i (length b).

(** [b.slice(start, end)] *)
Definition slice (b : t) (start end_ : Z) : t :=
  let s := clamp b start in
  let e := clamp b end_ in
  take (Z.to_nat (e - s)) (drop (Z.to_nat s) b).

(** [b.slice(start)] *)
Definition slice_from (b : t) (start : Z) : t :=
  slice b start (length b).

(** [Buffer.concat([a, b])] *)
Definition concat (a b : t) : t := a ++ b.

(** the hexadecimal digit of [d], for [0 <= d < 16] *)
Definition hex_digit (d : Z) : Ascii.ascii :=
  default Ascii.zero (String.get (Z.to_nat d) "0123456789abcdef").

(** [b.toString('hex')]: two digits for each byte *)
Fixpoint toString_hex (b : t) : string :=
  match b with
  | [] => EmptyString
  | x :: b' => String (hex_digit (x / 16)) (String (hex_digit (x mod 16)) (toString_hex b'))
  end.

(** *** [b.toString('utf8')]

    Node decodes as the Encoding Standard says, the byte order mark
    being kept.  A byte that cannot begin a sequence gives U+FFFD.  A
    sequence that is cut short, by a byte that cannot continue it or by
    the end of the buffer, gives one U+FFFD, and the byte that cut it is
    read again as the first byte of a sequence.  The second byte of a
    sequence is held to [lower, upper], which leaves out the overlong
    forms, the surrogates and the code points above U+10FFFF. *)

(** the decoder within a sequence: the code point so far, the number of
    bytes that the sequence still needs and the bounds of the next one *)
Record utf8 : Type := {
  code_point : Z;
  bytes_needed : Z;
  lower : Z;
  upper : Z;
}.

(** a byte read outside a sequence: the code points it gives, and the
    sequence it begins *)
Definition utf8_first (x : Z) : list Z * option utf8 :=
  if x <=? 0x7F then ([x], None)
  else if (0xC2 <=? x) && (x <=? 0xDF) then
    ([], Some {| code_point := Z.land x 0x1F; bytes_needed := 1;
                 lower := 0x80; upper := 0xBF |})
  else if (0xE0 <=? x) && (x <=? 0xEF) then
    ([], Some {| code_point := Z.land x 0xF; bytes_needed := 2;
                 lower := if x =? 0xE0 then 0xA0 else 0x80;
                 upper := if x =? 0xED then 0x9F else 0xBF |})
  else if (0xF0 <=? x) && (x <=? 0xF4) then
    ([], Some {| code_point := Z.land x 0x7; bytes_needed := 3;
                 lower := if x =? 0xF0 then 0x90 else 0x80;
                 upper := if x =? 0xF4 then 0x8F else 0xBF |})
  else ([0xFFFD], None).

(** the code points of the bytes [b], read in the state [st] *)
Fixpoint utf8_decode (st : option utf8) (b : t) : list Z :=
  match b with
  | [] =>
      match st with
      | Some _ => [0xFFFD]
      | None => []
      end
  | x :: b' =>
      match st with
      | Some s =>
          if (lower s <=? x) && (x <=? upper s) then
            let cp := Z.lor (Z.shiftl (code_point s) 6) (Z.land x 0x3F) in
            if bytes_needed s =? 1 then cp :: utf8_decode None b'
            else utf8_decode (Some {| code_point := cp;
                                      bytes_needed := bytes_needed s - 1;
                                      lower := 0x80; upper := 0xBF |}) b'
          else
            let (out, st') := utf8_first x in
            0xFFFD :: out ++ utf8_decode st' b'
      | None =>
          let (out, st') := utf8_first x in
          out ++ utf8_decode st' b'
      end
  end.

(** the UTF-16 code units of a code point: a surrogate pair above U+FFFF *)
Definition utf16 (cp : Z) : list Z :=
  if cp <? 0x10000 then [cp]
  else [0xD800 + Z.shiftr (cp - 0x10000) 10; 0xDC00 + Z.land (cp - 0x10000) 0x3FF].

Definition toString_utf8 (b : t) : JS.string16 :=
  flat_map utf16 (utf8_decode None b).

End Buffer.

(** ** packet-builder.js *)

Module LCSPacketBuilder.

Definition STX : Z := 0x02.
Definition ETX : Z := 0x03.
Definition HOST_ADDRESS : list Z := [0x13; 0x00; 0x00; 0x00; 0x00].

(** The [while (i < end)] loop of [calculateBCC]; [fuel] bounds the
    number of iterations. *)
Fixpoint calculateBCC_loop (fuel : nat) (data : Buffer.t) (end_ i sum : Z) : Z :=
  match fuel with
  | O => sum
  | S fuel' =>
      if i <? end_ then
        let hi := Buffer.get data i in
        let lo := if i + 1 <? end_ then Buffer.get data (i + 1) else Some 0x00 in
        calculateBCC_loop fuel' data end_ (i + 2)
          (sum + JS.or (JS.shl (JS.ToInt32' hi) 8) (JS.ToInt32' lo))
      else sum
  end.

(** [sum] is an integer below 2^53 for every buffer that Node can
    allocate, so that the additions of the loop are exact. *)
Definition calculateBCC (data : Buffer.t) (start end_ : Z) : Z :=
  let sum := calculateBCC_loop (Z.to_nat (end_ - start)) data end_ start 0 in
  let sum := JS.and sum 0xffff + JS.sar sum 16 in
  let sum := JS.and (JS.not sum) 0xffff in
  sum.

Definition buildPacket (destAddr : list Z) (op1 op2 : Z) (data : Buffer.t)
  : JS.result Buffer.t :=
  let headerSize := 18 in
  let totalLength := headerSize + Buffer.length data in
  let packet := Buffer.alloc totalLength in
  let offset := 0 in
  let packet := Buffer.set packet offset STX in
  let offset := offset + 1 in
  packet <- Buffer.writeUInt16BE packet totalLength offset ;;
  let offset := offset + 2 in
  let packet := Buffer.copy (Buffer.from destAddr) packet offset in
  let offset := offset + 5 in
  let packet := Buffer.copy (Buffer.from HOST_ADDRESS) packet offset in
  let offset := offset + 5 in
  let packet := Buffer.set packet offset op1 in
  let offset := offset + 1 in
  let packet := Buffer.set packet offset op2 in
  let offset := offset + 1 in
  let (packet, offset) :=
    if 0 <? Buffer.length data
    then (Buffer.copy data packet offset, offset + Buffer.length data)
    else (packet, offset) in
  let bccStart := 3 in
  let bccEnd := totalLength - 3 in
  let bcc := calculateBCC packet bccStart bccEnd in
  packet <- Buffer.writeUInt16LE packet bcc offset ;;
  let offset := offset + 2 in
  let packet := Buffer.set packet offset ETX in
  JS.Ok packet.

(** [deviceTypeMap[deviceType]] *)
Definition deviceTypeMap (deviceType : string) : option Z :=
  if String.eqb deviceType "LCS" then Some 0x13
  else if String.eqb deviceType "RCU4" then Some 0x55
  else if String.eqb deviceType "RCU8" then Some 0x57
  else None.

Definition getLampBrightness (masterAddr cuAddr : Z) (deviceType : string)
  : JS.result Buffer.t :=
  (* an [undefined] array element is stored as 0 by [Buffer.from] *)
  let destAddr := [default 0 (deviceTypeMap deviceType); masterAddr; cuAddr; 0x00; 0x00] in
  buildPacket destAddr 0x96 0x00 (Buffer.alloc 0).

Definition getLampColorTemperature (masterAddr cuAddr : Z) : JS.result Buffer.t :=
  let destAddr := [0x13; masterAddr; cuAddr; 0x00; 0x00] in
  buildPacket destAddr 0x96 0x06 (Buffer.alloc 0).

(** [for (let i = 0; i < lampList.length; i++) data[2 + i] = lampList[i]] *)
Fixpoint fill_lamps (data : Buffer.t) (i : Z) (lampList : list Z) : Buffer.t :=
  match lampList with
  | [] => data
  | lamp :: rest => fill_lamps (Buffer.set data (2 + i) lamp) (i + 1) rest
  end.

Definition controlLampBlock (masterAddr cuAddr : Z) (lampList : list Z) (brightness : Z)
  : JS.result Buffer.t :=
  let destAddr := [0x13; masterAddr; cuAddr; 0x00; 0x00] in
  let n := Z.of_nat (List.length lampList) in
  let data := Buffer.alloc (2 + n + 1) in
  let data := Buffer.set data 0 cuAddr in
  let data := Buffer.set data 1 n in
  let data := fill_lamps data 0 lampList in
  let data := Buffer.set data (2 + n) brightness in
  buildPacket destAddr 0x90 0x00 data.

Definition controlLampDimming (masterAddr cuAddr lampNo brightness : Z)
  : JS.result Buffer.t :=
  let destAddr := [0x13; masterAddr; cuAddr; 0x00; 0x00] in
  let data := Buffer.from [cuAddr; lampNo; 0x00; brightness] in
  buildPacket destAddr 0x92 0x00 data.

Definition controlLampColorTemp (masterAddr cuAddr : Z) (lampList : list Z) (colorTemp : Z)
  : JS.result Buffer.t :=
  let destAddr := [0x13; masterAddr; cuAddr; 0x00; 0x00] in
  let n := Z.of_nat (List.length lampList) in
  let data := Buffer.alloc (2 + n + 1) in
  let data := Buffer.set data 0 cuAddr in
  let data := Buffer.set data 1 n in
  let data := fill_lamps data 0 lampList in
  let data := Buffer.set data (2 + n) colorTemp in
  buildPacket destAddr 0x90 0x05 data.

Definition executeScene (masterAddr cuAddr sceneNo fadeTime : Z) : JS.result Buffer.t :=
  let destAddr := [0x13; masterAddr; cuAddr; 0x00; 0x00] in
  let data := Buffer.from [cuAddr; sceneNo; fadeTime] in
  buildPacket destAddr 0x91 0x00 data.

Definition controlAllLamps (masterAddr cuAddr brightness : Z) : JS.result Buffer.t :=
  let destAddr := [0x13; masterAddr; cuAddr; 0x00; 0x00] in
  let data := Buffer.from [cuAddr; brightness] in
  buildPacket destAddr 0x90 0x02 data.

Definition getDeviceName : JS.result Buffer.t :=
  let destAddr := [0x13; 0x00; 0x00; 0x00; 0x00] in
  buildPacket destAddr 0xa2 0x05 (Buffer.alloc 0).

(** [packetToHex]: [None] when it throws, which it does with a TypeError
    on [null.join] when the packet has no byte. *)
Definition packetToHex (packet : Buffer.t) : option string :=
  match JS.match_dot2 (JS.toUpperCase (Buffer.toString_hex packet)) with
  | Some pairs => Some (JS.join " " pairs)
  | None => None
  end.

End LCSPacketBuilder.

(** ** tcp-client.js *)

Module LCSTcpClient.

Definition MSG_NOT_CONNECTED : string := "LCS Agent에 연결되지 않음".
Definition MSG_TIMEOUT : string := "응답 타임아웃".

(** The object returned by [parseResponsePacket] when [isComplete]. *)
Record PacketInfo : Type := {
  totalLength : Z;
  destAddr : list Z;
  srcAddr : list Z;
  op1 : option Z;
  op2 : option Z;
  data : Buffer.t;
  bcc : Z;
}.

Inductive ParseResult : Type :=
| Incomplete
| Complete (packetInfo : PacketInfo).

(** [v !== k] for a buffer slot [v] and a number [k] *)
Definition strict_ne (v : option Z) (k : Z) : bool :=
  match v with
  | Some x => negb (x =? k)
  | None => true
  end.

Definition parseResponsePacket (buffer : Buffer.t) : JS.result ParseResult :=
  if Buffer.length buffer <? 18 then JS.Ok Incomplete
  else if strict_ne (Buffer.get buffer 0) 0x02 then JS.Ok Incomplete
  else
    packetLength <- Buffer.readUInt16LE buffer 1 ;;
    if Buffer.length buffer <? packetLength then JS.Ok Incomplete
    else if strict_ne (Buffer.get buffer (packetLength - 1)) 0x03 then JS.Ok Incomplete
    else
      let destAddr := Buffer.slice buffer 3 8 in
      let srcAddr := Buffer.slice buffer 8 13 in
      let op1 := Buffer.get buffer 13 in
      let op2 := Buffer.get buffer 14 in
      let dataLength := packetLength - 18 in
      let responseData := Buffer.slice buffer 15 (15 + dataLength) in
      bcc <- Buffer.readUInt16LE buffer (15 + dataLength) ;;
      JS.Ok (Complete {| totalLength := packetLength;
                         destAddr := destAddr;
                         srcAddr := srcAddr;
                         op1 := op1;
                         op2 := op2;
                         data := responseData;
                         bcc := bcc |}).

(** The type-dependent part of an interpreted response.  A device name
    is a string, given by its UTF-16 code units. *)
Inductive ResponseBody : Type :=
| lamp_brightness (brightness : list Z)
| color_temperature (colorTemperature : list Z)
| lamp_control_ack (success : bool)
| device_name (deviceName : JS.string16)
| unknown (hexData : list Z).

(** The object built by [interpretResponse]; [opCode] is kept as a number
    and the [timestamp] field is left out. *)
Record Response : Type := {
  opCode : Z;
  sourceDevice : option Z * option Z * option Z;
  rawData : Buffer.t;
  body : ResponseBody;
}.

Definition interpretResponse (packetInfo : PacketInfo) : Response :=
  let data := data packetInfo in
  let srcAddr := srcAddr packetInfo in
  let opCode := JS.or (JS.shl (JS.ToInt32' (op1 packetInfo)) 8)
                      (JS.ToInt32' (op2 packetInfo)) in
  {| opCode := opCode;
     sourceDevice := (srcAddr !! 0%nat, srcAddr !! 1%nat, srcAddr !! 2%nat);
     rawData := data;
     body :=
       if opCode =? 0x1600 then lamp_brightness data
       else if opCode =? 0x1606 then color_temperature data
       else if opCode =? 0x1000 then
         lamp_control_ack (negb (strict_ne (Buffer.get data 0) 0x00))
       else if opCode =? 0x2205 then
         device_name (JS.replace_nul (Buffer.toString_utf8 data))
       else unknown data |}.

(** How a promise returned by [sendPacket] was settled. *)
Inductive Settled : Type :=
| Resolved (response : Response)
| Rejected (e : JS.exn).

(** What the client emits on itself. *)
Inductive Emitted : Type :=
| connected
| disconnected
| error
| response (responseData : Response).

(** An entry [{ resolve, reject, timeout }] of [responseCallbacks]:
    [resolve] and [reject] are those of the promise [promise], and
    [timeout] is the handle of a timer. *)
Record Callback : Type := {
  promise : nat;
  timeout : nat;
}.

(** The client object.  A request is known by the [requestId] that the
    closures of its [sendPacket] call captured: its entry in
    [responseCallbacks], its 'response' listener, its timer and its
    promise all carry that number.
    - [listeners]: the 'response' listeners, in registration order;
    - [timers]: the armed 5000 ms timeouts;
    - [promises]: the settled promises (a request not in the map is
      pending);
    - [written]: what was passed to [socket.write], oldest first;
    - [emitted]: what was emitted, oldest first. *)
Record Client : Type := {
  isConnected : bool;
  responseBuffer : Buffer.t;
  responseCallbacks : gmap nat Callback;
  requestId : nat;
  listeners : list nat;
  timers : gset nat;
  promises : gmap nat Settled;
  written : list Buffer.t;
  emitted : list Emitted;
}.

(** the constructor *)
Definition new : Client :=
  {| isConnected := false;
     responseBuffer := Buffer.alloc 0;
     responseCallbacks := ∅;
     requestId := 0;
     listeners := [];
     timers := ∅;
     promises := ∅;
     written := [];
     emitted := [] |}.

Definition emit (c : Client) (e : Emitted) : Client :=
  {| isConnected := isConnected c;
     responseBuffer := responseBuffer c;
     responseCallbacks := responseCallbacks c;
     requestId := requestId c;
     listeners := listeners c;
     timers := timers c;
     promises := promises c;
     written := written c;
     emitted := emitted c ++ [e] |}.

Definition set_isConnected (c : Client) (b : bool) : Client :=
  {| isConnected := b;
     responseBuffer := responseBuffer c;
     responseCallbacks := responseCallbacks c;
     requestId := requestId c;
     listeners := listeners c;
     timers := timers c;
     promises := promises c;
     written := written c;
     emitted := emitted c |}.

Definition set_responseBuffer (c : Client) (b : Buffer.t) : Client :=
  {| isConnected := isConnected c;
     responseBuffer := b;
     responseCallbacks := responseCallbacks c;
     requestId := requestId c;
     listeners := listeners c;
     timers := timers c;
     promises := promises c;
     written := written c;
     emitted := emitted c |}.

(** settling a promise: a second [resolve] or [reject] is ignored *)
Definition settle (ps : gmap nat Settled) (id : nat) (s : Settled) : gmap nat Settled :=
  match ps !! id with
  | Some _ => ps
  | None => <[id := s]> ps
  end.

(** The closure [responseHandler] of the request [id], called with a
    response. *)
Definition responseHandler (id : nat) (r : Response) (c : Client) : Client :=
  match responseCallbacks c !! id with
  | Some callback =>
      {| isConnected := isConnected c;
         responseBuffer := responseBuffer c;
         responseCallbacks := delete id (responseCallbacks c);
         requestId := requestId c;
         (* off *)
         listeners := List.filter (fun l => negb (Nat.eqb l id)) (listeners c);
         (* clearTimeout *)
         timers := timers c ∖ {[timeout callback]};
         (* resolve *)
         promises := settle (promises c) id (Resolved r);
         written := written c;
         emitted := emitted c |}
  | None => c
  end.

(** [this.emit('response', responseData)]: the listeners registered at
    the time of the call are called in registration order. *)
Definition emit_response (c : Client) (r : Response) : Client :=
  fold_left (fun c id => responseHandler id r c) (listeners c) (emit c (response r)).

(** The [while (this.responseBuffer.length >= 18)] loop of
    [handleResponse]; [fuel] bounds the number of iterations. *)
Fixpoint handleResponse_loop (fuel : nat) (c : Client) : JS.result Client :=
  match fuel with
  | O => JS.Ok c
  | S fuel' =>
      if 18 <=? Buffer.length (responseBuffer c) then
        packetInfo <- parseResponsePacket (responseBuffer c) ;;
        match packetInfo with
        | Complete p =>
            let responseData := interpretResponse p in
            let c := emit_response c responseData in
            let c := set_responseBuffer c
                       (Buffer.slice_from (responseBuffer c) (totalLength p)) in
            handleResponse_loop fuel' c
        | Incomplete => JS.Ok c
        end
      else JS.Ok c
  end.

Definition handleResponse (c : Client) (data : Buffer.t) : JS.result Client :=
  let c := set_responseBuffer c (Buffer.concat (responseBuffer c) data) in
  handleResponse_loop (List.length (responseBuffer c)) c.

(** What a caller of [sendPacket] holds: a promise rejected on the spot,
    before a request was numbered, or the promise of the request
    [requestId], whose state is in [promises]. *)
Inductive Promise : Type :=
| RejectedNow (e : JS.exn)
| Of (requestId : nat).

(** [sendPacket].  The executor ends with the log line of
    [packetToHex(packet)], which throws a TypeError when the packet has
    no byte: the exception rejects the promise on the spot, after the
    entry, the timer and the listener were registered and the packet was
    written. *)
Definition sendPacket (c : Client) (packet : Buffer.t) : Client * Promise :=
  if negb (isConnected c) then (c, RejectedNow (JS.Error MSG_NOT_CONNECTED))
  else
    let requestId := S (requestId c) in
    ({| isConnected := isConnected c;
        responseBuffer := responseBuffer c;
        responseCallbacks :=
          <[requestId := {| promise := requestId; timeout := requestId |}]>
            (responseCallbacks c);
        requestId := requestId;
        listeners := listeners c ++ [requestId];
        timers := timers c ∪ {[requestId]};
        promises :=
          match LCSPacketBuilder.packetToHex packet with
          | Some _ => promises c
          | None => settle (promises c) requestId (Rejected JS.TypeError)
          end;
        written := written c ++ [packet];
        emitted := emitted c |},
     Of requestId).

(** The timeout callback of the request [id] runs (5000 ms after its
    [sendPacket], unless cleared). *)
Definition on_timeout (c : Client) (id : nat) : Client :=
  if decide (id ∈ timers c) then
    {| isConnected := isConnected c;
       responseBuffer := responseBuffer c;
       responseCallbacks := delete id (responseCallbacks c);
       requestId := requestId c;
       listeners := listeners c;
       timers := timers c ∖ {[id]};
       promises := settle (promises c) id (Rejected (JS.Error MSG_TIMEOUT));
       written := written c;
       emitted := emitted c |}
  else c.

(** the socket's connect callback *)
Definition on_connect (c : Client) : Client :=
  emit (set_isConnected c true) connected.

(** the socket's 'error' listener *)
Definition on_error (c : Client) : Client :=
  emit (set_isConnected c false) error.

(** the socket's 'close' listener *)
Definition on_close (c : Client) : Client :=
  emit (set_isConnected c false) disconnected.

(** [disconnect()], for a client that has a socket *)
Definition disconnect (c : Client) : Client :=
  set_isConnected c false.

(** An async method that builds a packet and sends it: a builder that
    throws rejects the promise. *)
Definition send_built (c : Client) (packet : JS.result Buffer.t) : Client * Promise :=
  match packet with
  | JS.Ok p => sendPacket c p
  | JS.Throw e => (c, RejectedNow e)
  end.

Definition getLampBrightness (c : Client) (masterAddr cuAddr : Z) (deviceType : string) :=
  send_built c (LCSPacketBuilder.getLampBrightness masterAddr cuAddr deviceType).

Definition getLampColorTemperature (c : Client) (masterAddr cuAddr : Z) :=
  send_built c (LCSPacketBuilder.getLampColorTemperature masterAddr cuAddr).

Definition controlLamp (c : Client) (masterAddr cuAddr lampNo brightness : Z) :=
  send_built c (LCSPacketBuilder.controlLampDimming masterAddr cuAddr lampNo brightness).

Definition controlLampBlock (c : Client) (masterAddr cuAddr : Z) (lampList : list Z)
  (brightness : Z) :=
  send_built c (LCSPacketBuilder.controlLampBlock masterAddr cuAddr lampList brightness).

Definition controlColorTemperature (c : Client) (masterAddr cuAddr : Z)
  (lampList : list Z) (colorTemp : Z) :=
  send_built c (LCSPacketBuilder.controlLampColorTemp masterAddr cuAddr lampList colorTemp).

Definition executeScene (c : Client) (masterAddr cuAddr sceneNo fadeTime : Z) :=
  send_built c (LCSPacketBuilder.executeScene masterAddr cuAddr sceneNo fadeTime).

Definition controlAllLamps (c : Client) (masterAddr cuAddr brightness : Z) :=
  send_built c (LCSPacketBuilder.controlAllLamps masterAddr cuAddr brightness).

Definition getDeviceInfo (c : Client) :=
  send_built c LCSPacketBuilder.getDeviceName.

(** What happens to a client, one event-loop turn at a time. *)
Inductive Event : Type :=
| Connect                       (* the socket connected *)
| Send (packet : Buffer.t)      (* a caller runs [sendPacket] *)
| Data (chunk : Buffer.t)       (* the socket's 'data' *)
| Timeout (id : nat)            (* the timer of request [id] fires *)
| Close                         (* the socket's 'close' *)
| Disconnect.                   (* a caller runs [disconnect] *)

Definition step (c : Client) (ev : Event) : JS.result Client :=
  match ev with
  | Connect => JS.Ok (on_connect c)
  | Send packet => JS.Ok (fst (sendPacket c packet))
  | Data chunk => handleResponse c chunk
  | Timeout id => JS.Ok (on_timeout c id)
  | Close => JS.Ok (on_close c)
  | Disconnect => JS.Ok (disconnect c)
  end.

Fixpoint run (c : Client) (evs : list Event) : JS.result Client :=
  match evs with
  | [] => JS.Ok c
  | ev :: evs' => c' <- step c ev ;; run c' evs'
  end.

End LCSTcpClient.

(** ** controller.js *)

Module LCSController.

Definition MSG_NOT_CONNECTED : string := LCSTcpClient.MSG_NOT_CONNECTED.

Record Controller : Type := {
  client : LCSTcpClient.Client;
  isConnected : bool;
  reconnectInterval : bool;     (* is the 5000 ms interval armed *)
  agentId : option string;
  name : option string;
  host : string;
  port : Z;
}.

(** the constructor *)
Definition new (host : string) (port : Z) : Controller :=
  {| client := LCSTcpClient.new;
     isConnected := false;
     reconnectInterval := false;
     agentId := None;
     name := None;
     host := host;
     port := port |}.

(** the listeners installed by [setupEventHandlers] *)
Definition on_connected (ctl : Controller) : Controller :=
  {| client := client ctl;
     isConnected := true;
     reconnectInterval := false;
     agentId := agentId ctl; name := name ctl; host := host ctl; port := port ctl |}.

Definition on_disconnected (ctl : Controller) : Controller :=
  {| client := client ctl;
     isConnected := false;
     reconnectInterval := true;       (* startReconnectTimer *)
     agentId := agentId ctl; name := name ctl; host := host ctl; port := port ctl |}.

Definition on_error (ctl : Controller) : Controller :=
  {| client := client ctl;
     isConnected := false;
     reconnectInterval := reconnectInterval ctl;
     agentId := agentId ctl; name := name ctl; host := host ctl; port := port ctl |}.

(** [connect()], with the outcome of the TCP connection given *)
Definition connect (ctl : Controller) (tcp_ok : bool) : Controller * bool :=
  if tcp_ok then
    (on_connected
       {| client := LCSTcpClient.on_connect (client ctl);
          isConnected := isConnected ctl;
          reconnectInterval := reconnectInterval ctl;
          agentId := agentId ctl; name := name ctl; host := host ctl; port := port ctl |},
     true)
  else
    (on_error
       {| client := LCSTcpClient.on_error (client ctl);
          isConnected := isConnected ctl;
          reconnectInterval := true;   (* startReconnectTimer, in the catch *)
          agentId := agentId ctl; name := name ctl; host := host ctl; port := port ctl |},
     false).

Definition disconnect (ctl : Controller) : Controller :=
  {| client := LCSTcpClient.disconnect (client ctl);
     isConnected := false;
     reconnectInterval := false;
     agentId := agentId ctl; name := name ctl; host := host ctl; port := port ctl |}.

Definition controlLamp (ctl : Controller) (masterAddr cuAddr lampNo brightness : Z)
  : Controller * LCSTcpClient.Promise :=
  if negb (isConnected ctl) then
    (ctl, LCSTcpClient.RejectedNow (JS.Error MSG_NOT_CONNECTED))
  else
    let (c, p) := LCSTcpClient.controlLamp (client ctl) masterAddr cuAddr lampNo brightness in
    ({| client := c;
        isConnected := isConnected ctl;
        reconnectInterval := reconnectInterval ctl;
        agentId := agentId ctl; name := name ctl; host := host ctl; port := port ctl |},
     p).

(** *** The effects

    The body of an async function, as the sequence of things it awaits:
    a call of [this.controlLamp] (a rejection is not caught, so it ends
    the function) or a [setTimeout] promise. *)
Inductive Task : Type :=
| Return
| Throw (e : JS.exn)
| AwaitControlLamp (masterAddr cuAddr lampNo brightness : Z) (k : Task)
| AwaitTimeout (ms : float) (k : Task).

(** [Math.round(x)] as an integer: the nearest one, a tie going up.  A
    finite [x] other than zero is [n * 2^e] for two integers [n] and [e];
    when [e < 0] the result is the floor of
    [x + 1/2 = (2 * n + 2^(-e)) / 2^(1 - e)], and the floor of a division
    by a power of two is a shift to the right.  For NaN and the
    infinities, which [Math.round] returns as they are, the model gives
    0, the byte that [Buffer.from] stores for them. *)
Definition Math_round (x : float) : Z :=
  match Prim2SF x with
  | S754_finite s m e =>
      let n := if s then Z.neg m else Z.pos m in
      if 0 <=? e then Z.shiftl n e
      else Z.shiftr (2 * n + Z.shiftl 1 (- e)) (1 - e)
  | _ => 0
  end.

(** an integer counter as a number *)
Definition of_Z (z : Z) : float :=
  if z <? 0 then PrimFloat.opp (PrimFloat.of_uint63 (Uint63.of_Z (- z)))
  else PrimFloat.of_uint63 (Uint63.of_Z z).

Definition steps : Z := 20.

(** The [for (let i = 0; i <= steps; i++)] loop of [fadeControl];
    [fuel] bounds the number of iterations. *)
Fixpoint fadeControl_for (fuel : nat) (masterAddr cuAddr lampNo : Z)
  (startBrightness stepSize stepDuration : float) (i : Z) : Task :=
  match fuel with
  | O => Return
  | S fuel' =>
      if i <=? steps then
        let currentBrightness :=
          Math_round (startBrightness + stepSize * of_Z i)%float in
        let next :=
          fadeControl_for fuel' masterAddr cuAddr lampNo
            startBrightness stepSize stepDuration (i + 1) in
        AwaitControlLamp masterAddr cuAddr lampNo currentBrightness
          (if i <? steps then AwaitTimeout stepDuration next else next)
      else Return
  end.

Definition fadeControl (ctl : Controller) (masterAddr cuAddr lampNo : Z)
  (startBrightness endBrightness duration : float) : Task :=
  if negb (isConnected ctl) then Throw (JS.Error MSG_NOT_CONNECTED)
  else
    let stepDuration := (duration * 1000 / of_Z steps)%float in
    let stepSize := ((endBrightness - startBrightness) / of_Z steps)%float in
    fadeControl_for (Z.to_nat steps + 2) masterAddr cuAddr lampNo
      startBrightness stepSize stepDuration 0.

(** the [for (const lampNo of lampList)] loop of [waveEffect] *)
Fixpoint waveEffect_for (masterAddr cuAddr : Z) (lampList : list Z)
  (brightness : Z) (interval : float) : Task :=
  match lampList with
  | [] => Return
  | lampNo :: rest =>
      AwaitControlLamp masterAddr cuAddr lampNo brightness
        (AwaitTimeout interval
           (waveEffect_for masterAddr cuAddr rest brightness interval))
  end.

Definition waveEffect (ctl : Controller) (masterAddr cuAddr : Z) (lampList : list Z)
  (brightness : Z) (interval : float) : Task :=
  if negb (isConnected ctl) then Throw (JS.Error MSG_NOT_CONNECTED)
  else waveEffect_for masterAddr cuAddr lampList brightness interval.

(** *** Running a task

    What a task did: the calls of [controlLamp] and the sleeps, oldest
    first. *)
Inductive Action : Type :=
| ControlLamp (masterAddr cuAddr lampNo brightness : Z)
| Sleep (ms : float).

(** how an awaited [controlLamp] ends *)
Inductive Outcome : Type :=
| Fulfilled
| Failed (e : JS.exn).

(** how the task ends; [Waiting] when an awaited call never settles *)
Inductive Completion : Type :=
| Completed
| Raised (e : JS.exn)
| Waiting.

(** [exec t outcomes]: run [t], the i-th awaited [controlLamp] ending as
    the i-th of [outcomes] says. *)
Fixpoint exec (t : Task) (outcomes : list Outcome) : list Action * Completion :=
  match t with
  | Return => ([], Completed)
  | Throw e => ([], Raised e)
  | AwaitControlLamp m cu lampNo b k =>
      match outcomes with
      | [] => ([ControlLamp m cu lampNo b], Waiting)
      | Fulfilled :: rest =>
          let (tr, r) := exec k rest in (ControlLamp m cu lampNo b :: tr, r)
      | Failed e :: _ => ([ControlLamp m cu lampNo b], Raised e)
      end
  | AwaitTimeout ms k =>
      let (tr, r) := exec k outcomes in (Sleep ms :: tr, r)
  end.

(** the brightness values of the [controlLamp] calls of a trace *)
Fixpoint brightness_values (tr : list Action) : list Z :=
  match tr with
  | [] => []
  | ControlLamp _ _ _ b :: tr' => b :: brightness_values tr'
  | Sleep _ :: tr' => brightness_values tr'
  end.

(** the lamps of the [controlLamp] calls of a trace *)
Fixpoint lamps (tr : list Action) : list Z :=
  match tr with
  | [] => []
  | ControlLamp _ _ lampNo _ :: tr' => lampNo :: lamps tr'
  | Sleep _ :: tr' => lamps tr'
  end.

(** *** The other methods *)

Definition with_client (ctl : Controller) (c : LCSTcpClient.Client) : Controller :=
  {| client := c;
     isConnected := isConnected ctl;
     reconnectInterval := reconnectInterval ctl;
     agentId := agentId ctl; name := name ctl; host := host ctl; port := port ctl |}.

(** [startReconnectTimer]: does nothing when the interval is armed *)
Definition startReconnectTimer (ctl : Controller) : Controller :=
  if reconnectInterval ctl then ctl
  else
    {| client := client ctl;
       isConnected := isConnected ctl;
       reconnectInterval := true;
       agentId := agentId ctl; name := name ctl; host := host ctl; port := port ctl |}.

(** The callback of the reconnect interval, with the outcome of the TCP
    connection given: [await this.client.connect()] in a [try] whose
    [catch] only logs.  The client emits 'connected' or 'error', on which
    the listeners of [setupEventHandlers] run. *)
Definition reconnect_tick (ctl : Controller) (tcp_ok : bool) : Controller :=
  if tcp_ok then on_connected (with_client ctl (LCSTcpClient.on_connect (client ctl)))
  else on_error (with_client ctl (LCSTcpClient.on_error (client ctl))).

(** The socket of the client closes: the client's 'close' listener emits
    'disconnected', on which the controller's listener runs. *)
Definition socket_close (ctl : Controller) : Controller :=
  on_disconnected (with_client ctl (LCSTcpClient.on_close (client ctl))).

(** [getConnectionStatus()]: [isConnected], [host] and [port] *)
Definition getConnectionStatus (ctl : Controller) : bool * string * Z :=
  (isConnected ctl, host ctl, port ctl).

(** The body shared by the request methods: the test of
    [this.isConnected], then the method of the client. *)
Definition guarded (ctl : Controller)
  (call : LCSTcpClient.Client -> LCSTcpClient.Client * LCSTcpClient.Promise)
  : Controller * LCSTcpClient.Promise :=
  if negb (isConnected ctl) then
    (ctl, LCSTcpClient.RejectedNow (JS.Error MSG_NOT_CONNECTED))
  else
    let (c, p) := call (client ctl) in (with_client ctl c, p).

Definition getLampBrightness (ctl : Controller) (masterAddr cuAddr : Z)
  (deviceType : string) :=
  guarded ctl (fun c => LCSTcpClient.getLampBrightness c masterAddr cuAddr deviceType).

Definition getLampColorTemperature (ctl : Controller) (masterAddr cuAddr : Z) :=
  guarded ctl (fun c => LCSTcpClient.getLampColorTemperature c masterAddr cuAddr).

Definition controlLampBlock (ctl : Controller) (masterAddr cuAddr : Z)
  (lampList : list Z) (brightness : Z) :=
  guarded ctl (fun c => LCSTcpClient.controlLampBlock c masterAddr cuAddr lampList brightness).

Definition controlColorTemperature (ctl : Controller) (masterAddr cuAddr : Z)
  (lampList : list Z) (colorTemp : Z) :=
  guarded ctl
    (fun c => LCSTcpClient.controlColorTemperature c masterAddr cuAddr lampList colorTemp).

Definition executeScene (ctl : Controller) (masterAddr cuAddr sceneNo fadeTime : Z) :=
  guarded ctl (fun c => LCSTcpClient.executeScene c masterAddr cuAddr sceneNo fadeTime).

Definition controlAllLamps (ctl : Controller) (masterAddr cuAddr brightness : Z) :=
  guarded ctl (fun c => LCSTcpClient.controlAllLamps c masterAddr cuAddr brightness).

Definition getDeviceInfo (ctl : Controller) :=
  guarded ctl LCSTcpClient.getDeviceInfo.

(** *** What happens to a controller

    One event-loop turn at a time: the calls of its methods, and the
    events of its client's socket and timers. *)
Inductive Event : Type :=
| CallConnect (tcp_ok : bool)            (* [connect()], and how it ends *)
| CallDisconnect                         (* [disconnect()] *)
| Request (packet : JS.result Buffer.t)  (* a request method, with what its builder returns *)
| Tick (tcp_ok : bool)                   (* the reconnect interval fires *)
| SocketClose                            (* the socket's 'close' *)
| SocketData (chunk : Buffer.t)          (* the socket's 'data' *)
| RequestTimeout (id : nat).             (* the timer of request [id] fires *)

Definition step (ctl : Controller) (ev : Event) : JS.result Controller :=
  match ev with
  | CallConnect tcp_ok => JS.Ok (fst (connect ctl tcp_ok))
  | CallDisconnect => JS.Ok (disconnect ctl)
  | Request packet =>
      JS.Ok (fst (guarded ctl (fun c => LCSTcpClient.send_built c packet)))
  | Tick tcp_ok =>
      JS.Ok (if reconnectInterval ctl then reconnect_tick ctl tcp_ok else ctl)
  | SocketClose => JS.Ok (socket_close ctl)
  | SocketData chunk =>
      c <- LCSTcpClient.handleResponse (client ctl) chunk ;; JS.Ok (with_client ctl c)
  | RequestTimeout id => JS.Ok (with_client ctl (LCSTcpClient.on_timeout (client ctl) id))
  end.

Fixpoint run (ctl : Controller) (evs : list Event) : JS.result Controller :=
  match evs with
  | [] => JS.Ok ctl
  | ev :: evs' => ctl' <- step ctl ev ;; run ctl' evs'
  end.

End LCSController.

(** ** agent-manager.js *)

Module LCSAgentManager.

Import LCSController.

(** *** A JavaScript [Map] with string keys

    The entries in insertion order; a key occurs once. *)
Module Map.

Definition t (V : Type) : Type := list (string * V).

Definition get {V} (m : t V) (k : string) : option V :=
  snd <$> List.find (fun e => String.eqb (fst e) k) m.

Definition has {V} (m : t V) (k : string) : bool :=
  match get m k with
  | Some _ => true
  | None => false
  end.

(** [set]: a new key goes last, an old key keeps its place *)
Fixpoint set {V} (m : t V) (k : string) (v : V) : t V :=
  match m with
  | [] => [(k, v)]
  | e :: m' => if String.eqb (fst e) k then (k, v) :: m' else e :: set m' k v
  end.

Definition delete {V} (m : t V) (k : string) : t V :=
  List.filter (fun e => negb (String.eqb (fst e) k)) m.

(** [Array.from(m.keys())] *)
Definition keys {V} (m : t V) : list string := map fst m.

Definition clear {V} (m : t V) : t V := [].

End Map.

Record Manager : Type := {
  agents : Map.t Controller;
  defaultAgentId : option string;
}.

(** the constructor *)
Definition new : Manager :=
  {| agents := []; defaultAgentId := None |}.

(** [!x] for a string or [null]: [null] and the empty string are falsy *)
Definition falsy (x : option string) : bool :=
  match x with
  | None => true
  | Some s => String.eqb s EmptyString
  end.

Definition MSG_EXISTS (agentId : string) : string :=
  "Agent ID '" +:+ agentId +:+ "'는 이미 존재합니다.".

(** [addAgent], with the outcome of the TCP connection given.  The
    registry is updated before the connection is awaited. *)
Definition addAgent (m : Manager) (agentId host : string) (port : Z)
  (name : option string) (tcp_ok : bool) : JS.result (Manager * bool) :=
  if Map.has (agents m) agentId then JS.Throw (JS.Error (MSG_EXISTS agentId))
  else
    let controller := LCSController.new host port in
    let controller :=
      {| client := client controller;
         isConnected := isConnected controller;
         reconnectInterval := reconnectInterval controller;
         agentId := Some agentId;
         name := Some (if falsy name then "Agent-" +:+ agentId else default EmptyString name);
         host := host;
         port := port |} in
    let (controller, success) := LCSController.connect controller tcp_ok in
    JS.Ok ({| agents := Map.set (agents m) agentId controller;
              defaultAgentId :=
                if falsy (defaultAgentId m) then Some agentId else defaultAgentId m |},
           success).

(** [a === b] for [defaultAgentId] and a string *)
Definition strict_eq (a : option string) (b : string) : bool :=
  match a with
  | Some s => String.eqb s b
  | None => false
  end.

Definition removeAgent (m : Manager) (agentId : string) : Manager * bool :=
  match Map.get (agents m) agentId with
  | None => (m, false)
  | Some controller =>
      let controller := LCSController.disconnect controller in
      let agents := Map.delete (agents m) agentId in
      let defaultAgentId :=
        if strict_eq (defaultAgentId m) agentId then
          let remainingAgents := Map.keys agents in
          if (0 <? List.length remainingAgents)%nat
          then remainingAgents !! 0%nat
          else None
        else defaultAgentId m in
      ({| agents := agents; defaultAgentId := defaultAgentId |}, true)
  end.

Definition getAgent (m : Manager) (agentId : option string) : option Controller :=
  let targetId := if falsy agentId then defaultAgentId m else agentId in
  match targetId with
  | Some id => Map.get (agents m) id
  | None => None
  end.

Definition setDefaultAgent (m : Manager) (agentId : string) : Manager * bool :=
  if negb (Map.has (agents m) agentId) then (m, false)
  else ({| agents := agents m; defaultAgentId := Some agentId |}, true).

Definition disconnectAll (m : Manager) : Manager :=
  {| agents := Map.clear (agents m); defaultAgentId := None |}.

(** *** The other methods *)

Definition MSG_UNKNOWN_ID (agentId : string) : string :=
  "Agent ID '" +:+ agentId +:+ "'를 찾을 수 없습니다.".

(** [agentId || 'default'] in a template *)
Definition MSG_NOT_FOUND (agentId : option string) : string :=
  "Agent를 찾을 수 없습니다: "
    +:+ (if falsy agentId then "default" else default EmptyString agentId).

(** [agentId || this.defaultAgentId] *)
Definition targetId (m : Manager) (agentId : option string) : option string :=
  if falsy agentId then defaultAgentId m else agentId.

(** an entry of the array that [getAllAgents] returns *)
Module AgentInfo.

Record t : Type := {
  agentId : string;
  name : option string;
  host : string;
  port : Z;
  isConnected : bool;
  isDefault : bool;
}.

End AgentInfo.

Definition getAllAgents (m : Manager) : list AgentInfo.t :=
  map (fun e : string * Controller =>
         let (agentId, controller) := e in
         {| AgentInfo.agentId := agentId;
            AgentInfo.name := name controller;
            AgentInfo.host := host controller;
            AgentInfo.port := port controller;
            AgentInfo.isConnected := isConnected controller;
            AgentInfo.isDefault := strict_eq (defaultAgentId m) agentId |})
      (agents m).

(** the object that [getConnectionStatus] returns *)
Module ConnectionStatus.

Record t : Type := {
  totalAgents : nat;
  connectedAgents : nat;
  defaultAgentId : option string;
  agents : list AgentInfo.t;
}.

End ConnectionStatus.

Definition getConnectionStatus (m : Manager) : ConnectionStatus.t :=
  let agents := getAllAgents m in
  let connectedCount := List.length (List.filter AgentInfo.isConnected agents) in
  {| ConnectionStatus.totalAgents := List.length agents;
     ConnectionStatus.connectedAgents := connectedCount;
     ConnectionStatus.defaultAgentId := defaultAgentId m;
     ConnectionStatus.agents := agents |}.

(** [reconnectAgent], with the outcome of the TCP connection given *)
Definition reconnectAgent (m : Manager) (agentId : string) (tcp_ok : bool)
  : JS.result (Manager * bool) :=
  match Map.get (agents m) agentId with
  | None => JS.Throw (JS.Error (MSG_UNKNOWN_ID agentId))
  | Some controller =>
      let (controller, success) := LCSController.connect controller tcp_ok in
      JS.Ok ({| agents := Map.set (agents m) agentId controller;
                defaultAgentId := defaultAgentId m |},
             success)
  end.

(** The body shared by the proxy methods: [getAgent], the error when
    there is none, then the method of the controller.  The controller is
    the object that the registry holds, so what the method does to it
    shows in the registry. *)
Definition proxy (m : Manager) (agentId : option string)
  (call : Controller -> Controller * LCSTcpClient.Promise)
  : Manager * LCSTcpClient.Promise :=
  match getAgent m agentId with
  | None => (m, LCSTcpClient.RejectedNow (JS.Error (MSG_NOT_FOUND agentId)))
  | Some agent =>
      let (agent, p) := call agent in
      ({| agents := Map.set (agents m) (default EmptyString (targetId m agentId)) agent;
          defaultAgentId := defaultAgentId m |},
       p)
  end.

Definition controlLamp (m : Manager) (agentId : option string)
  (masterAddr cuAddr lampNo brightness : Z) :=
  proxy m agentId (fun a => LCSController.controlLamp a masterAddr cuAddr lampNo brightness).

Definition controlLampBlock (m : Manager) (agentId : option string)
  (masterAddr cuAddr : Z) (lampList : list Z) (brightness : Z) :=
  proxy m agentId
    (fun a => LCSController.controlLampBlock a masterAddr cuAddr lampList brightness).

Definition controlColorTemperature (m : Manager) (agentId : option string)
  (masterAddr cuAddr : Z) (lampList : list Z) (colorTemp : Z) :=
  proxy m agentId
    (fun a => LCSController.controlColorTemperature a masterAddr cuAddr lampList colorTemp).

Definition executeScene (m : Manager) (agentId : option string)
  (masterAddr cuAddr sceneNo fadeTime : Z) :=
  proxy m agentId (fun a => LCSController.executeScene a masterAddr cuAddr sceneNo fadeTime).

Definition controlAllLamps (m : Manager) (agentId : option string)
  (masterAddr cuAddr brightness : Z) :=
  proxy m agentId (fun a => LCSController.controlAllLamps a masterAddr cuAddr brightness).

Definition getLampBrightness (m : Manager) (agentId : option string)
  (masterAddr cuAddr : Z) (deviceType : string) :=
  proxy m agentId (fun a => LCSController.getLampBrightness a masterAddr cuAddr deviceType).

Definition fadeControl (m : Manager) (agentId : option string)
  (masterAddr cuAddr lampNo : Z) (startBrightness endBrightness duration : float) : Task :=
  match getAgent m agentId with
  | None => Throw (JS.Error (MSG_NOT_FOUND agentId))
  | Some agent =>
      LCSController.fadeControl agent masterAddr cuAddr lampNo
        startBrightness endBrightness duration
  end.

Definition waveEffect (m : Manager) (agentId : option string)
  (masterAddr cuAddr : Z) (lampList : list Z) (brightness : Z) (interval : float) : Task :=
  match getAgent m agentId with
  | None => Throw (JS.Error (MSG_NOT_FOUND agentId))
  | Some agent =>
      LCSController.waveEffect agent masterAddr cuAddr lampList brightness interval
  end.

End LCSAgentManager.

(** ** The specification's own definitions

    What the specification defines in words, written down as it says it,
    to be compared with what the program computes. *)

Module Spec.

(** The BCC contract.  The byte range is read as 16-bit big-endian words,
    a last odd byte being the high byte of a word whose low byte is zero;
    the words are summed modulo 2^32; the high 16 bits are folded into
    the low 16; the result is the one's complement, truncated to 16
    bits. *)
Fixpoint words_be (bytes : list Z) : list Z :=
  match bytes with
  | hi :: lo :: rest => (256 * hi + lo) :: words_be rest
  | [hi] => [256 * hi]
  | [] => []
  end.

Definition sum_words (bytes : list Z) : Z :=
  fold_right Z.add 0 (words_be bytes).

Definition bcc (bytes : list Z) : Z :=
  let sum := sum_words bytes mod 2 ^ 32 in
  let folded := sum mod 2 ^ 16 + sum / 2 ^ 16 in
  (2 ^ 16 - 1 - folded) mod 2 ^ 16.

(** a 16-bit value, stored little-endian *)
Definition le16 (v : Z) : list Z := [v mod 256; v / 256].

(** a 16-bit value, stored big-endian *)
Definition be16 (v : Z) : list Z := [v / 256; v mod 256].

(** The value of a fade at step [i], [round(start + (end - start) * i / 20)]:
    the fraction is exact and [round] takes the nearest integer, a half
    going up. *)
Definition fade_value (startBrightness endBrightness i : Z) : Z :=
  (2 * (20 * startBrightness + (endBrightness - startBrightness) * i) + 20) / 40.

End Spec.

(** ** Closed forms used in the statements *)

(** the words that the loop adds, for the bytes [body] *)
Fixpoint loop_words (body : list Z) : list Z :=
  match body with
  | hi :: lo :: rest =>
      JS.or (JS.shl (JS.ToInt32 hi) 8) (JS.ToInt32 lo) :: loop_words rest
  | [hi] => [JS.or (JS.shl (JS.ToInt32 hi) 8) (JS.ToInt32 0)]
  | [] => []
  end.

(** The frame layout: STX, the total length big-endian, the destination
    and the host address, the two operation codes, the data, the BCC of
    all of these from the destination on, little-endian, and ETX. *)
Definition frame_body (destAddr : list Z) (op1 op2 : Z) (data : Buffer.t) : list Z :=
  Buffer.from destAddr ++ LCSPacketBuilder.HOST_ADDRESS
    ++ [JS.toUint8 op1; JS.toUint8 op2] ++ data.

Definition frame (destAddr : list Z) (op1 op2 : Z) (data : Buffer.t) : Buffer.t :=
  [LCSPacketBuilder.STX] ++ Spec.be16 (18 + Buffer.length data)
    ++ frame_body destAddr op1 op2 data
    ++ Spec.le16 (Spec.bcc (frame_body destAddr op1 op2 data))
    ++ [LCSPacketBuilder.ETX].

(** the data of [controlLampBlock] and of [controlLampColorTemp] *)
Definition block_data (cuAddr : Z) (lampList : list Z) (value : Z) : Buffer.t :=
  [JS.toUint8 cuAddr; JS.toUint8 (Z.of_nat (List.length lampList))]
    ++ map JS.toUint8 lampList ++ [JS.toUint8 value].

(** ** What the read loop does to a buffer

    [decodes buffer responses rest]: packets are taken from the front of
    [buffer] as long as [parseResponsePacket] finds one, giving
    [responses], and [rest] is what is left when it finds none. *)

Inductive decodes : Buffer.t -> list LCSTcpClient.Response -> Buffer.t -> Prop :=
| decodes_short (buffer : Buffer.t) :
    Buffer.length buffer < 18 ->
    decodes buffer [] buffer
| decodes_incomplete (buffer : Buffer.t) :
    18 <= Buffer.length buffer ->
    LCSTcpClient.parseResponsePacket buffer = JS.Ok LCSTcpClient.Incomplete ->
    decodes buffer [] buffer
| decodes_packet (buffer : Buffer.t) (p : LCSTcpClient.PacketInfo)
    (responses : list LCSTcpClient.Response) (rest : Buffer.t) :
    18 <= Buffer.length buffer ->
    LCSTcpClient.parseResponsePacket buffer = JS.Ok (LCSTcpClient.Complete p) ->
    decodes (drop (Z.to_nat (LCSTcpClient.totalLength p)) buffer) responses rest ->
    decodes buffer (LCSTcpClient.interpretResponse p :: responses) rest.

(** A buffer on which the STX test or the ETX test of
    [parseResponsePacket] fails. *)
Definition framing_error (buffer : Buffer.t) : Prop :=
  18 <= Buffer.length buffer
  /\ (LCSTcpClient.strict_ne (Buffer.get buffer 0) 0x02 = true
      \/ exists packetLength,
           Buffer.readUInt16LE buffer 1 = JS.Ok packetLength
           /\ packetLength <= Buffer.length buffer
           /\ LCSTcpClient.strict_ne (Buffer.get buffer (packetLength - 1)) 0x03 = true).

(** the emissions of a list of responses, oldest first *)
Definition emit_responses (c : LCSTcpClient.Client) (rs : list LCSTcpClient.Response)
  : LCSTcpClient.Client :=
  fold_left LCSTcpClient.emit_response rs c.

(** ** The requests of a client *)

(** the request [id] has an entry in [responseCallbacks] *)
Definition pending (c : LCSTcpClient.Client) (id : nat) : Prop :=
  is_Some (LCSTcpClient.responseCallbacks c !! id).

(** What holds of a client at all times: a pending request has its
    listener, its timer and an unsettled promise, and no request is
    numbered above [requestId]. *)
Definition client_inv (c : LCSTcpClient.Client) : Prop :=
  (forall id, pending c id ->
     In id (LCSTcpClient.listeners c)
     /\ LCSTcpClient.promises c !! id = None
     /\ id ∈ LCSTcpClient.timers c)
  /\ (forall id cb, LCSTcpClient.responseCallbacks c !! id = Some cb ->
        LCSTcpClient.timeout cb = id)
  /\ (forall id, In id (LCSTcpClient.listeners c) -> (id <= LCSTcpClient.requestId c)%nat)
  /\ (forall id, is_Some (LCSTcpClient.promises c !! id) ->
        (id <= LCSTcpClient.requestId c)%nat)
  /\ (forall id, id ∈ LCSTcpClient.timers c -> (id <= LCSTcpClient.requestId c)%nat).

(** [reply] is one whole packet, decoded as [p] *)
Definition is_reply (reply : Buffer.t) (p : LCSTcpClient.PacketInfo) : Prop :=
  LCSTcpClient.parseResponsePacket reply = JS.Ok (LCSTcpClient.Complete p)
  /\ LCSTcpClient.totalLength p = Buffer.length reply.

(** Requests sent one at a time, each after the reply to the one before
    has arrived: the events of the rounds [(request, reply, p)]. *)
Definition serial (rounds : list (Buffer.t * Buffer.t * LCSTcpClient.PacketInfo))
  : list LCSTcpClient.Event :=
  flat_map (fun rd => [LCSTcpClient.Send rd.1.1; LCSTcpClient.Data rd.1.2]) rounds.

(** ** Example data *)

(** A response packet as the agent sends it to the host, its length
    little-endian as [parseResponsePacket] reads it: the acknowledgement
    of a lamp control, [result] being 0 for a success. *)
Definition ack_frame (result : Z) : Buffer.t :=
  let body := [0x13; 0; 0; 0; 0] ++ [0x13; 1; 1; 0; 0] ++ [0x10; 0x00] ++ [result] in
  [0x02] ++ Spec.le16 19 ++ body ++ Spec.le16 (Spec.bcc body) ++ [0x03].

(** a client whose socket has connected *)
Definition connected_client : LCSTcpClient.Client :=
  LCSTcpClient.on_connect LCSTcpClient.new.

(** two requests, as [controlLampDimming] builds them, and a client that
    has sent both and has no reply yet *)
Definition request1 : Buffer.t := frame [0x13; 1; 1; 0; 0] 0x92 0x00 [1; 5; 0; 80].
Definition request2 : Buffer.t := frame [0x13; 1; 1; 0; 0] 0x92 0x00 [1; 6; 0; 80].
Definition request3 : Buffer.t := frame [0x13; 1; 1; 0; 0] 0x92 0x00 [1; 7; 0; 80].

Definition two_pending : LCSTcpClient.Client :=
  fst (LCSTcpClient.sendPacket
         (fst (LCSTcpClient.sendPacket connected_client request1)) request2).

(** the responses decoded from [ack_frame 0] and from [ack_frame 1] *)
Definition ack_ok : LCSTcpClient.Response :=
  {| LCSTcpClient.opCode := 0x1000;
     LCSTcpClient.sourceDevice := (Some 0x13, Some 1, Some 1);
     LCSTcpClient.rawData := [0];
     LCSTcpClient.body := LCSTcpClient.lamp_control_ack true |}.

Definition ack_failed : LCSTcpClient.Response :=
  {| LCSTcpClient.opCode := 0x1000;
     LCSTcpClient.sourceDevice := (Some 0x13, Some 1, Some 1);
     LCSTcpClient.rawData := [1];
     LCSTcpClient.body := LCSTcpClient.lamp_control_ack false |}.

(** ** The traces of the effects *)

(** the brightness that [fadeControl] computes at step [i] *)
Definition currentBrightness (startBrightness endBrightness : float) (i : Z) : Z :=
  LCSController.Math_round
    (startBrightness
     + (endBrightness - startBrightness) / LCSController.of_Z LCSController.steps
       * LCSController.of_Z i)%float.

(** what a fade does when every command is acknowledged: 21 commands, a
    sleep after each but the last *)
Definition fade_trace (masterAddr cuAddr lampNo : Z)
  (startBrightness endBrightness duration : float) : list LCSController.Action :=
  flat_map
    (fun i => [LCSController.ControlLamp masterAddr cuAddr lampNo
                 (currentBrightness startBrightness endBrightness i);
               LCSController.Sleep
                 (duration * 1000 / LCSController.of_Z LCSController.steps)%float])
    (seqZ 0 20)
  ++ [LCSController.ControlLamp masterAddr cuAddr lampNo
        (currentBrightness startBrightness endBrightness 20)].

(** The fades between two integers of [0, 100] on which the computed
    brightness is not [Spec.fade_value]: at step 15 of a fade from 0 to
    82, from 1 to 83 or from 2 to 84 the product [4.1 * 15] falls below
    61.5 and the brightness is one less. *)
Definition fade_shortfall (startBrightness endBrightness i : Z) : Z :=
  if (i =? 15) && (endBrightness - startBrightness =? 82) && (startBrightness <=? 2)
  then 1 else 0.

(** the comparison of the two, on all steps of a fade *)
Definition fade_agrees (startBrightness endBrightness : Z) : bool :=
  forallb
    (fun i =>
       currentBrightness (LCSController.of_Z startBrightness)
         (LCSController.of_Z endBrightness) i
       =? Spec.fade_value startBrightness endBrightness i
          - fade_shortfall startBrightness endBrightness i)
    (seqZ 0 21).

(** what a wave does when every command is acknowledged: a command and a
    sleep for each lamp *)
Definition wave_trace (masterAddr cuAddr : Z) (lampList : list Z) (brightness : Z)
  (interval : float) : list LCSController.Action :=
  flat_map
    (fun lampNo => [LCSController.ControlLamp masterAddr cuAddr lampNo brightness;
                    LCSController.Sleep interval])
    lampList.

(** a controller whose client has connected *)
Definition connected_controller : LCSController.Controller :=
  fst (LCSController.connect (LCSController.new "127.0.0.1" 1000) true).

(** a manager to which the agents "a" and "b" were added, in this order *)
Definition two_agents : LCSAgentManager.Manager :=
  match
    (ma <- LCSAgentManager.addAgent LCSAgentManager.new "a" "10.0.0.1" 1000 None true ;;
     LCSAgentManager.addAgent (fst ma) "b" "10.0.0.2" 1000 None true)
  with
  | JS.Ok mb => fst mb
  | JS.Throw _ => LCSAgentManager.new
  end.

(** ** Definitions for the properties of the runs

    Frames of responses, the events of a run, and what holds of the
    client, the controller and the registry at all times. *)

(** ** The frames of the builders *)

(** A response packet as the agent sends it: the layout that
    [parseResponsePacket] reads, the length little-endian. *)
Definition response_frame (destAddr srcAddr : list Z) (op1 op2 : Z) (data : Buffer.t)
  (bcc : Z) : Buffer.t :=
  [0x02] ++ Spec.le16 (18 + Buffer.length data)
    ++ destAddr ++ srcAddr ++ [op1; op2] ++ data ++ Spec.le16 bcc ++ [0x03].

(** ** The decoder on a stream *)

(** The events of a run: the chunks of the 'data' events are byte
    buffers, and a packet that is sent holds a byte, as every packet of
    the builder does (on a packet without a byte the log line that ends
    [sendPacket] throws, [packetToHex] finding no match). *)
Definition byte_events (evs : list LCSTcpClient.Event) : Prop :=
  Forall (fun ev => match ev with
                    | LCSTcpClient.Data chunk => Buffer.wf chunk
                    | LCSTcpClient.Send packet => packet <> []
                    | _ => True
                    end) evs.

(** every armed timer is that of a pending request *)
Definition timers_pending (c : LCSTcpClient.Client) : Prop :=
  forall id, id ∈ LCSTcpClient.timers c -> pending c id.

(** The request [id] has left its listener behind: the listener is
    registered and the entry of the request is gone. *)
Definition stale_listener (c : LCSTcpClient.Client) (id : nat) : Prop :=
  In id (LCSTcpClient.listeners c)
  /\ LCSTcpClient.responseCallbacks c !! id = None
  /\ (id <= LCSTcpClient.requestId c)%nat.

(** The events of a run: the chunks of the socket's 'data' events are
    byte buffers, and a packet that a builder returns holds a byte. *)
Definition byte_chunks (evs : list LCSController.Event) : Prop :=
  Forall (fun ev => match ev with
                    | LCSController.SocketData chunk => Buffer.wf chunk
                    | LCSController.Request (JS.Ok packet) => packet <> []
                    | _ => True
                    end) evs.

(** What holds of a controller at all times: its flag is that of its
    client, and the reconnect interval is not armed while it is
    connected. *)
Definition controller_inv (ctl : LCSController.Controller) : Prop :=
  LCSController.isConnected ctl = LCSTcpClient.isConnected (LCSController.client ctl)
  /\ (LCSController.isConnected ctl = true -> LCSController.reconnectInterval ctl = false)
  /\ Buffer.wf (LCSTcpClient.responseBuffer (LCSController.client ctl)).

(** What a request method of the controller [ctl] has done when it
    returns [r], [packet] being the frame of its builder: on a connected
    controller it has written the frame to the socket and [r] holds the
    promise of a new pending request; else it has done nothing and the
    promise is rejected as not connected. *)
Definition controller_request (ctl : LCSController.Controller)
  (r : LCSController.Controller * LCSTcpClient.Promise) (packet : Buffer.t) : Prop :=
  if LCSController.isConnected ctl then
    snd r = LCSTcpClient.Of (S (LCSTcpClient.requestId (LCSController.client ctl)))
    /\ LCSTcpClient.written (LCSController.client (fst r))
       = LCSTcpClient.written (LCSController.client ctl) ++ [packet]
    /\ pending (LCSController.client (fst r))
         (S (LCSTcpClient.requestId (LCSController.client ctl)))
  else
    r = (ctl, LCSTcpClient.RejectedNow (JS.Error LCSController.MSG_NOT_CONNECTED)).

(** ** The calls on a manager *)

Inductive ManagerOp : Type :=
| AddAgent (agentId host : string) (port : Z) (name : option string) (tcp_ok : bool)
| RemoveAgent (agentId : string)
| SetDefaultAgent (agentId : string)
| ReconnectAgent (agentId : string) (tcp_ok : bool)
| ControlLamp (agentId : option string) (masterAddr cuAddr lampNo brightness : Z)
| DisconnectAll.

(** the manager after a call; a call that throws leaves it as it is *)
Definition apply_op (m : LCSAgentManager.Manager) (op : ManagerOp)
  : LCSAgentManager.Manager :=
  match op with
  | AddAgent agentId host port name tcp_ok =>
      match LCSAgentManager.addAgent m agentId host port name tcp_ok with
      | JS.Ok r => fst r
      | JS.Throw _ => m
      end
  | RemoveAgent agentId => fst (LCSAgentManager.removeAgent m agentId)
  | SetDefaultAgent agentId => fst (LCSAgentManager.setDefaultAgent m agentId)
  | ReconnectAgent agentId tcp_ok =>
      match LCSAgentManager.reconnectAgent m agentId tcp_ok with
      | JS.Ok r => fst r
      | JS.Throw _ => m
      end
  | ControlLamp agentId masterAddr cuAddr lampNo brightness =>
      fst (LCSAgentManager.controlLamp m agentId masterAddr cuAddr lampNo brightness)
  | DisconnectAll => LCSAgentManager.disconnectAll m
  end.

(** the manager that a sequence of calls on a new manager leaves *)
Definition after_ops (ops : list ManagerOp) : LCSAgentManager.Manager :=
  fold_left apply_op ops LCSAgentManager.new.

(** What holds of a registry at all times: no identifier is registered
    twice, the default is null exactly when no agent is registered, and a
    default that is not null is registered. *)
Definition registry_inv (m : LCSAgentManager.Manager) : Prop :=
  NoDup (LCSAgentManager.Map.keys (LCSAgentManager.agents m))
  /\ (LCSAgentManager.defaultAgentId m = None <-> LCSAgentManager.agents m = [])
  /\ (forall k, LCSAgentManager.defaultAgentId m = Some k ->
        LCSAgentManager.Map.has (LCSAgentManager.agents m) k = true).

(** What a request method of the manager has done when it returns [r],
    [packet] being the frame of its builder.  Without an agent it has
    thrown "agent not found".  With an agent that is not connected it is
    rejected as not connected.  In both cases the manager is as it was.
    With a connected agent it has written the frame to the socket of that
    agent and [r] holds the promise of the agent's new pending request,
    the other agents, the order of the registry and the default being
    as they were. *)
Definition manager_request (m : LCSAgentManager.Manager) (agentId : option string)
  (r : LCSAgentManager.Manager * LCSTcpClient.Promise) (packet : Buffer.t) : Prop :=
  match LCSAgentManager.getAgent m agentId with
  | None => r = (m, LCSTcpClient.RejectedNow (JS.Error (LCSAgentManager.MSG_NOT_FOUND agentId)))
  | Some agent =>
      if LCSController.isConnected agent then
        exists agent',
          LCSAgentManager.getAgent (fst r) agentId = Some agent'
          /\ snd r = LCSTcpClient.Of
                        (S (LCSTcpClient.requestId (LCSController.client agent)))
          /\ LCSTcpClient.written (LCSController.client agent')
             = LCSTcpClient.written (LCSController.client agent) ++ [packet]
          /\ pending (LCSController.client agent')
               (S (LCSTcpClient.requestId (LCSController.client agent)))
          /\ (forall k, Some k <> LCSAgentManager.targetId m agentId ->
                LCSAgentManager.Map.get (LCSAgentManager.agents (fst r)) k
                = LCSAgentManager.Map.get (LCSAgentManager.agents m) k)
          /\ LCSAgentManager.Map.keys (LCSAgentManager.agents (fst r))
             = LCSAgentManager.Map.keys (LCSAgentManager.agents m)
          /\ LCSAgentManager.defaultAgentId (fst r) = LCSAgentManager.defaultAgentId m
      else
        r = (m, LCSTcpClient.RejectedNow (JS.Error LCSController.MSG_NOT_CONNECTED))
  end.

(** what a fade has done when its command number [k] fails: the commands
    0 to [k], with a sleep after each but the last *)
Definition fade_trace_until (masterAddr cuAddr lampNo : Z)
  (startBrightness endBrightness duration : float) (k : nat) : list LCSController.Action :=
  flat_map
    (fun i => [LCSController.ControlLamp masterAddr cuAddr lampNo
                 (currentBrightness startBrightness endBrightness i);
               LCSController.Sleep
                 (duration * 1000 / LCSController.of_Z LCSController.steps)%float])
    (seqZ 0 (Z.of_nat k))
  ++ [LCSController.ControlLamp masterAddr cuAddr lampNo
        (currentBrightness startBrightness endBrightness (Z.of_nat k))].

(** the two characters that [packetToHex] prints for a byte *)
Definition byte_hex (x : Z) : string :=
  String (JS.toUpperCase_char (Buffer.hex_digit (x / 16)))
    (String (JS.toUpperCase_char (Buffer.hex_digit (x mod 16))) EmptyString).

(** reading a line of [packetToHex] back *)
Definition unhex (a : Ascii.ascii) : Z :=
  let n := Z.of_nat (Ascii.nat_of_ascii a) in
  if n <? 58 then n - 48 else n - 55.

Fixpoint unhex_line (s : string) : list Z :=
  match s with
  | String a (String b rest) =>
      (16 * unhex a + unhex b)
        :: match rest with
           | String _ rest' => unhex_line rest'
           | EmptyString => []
           end
  | _ => []
  end.

(** the five address bytes that [buildPacket] takes from [destAddr]: its
    first five entries, with zeros for those that are missing *)
Definition address5 (destAddr : list Z) : list Z :=
  take 5 (destAddr ++ repeat 0 5).

(** * Properties *)

(** case analysis on the first comparison of the goal, closing the branch
    that contradicts the hypotheses *)
Ltac case_ltb :=
  match goal with
  | |- context [?a <? ?b] => destruct (Z.ltb_spec a b); try lia
  | |- context [?a <=? ?b] => destruct (Z.leb_spec a b); try lia
  | |- context [?a =? ?b] => destruct (Z.eqb_spec a b); try lia
  end.

(** ** The 32-bit operators *)

Lemma ToInt32_range z : - 2 ^ 31 <= JS.ToInt32 z < 2 ^ 31.
Proof. unfold JS.ToInt32. pose proof (Z.mod_pos_bound (z + 2 ^ 31) (2 ^ 32)). lia. Qed.

Lemma ToInt32_small z : - 2 ^ 31 <= z < 2 ^ 31 -> JS.ToInt32 z = z.
Proof. intros H. unfold JS.ToInt32. rewrite Z.mod_small; lia. Qed.

Lemma ToInt32_eqm z : exists k, JS.ToInt32 z = z + k * 2 ^ 32.
Proof.
  unfold JS.ToInt32. exists (- ((z + 2 ^ 31) / 2 ^ 32)).
  pose proof (Z.div_mod (z + 2 ^ 31) (2 ^ 32)). lia.
Qed.

Lemma and_ffff x : JS.and x 0xffff = JS.ToInt32 x mod 2 ^ 16.
Proof.
  unfold JS.and. rewrite (ToInt32_small 0xffff) by lia.
  change 0xffff with (Z.ones 16). apply Z.land_ones. lia.
Qed.

Lemma and_ffff_range x : 0 <= JS.and x 0xffff <= 0xFFFF.
Proof. rewrite and_ffff. pose proof (Z.mod_pos_bound (JS.ToInt32 x) (2 ^ 16)). lia. Qed.

Lemma land_shifted_byte hi lo : 0 <= lo < 256 -> Z.land (hi * 2 ^ 8) lo = 0.
Proof.
  intros Hlo. apply Z.bits_inj'. intros n Hn.
  rewrite Z.land_spec, Z.bits_0.
  destruct (Z.ltb_spec n 8).
  - rewrite Z.mul_pow2_bits_low by lia. reflexivity.
  - replace lo with (lo mod 2 ^ 8) by (apply Z.mod_small; lia).
    rewrite Z.mod_pow2_bits_high by lia. apply andb_false_r.
Qed.

(** [(hi << 8) | lo] on two bytes *)
Lemma word_of_bytes hi lo :
  0 <= hi < 256 -> 0 <= lo < 256 ->
  JS.or (JS.shl (JS.ToInt32 hi) 8) (JS.ToInt32 lo) = 256 * hi + lo.
Proof.
  intros Hhi Hlo. unfold JS.or, JS.shl.
  rewrite !(ToInt32_small hi), !(ToInt32_small lo) by lia.
  rewrite Z.shiftl_mul_pow2 by lia.
  rewrite !(ToInt32_small (hi * 2 ^ 8)) by lia.
  pose proof (Z.add_lor_land (hi * 2 ^ 8) lo) as H.
  rewrite land_shifted_byte in H by lia. lia.
Qed.

Lemma toUint8_range v : 0 <= JS.toUint8 v < 256.
Proof.
  unfold JS.toUint8. change 255 with (Z.ones 8). rewrite Z.land_ones by lia.
  apply Z.mod_pos_bound. lia.
Qed.

Lemma toUint8_byte v : 0 <= v < 256 -> JS.toUint8 v = v.
Proof.
  intros H. unfold JS.toUint8. change 255 with (Z.ones 8).
  rewrite Z.land_ones by lia. apply Z.mod_small. lia.
Qed.

Lemma toUint8_mod v : JS.toUint8 v = v mod 256.
Proof. unfold JS.toUint8. change 255 with (Z.ones 8). apply Z.land_ones. lia. Qed.

(** ** [calculateBCC] *)

Section CalculateBCC.

Import LCSPacketBuilder.

Lemma get_app_r (pre rest : list Z) :
  Buffer.get (pre ++ rest) (Z.of_nat (List.length pre)) = rest !! 0%nat.
Proof.
  unfold Buffer.get.
  destruct (Z.ltb_spec (Z.of_nat (List.length pre)) 0); [lia|].
  rewrite Nat2Z.id, (lookup_app_r pre rest) by lia.
  f_equal. lia.
Qed.

Lemma get_app_r1 (pre : list Z) x rest :
  Buffer.get (pre ++ x :: rest) (Z.of_nat (List.length pre) + 1) = rest !! 0%nat.
Proof.
  replace (pre ++ x :: rest) with ((pre ++ [x]) ++ rest)
    by (rewrite <- app_assoc; reflexivity).
  replace (Z.of_nat (List.length pre) + 1)
    with (Z.of_nat (List.length (pre ++ [x])))
    by (rewrite length_app; simpl; lia).
  apply get_app_r.
Qed.

Lemma calculateBCC_loop_done fuel data end_ i sum :
  end_ <= i -> calculateBCC_loop fuel data end_ i sum = sum.
Proof.
  intros H. destruct fuel; simpl; [reflexivity|].
  destruct (Z.ltb_spec i end_); [lia | reflexivity].
Qed.

(** The loop leaves by its own test once [fuel] covers the range, and
    it has then added the words of the range and nothing else. *)
Lemma calculateBCC_loop_app fuel : forall pre body post sum,
  (List.length body <= fuel)%nat ->
  calculateBCC_loop fuel (pre ++ body ++ post)
    (Z.of_nat (List.length pre) + Z.of_nat (List.length body))
    (Z.of_nat (List.length pre)) sum
  = sum + fold_right Z.add 0 (loop_words body).
Proof.
  induction fuel as [|fuel IH]; intros pre body post sum Hfuel.
  - destruct body; [simpl; lia | simpl in Hfuel; lia].
  - destruct body as [|hi [|lo rest]].
    + cbn [calculateBCC_loop List.length]. case_ltb. simpl. lia.
    + cbn [calculateBCC_loop List.length]. repeat case_ltb.
      rewrite get_app_r. simpl.
      rewrite calculateBCC_loop_done by lia. lia.
    + cbn [calculateBCC_loop]. cbn [List.length] in *. repeat case_ltb.
      change ((hi :: lo :: rest) ++ post) with (hi :: lo :: rest ++ post).
      rewrite get_app_r, get_app_r1.
      replace (pre ++ hi :: lo :: rest ++ post)
        with ((pre ++ [hi; lo]) ++ rest ++ post)
        by (rewrite <- !app_assoc; reflexivity).
      replace (Z.of_nat (List.length pre)
               + Z.of_nat (S (S (List.length rest))))
        with (Z.of_nat (List.length (pre ++ [hi; lo])) + Z.of_nat (List.length rest))
        by (rewrite length_app; simpl; lia).
      replace (Z.of_nat (List.length pre) + 2)
        with (Z.of_nat (List.length (pre ++ [hi; lo])))
        by (rewrite length_app; simpl; lia).
      rewrite IH by lia.
      simpl. lia.
Qed.

Lemma loop_words_be body :
  Buffer.wf body -> loop_words body = Spec.words_be body.
Proof.
  revert body. fix IH 1. intros [|hi [|lo rest]] Hwf.
  - reflexivity.
  - simpl. apply Forall_cons_1 in Hwf as [Hhi _].
    rewrite word_of_bytes by lia. f_equal. lia.
  - apply Forall_cons_1 in Hwf as [Hhi Hwf].
    apply Forall_cons_1 in Hwf as [Hlo Hwf].
    simpl. rewrite word_of_bytes by lia. f_equal. apply IH. exact Hwf.
Qed.

(** the two ways of folding and complementing agree *)
Lemma fold_complement s :
  JS.and (JS.not (JS.and s 0xffff + JS.sar s 16)) 0xffff
  = (2 ^ 16 - 1 - ((s mod 2 ^ 32) mod 2 ^ 16 + (s mod 2 ^ 32) / 2 ^ 16)) mod 2 ^ 16.
Proof.
  rewrite and_ffff. unfold JS.not, JS.sar.
  rewrite Z.shiftr_div_pow2 by lia.
  rewrite and_ffff.
  pose proof (ToInt32_range s) as Hr.
  set (t := JS.ToInt32 s) in *.
  assert (Hf : - 2 ^ 31 <= t mod 2 ^ 16 + t / 2 ^ 16 < 2 ^ 31).
  { pose proof (Z.mod_pos_bound t (2 ^ 16)).
    assert (- 2 ^ 15 <= t / 2 ^ 16 < 2 ^ 15).
    { split; [apply Z.div_le_lower_bound | apply Z.div_lt_upper_bound]; lia. }
    lia. }
  rewrite (ToInt32_small _ Hf).
  rewrite Z.lnot_eq_pred_opp.
  destruct (ToInt32_eqm s) as [k Hk]. fold t in Hk.
  assert (Hu : s mod 2 ^ 32 = t mod 2 ^ 32).
  { rewrite Hk. rewrite Z.mod_add by lia. reflexivity. }
  rewrite Hu.
  set (u := t mod 2 ^ 32).
  assert (Hut : exists j, u = t + j * 2 ^ 32 /\ 0 <= j <= 1).
  { exists (- (t / 2 ^ 32)). unfold u.
    pose proof (Z.div_mod t (2 ^ 32)).
    assert (-1 <= t / 2 ^ 32 < 1).
    { split; [apply Z.div_le_lower_bound | apply Z.div_lt_upper_bound]; lia. }
    lia. }
  destruct Hut as [j [Hj Hj01]].
  assert (Hum : u mod 2 ^ 16 = t mod 2 ^ 16).
  { rewrite Hj. replace (j * 2 ^ 32) with ((j * 2 ^ 16) * 2 ^ 16) by lia.
    apply Z.mod_add. lia. }
  assert (Hud : u / 2 ^ 16 = t / 2 ^ 16 + j * 2 ^ 16).
  { rewrite Hj. replace (j * 2 ^ 32) with ((j * 2 ^ 16) * 2 ^ 16) by lia.
    apply Z.div_add. lia. }
  rewrite Hum, Hud.
  replace (2 ^ 16 - 1 - (t mod 2 ^ 16 + (t / 2 ^ 16 + j * 2 ^ 16)))
    with (- (t mod 2 ^ 16 + t / 2 ^ 16) - 1 + (1 - j) * 2 ^ 16) by lia.
  rewrite Z.mod_add by lia.
  rewrite ToInt32_small by lia. reflexivity.
Qed.

(** [calculateBCC] reads the bytes of its range and no other. *)
Lemma calculateBCC_app_words pre body post :
  calculateBCC (pre ++ body ++ post)
    (Z.of_nat (List.length pre))
    (Z.of_nat (List.length pre) + Z.of_nat (List.length body))
  = let sum := fold_right Z.add 0 (loop_words body) in
    JS.and (JS.not (JS.and sum 0xffff + JS.sar sum 16)) 0xffff.
Proof.
  unfold calculateBCC.
  rewrite calculateBCC_loop_app by lia.
  rewrite Z.add_0_l. reflexivity.
Qed.

(** [calculateBCC] over a range is the BCC of the specification on the
    bytes of that range. *)
Lemma calculateBCC_app pre body post :
  Buffer.wf body ->
  calculateBCC (pre ++ body ++ post)
    (Z.of_nat (List.length pre))
    (Z.of_nat (List.length pre) + Z.of_nat (List.length body))
  = Spec.bcc body.
Proof.
  intros Hwf. unfold calculateBCC, Spec.bcc, Spec.sum_words.
  rewrite calculateBCC_loop_app by lia.
  rewrite loop_words_be by exact Hwf.
  rewrite Z.add_0_l. apply fold_complement.
Qed.

End CalculateBCC.

(** ** [buildPacket] *)

Section BuildPacket.

Import LCSPacketBuilder.

(** The stores of [buildPacket], each on a buffer cut at the place it
    writes to. *)
Lemma set_mid (pre : list Z) x post off v :
  off = Z.of_nat (List.length pre) ->
  Buffer.set (pre ++ [x] ++ post) off v = (pre ++ [JS.toUint8 v]) ++ post.
Proof.
  intros ->. unfold Buffer.set. case_ltb.
  rewrite Nat2Z.id.
  rewrite (insert_app_r_alt pre ([x] ++ post)) by lia.
  rewrite Nat.sub_diag, <- app_assoc. reflexivity.
Qed.

Lemma copy_mid (pre mid post src : list Z) off :
  off = Z.of_nat (List.length pre) ->
  List.length src = List.length mid ->
  Buffer.copy src (pre ++ mid ++ post) off = (pre ++ src) ++ post.
Proof.
  intros -> Hlen. unfold Buffer.copy. rewrite Nat2Z.id.
  rewrite (take_app_length pre).
  rewrite (take_ge src) by (rewrite !length_app; lia).
  rewrite (drop_app_add pre), (drop_app_length' mid post) by lia.
  rewrite <- app_assoc. reflexivity.
Qed.

Lemma writeUInt16BE_mid (pre : list Z) a b post v off :
  off = Z.of_nat (List.length pre) ->
  0 <= v <= 65535 ->
  Buffer.writeUInt16BE (pre ++ [a; b] ++ post) v off
  = JS.Ok ((pre ++ [Z.shiftr v 8; Z.land v 255]) ++ post).
Proof.
  intros -> Hv. unfold Buffer.writeUInt16BE, Buffer.length.
  rewrite length_app. cbn [List.length app].
  repeat case_ltb. cbn [orb].
  rewrite Nat2Z.id.
  rewrite (insert_app_r_alt pre (a :: b :: post)) by lia.
  rewrite (insert_app_r_alt pre) by lia.
  replace (List.length pre - List.length pre)%nat with 0%nat by lia.
  replace (List.length pre + 1 - List.length pre)%nat with 1%nat by lia.
  rewrite <- app_assoc. reflexivity.
Qed.

Lemma writeUInt16LE_mid (pre : list Z) a b post v off :
  off = Z.of_nat (List.length pre) ->
  0 <= v <= 65535 ->
  Buffer.writeUInt16LE (pre ++ [a; b] ++ post) v off
  = JS.Ok ((pre ++ [Z.land v 255; Z.shiftr v 8]) ++ post).
Proof.
  intros -> Hv. unfold Buffer.writeUInt16LE, Buffer.length.
  rewrite length_app. cbn [List.length app].
  repeat case_ltb. cbn [orb].
  rewrite Nat2Z.id.
  rewrite (insert_app_r_alt pre (a :: b :: post)) by lia.
  rewrite (insert_app_r_alt pre) by lia.
  replace (List.length pre - List.length pre)%nat with 0%nat by lia.
  replace (List.length pre + 1 - List.length pre)%nat with 1%nat by lia.
  rewrite <- app_assoc. reflexivity.
Qed.

(** the [if (data.length > 0)] of [buildPacket]: copying no byte changes
    nothing *)
Lemma copy_data_branch (data packet : Buffer.t) offset :
  (if 0 <? Buffer.length data
   then (Buffer.copy data packet offset, offset + Buffer.length data)
   else (packet, offset))
  = (Buffer.copy data packet offset, offset + Buffer.length data).
Proof.
  destruct data as [|x data].
  - change (Buffer.length []) with 0. change (0 <? 0) with false. cbv iota.
    unfold Buffer.copy. cbn [List.length].
    rewrite take_nil, Nat.add_0_r. cbn [app].
    rewrite take_drop, Z.add_0_r. reflexivity.
  - unfold Buffer.length. cbn [List.length]. case_ltb. reflexivity.
Qed.

Lemma alloc_cut n :
  Buffer.alloc (18 + Z.of_nat n)
  = [] ++ [0] ++ [0; 0] ++ repeat 0 5 ++ repeat 0 5 ++ [0] ++ [0]
       ++ repeat 0 n ++ [0; 0] ++ [0] ++ [].
Proof.
  unfold Buffer.alloc.
  replace (Z.to_nat (18 + Z.of_nat n))
    with (1 + (2 + (5 + (5 + (1 + (1 + (n + (2 + 1))))))))%nat by lia.
  rewrite !repeat_app. reflexivity.
Qed.

Lemma from_wf a : Buffer.wf (Buffer.from a).
Proof.
  unfold Buffer.wf, Buffer.from. apply Forall_map, Forall_forall.
  intros x _. apply toUint8_range.
Qed.

Lemma frame_body_wf destAddr op1 op2 data :
  Buffer.wf data -> Buffer.wf (frame_body destAddr op1 op2 data).
Proof.
  intros Hwf. unfold frame_body, Buffer.wf.
  apply Forall_app; split; [apply from_wf|].
  apply Forall_app; split; [unfold HOST_ADDRESS; repeat constructor; lia|].
  apply Forall_app; split; [|exact Hwf].
  repeat constructor; apply toUint8_range.
Qed.

Lemma frame_body_length destAddr op1 op2 data :
  List.length destAddr = 5%nat ->
  List.length (frame_body destAddr op1 op2 data) = (12 + List.length data)%nat.
Proof.
  intros H. unfold frame_body, Buffer.from.
  rewrite !length_app, length_map, H. reflexivity.
Qed.

Lemma bcc_range bytes : 0 <= Spec.bcc bytes <= 65535.
Proof.
  unfold Spec.bcc.
  match goal with |- 0 <= ?x mod _ <= _ => pose proof (Z.mod_pos_bound x (2 ^ 16)) end.
  lia.
Qed.

Ltac solve_offset Hlen :=
  unfold Buffer.from, Buffer.length, HOST_ADDRESS;
  rewrite ?length_app, ?length_map, ?Hlen, ?repeat_length; cbn [List.length]; lia.

Lemma buildPacket_frame destAddr op1 op2 data :
  List.length destAddr = 5%nat ->
  Buffer.wf data ->
  18 + Buffer.length data <= 65535 ->
  buildPacket destAddr op1 op2 data = JS.Ok (frame destAddr op1 op2 data).
Proof.
  intros Hlen Hwf Hmax.
  pose proof (frame_body_wf destAddr op1 op2 data Hwf) as Hbwf.
  pose proof (frame_body_length destAddr op1 op2 data Hlen) as Hblen.
  assert (Hmax' : 0 <= 18 + Z.of_nat (List.length data) <= 65535)
    by (unfold Buffer.length in Hmax; lia).
  unfold buildPacket.
  unfold Buffer.length at 1. rewrite alloc_cut.
  rewrite set_mid by reflexivity.
  rewrite writeUInt16BE_mid by (solve_offset Hlen).
  cbn [JS.bind].
  rewrite (copy_mid _ (repeat 0 5)) by (solve_offset Hlen).
  rewrite (copy_mid _ (repeat 0 5)) by (solve_offset Hlen).
  rewrite set_mid by (solve_offset Hlen).
  rewrite set_mid by (solve_offset Hlen).
  rewrite copy_data_branch.
  rewrite (copy_mid _ (repeat 0 (List.length data))) by (solve_offset Hlen).
  rewrite app_nil_l, <- !app_assoc.
  set (pre := [JS.toUint8 STX; Z.shiftr (18 + Buffer.length data) 8;
               Z.land (18 + Buffer.length data) 255]).
  set (body := frame_body destAddr op1 op2 data) in *.
  match goal with
  | |- context [Buffer.writeUInt16LE ?p _ _] =>
      replace p with (pre ++ body ++ [0; 0] ++ [0] ++ [])
        by (unfold pre, body, frame_body; rewrite <- !app_assoc; reflexivity)
  end.
  replace 3 with (Z.of_nat (List.length pre)) by reflexivity.
  replace (18 + Buffer.length data - Z.of_nat (List.length pre))
    with (Z.of_nat (List.length pre) + Z.of_nat (List.length body))
    by (rewrite Hblen; unfold Buffer.length; cbn [List.length pre]; lia).
  rewrite calculateBCC_app by exact Hbwf.
  pose proof (bcc_range body) as Hbcc.
  rewrite (app_assoc pre body).
  rewrite writeUInt16LE_mid
    by (first [ rewrite length_app, Hblen; unfold Buffer.length;
                cbn [List.length pre]; lia | lia ]).
  cbn [JS.bind].
  rewrite set_mid
    by (rewrite !length_app, Hblen; unfold Buffer.length; cbn [List.length pre]; lia).
  rewrite app_nil_r.
  f_equal. unfold frame, Spec.be16, Spec.le16, pre. fold body.
  rewrite !Z.shiftr_div_pow2 by lia.
  change 255 with (Z.ones 8). rewrite !Z.land_ones by lia.
  change (2 ^ 8) with 256.
  rewrite <- !app_assoc. reflexivity.
Qed.

Lemma frame_length destAddr op1 op2 data :
  List.length destAddr = 5%nat ->
  Buffer.length (frame destAddr op1 op2 data) = 18 + Buffer.length data.
Proof.
  intros H. unfold frame, Buffer.length.
  rewrite !length_app, frame_body_length by exact H.
  cbn [List.length Spec.be16 Spec.le16]. lia.
Qed.

(** cutting a buffer at two indices *)
Lemma slice_cut (data : Buffer.t) start end_ :
  0 <= start <= end_ -> end_ <= Buffer.length data ->
  data = take (Z.to_nat start) data ++ Buffer.slice data start end_
           ++ drop (Z.to_nat end_) data
  /\ Z.of_nat (List.length (take (Z.to_nat start) data)) = start
  /\ Z.of_nat (List.length (Buffer.slice data start end_)) = end_ - start.
Proof.
  intros Hse He. unfold Buffer.length in He.
  unfold Buffer.slice, Buffer.clamp, Buffer.length.
  repeat case_ltb.
  rewrite !Z.min_l by lia.
  rewrite !length_take, length_drop.
  split; [|split; lia].
  rewrite app_assoc, take_take_drop.
  replace (Z.to_nat start + Z.to_nat (end_ - start))%nat with (Z.to_nat end_) by lia.
  symmetry. apply take_drop.
Qed.

Lemma slice_mid (pre mid post : list Z) start end_ :
  start = Z.of_nat (List.length pre) ->
  end_ = start + Z.of_nat (List.length mid) ->
  Buffer.slice (pre ++ mid ++ post) start end_ = mid.
Proof.
  intros -> ->. unfold Buffer.slice, Buffer.clamp, Buffer.length.
  repeat case_ltb. rewrite !length_app, !Z.min_l by lia.
  rewrite Nat2Z.id, (drop_app_length pre).
  apply take_app_length'. lia.
Qed.

Lemma fill_lamps_mid lampList : forall (pre post : list Z) i,
  2 + i = Z.of_nat (List.length pre) ->
  fill_lamps (pre ++ repeat 0 (List.length lampList) ++ post) i lampList
  = pre ++ map JS.toUint8 lampList ++ post.
Proof.
  induction lampList as [|lamp rest IH]; intros pre post i Hi.
  - reflexivity.
  - cbn [fill_lamps List.length repeat map].
    change (0 :: repeat 0 (List.length rest)) with ([0] ++ repeat 0 (List.length rest)).
    rewrite <- (app_assoc [0]).
    rewrite set_mid by exact Hi.
    rewrite IH by (rewrite length_app; cbn [List.length]; lia).
    rewrite <- app_assoc. reflexivity.
Qed.

Lemma block_data_built cuAddr lampList value :
  let n := Z.of_nat (List.length lampList) in
  Buffer.set
    (fill_lamps (Buffer.set (Buffer.set (Buffer.alloc (2 + n + 1)) 0 cuAddr) 1 n)
       0 lampList)
    (2 + n) value
  = block_data cuAddr lampList value.
Proof.
  intros n. unfold Buffer.alloc.
  replace (Z.to_nat (2 + n + 1)) with (1 + (1 + (List.length lampList + 1)))%nat
    by (unfold n; lia).
  rewrite !repeat_app.
  change (repeat 0 1) with ([0] ++ []) at 3.
  change (repeat 0 1) with [0].
  rewrite <- (app_nil_l ([0] ++ _)).
  rewrite set_mid by reflexivity.
  rewrite set_mid by reflexivity.
  rewrite fill_lamps_mid by reflexivity.
  rewrite app_assoc.
  rewrite set_mid
    by (rewrite !length_app, length_map; cbn [List.length]; unfold n; lia).
  unfold block_data. rewrite app_nil_r, <- !app_assoc. reflexivity.
Qed.

Lemma block_data_wf cuAddr lampList value :
  Buffer.wf (block_data cuAddr lampList value).
Proof.
  unfold block_data, Buffer.wf.
  apply Forall_app; split; [repeat constructor; apply toUint8_range|].
  apply Forall_app; split; [apply (from_wf lampList)|].
  repeat constructor; apply toUint8_range.
Qed.

Lemma block_data_length cuAddr lampList value :
  Buffer.length (block_data cuAddr lampList value)
  = Z.of_nat (List.length lampList) + 3.
Proof.
  unfold block_data, Buffer.length.
  rewrite !length_app, length_map. cbn [List.length]. lia.
Qed.

End BuildPacket.

(** ** The claims on the packet builder *)

Section BuilderClaims.

Import LCSPacketBuilder.

Lemma calculateBCC_slice (data : Buffer.t) start end_ :
  0 <= start <= end_ ->
  end_ <= Buffer.length data ->
  calculateBCC data start end_
  = let sum := fold_right Z.add 0 (loop_words (Buffer.slice data start end_)) in
    JS.and (JS.not (JS.and sum 0xffff + JS.sar sum 16)) 0xffff.
Proof.
  intros Hse He.
  destruct (slice_cut data start end_ Hse He) as (Hd & Hpre & Hmid).
  set (pre := take (Z.to_nat start) data) in *.
  set (mid := Buffer.slice data start end_) in *.
  transitivity
    (calculateBCC (pre ++ mid ++ drop (Z.to_nat end_) data)
       (Z.of_nat (List.length pre))
       (Z.of_nat (List.length pre) + Z.of_nat (List.length mid))).
  - rewrite <- Hd. f_equal; lia.
  - apply calculateBCC_app_words.
Qed.

(** A folded sum can itself need 17 bits; the mask still brings the
    result into the two bytes of the field. *)
Example calculateBCC_folded_17_bits :
  let data := [0xff; 0xff; 0xff; 0xff; 0x00; 0x01] in
  let sum := calculateBCC_loop 6 data 6 0 0 in
  JS.and sum 0xffff + JS.sar sum 16 = 0x10000
  /\ calculateBCC data 0 6 = 0xFFFF.
Proof. split; reflexivity. Qed.

(** C10.  For every buffer and every pair of indices
    [start <= end_] within it, [calculateBCC] returns an integer of
    [0, 0xFFFF]; and its result is a function of the bytes of the range
    [start, end_) alone: on any other buffer with the same bytes there,
    it returns the same value. *)
Theorem calculateBCC_fits_16_bits (data : Buffer.t) (start end_ : Z) :
  0 <= start <= end_ ->
  end_ <= Buffer.length data ->
  0 <= calculateBCC data start end_ <= 0xFFFF
  /\ forall data' : Buffer.t,
       end_ <= Buffer.length data' ->
       Buffer.slice data' start end_ = Buffer.slice data start end_ ->
       calculateBCC data' start end_ = calculateBCC data start end_.
Proof.
  intros Hse He. split.
  - unfold calculateBCC. apply and_ffff_range.
  - intros data' He' Heq.
    rewrite !calculateBCC_slice, Heq by assumption. reflexivity.
Qed.

Lemma calculateBCC_fits_16_bits_witness :
  (0 <= 3 <= 19 /\ 19 <= Buffer.length (frame [0x13; 1; 1; 0; 0] 0x92 0 [1; 5; 0; 80]))
  /\ 0 <= calculateBCC (frame [0x13; 1; 1; 0; 0] 0x92 0 [1; 5; 0; 80]) 3 19 <= 0xFFFF.
Proof.
  split.
  - vm_compute. repeat split; discriminate.
  - apply (calculateBCC_fits_16_bits
             (frame [0x13; 1; 1; 0; 0] 0x92 0 [1; 5; 0; 80]) 3 19).
    + lia.
    + vm_compute. discriminate.
Defined.

Lemma frame_slices destAddr op1 op2 data :
  List.length destAddr = 5%nat ->
  Buffer.slice (frame destAddr op1 op2 data) 3 (15 + Buffer.length data)
  = frame_body destAddr op1 op2 data
  /\ Buffer.slice (frame destAddr op1 op2 data)
       (15 + Buffer.length data) (17 + Buffer.length data)
     = Spec.le16 (Spec.bcc (frame_body destAddr op1 op2 data)).
Proof.
  intros Hlen.
  pose proof (frame_body_length destAddr op1 op2 data Hlen) as Hblen.
  unfold frame. split.
  - rewrite (app_assoc [STX]).
    apply slice_mid; [reflexivity|].
    rewrite Hblen. unfold Buffer.length. lia.
  - rewrite (app_assoc [STX]), (app_assoc _ (frame_body _ _ _ _)).
    apply slice_mid.
    + rewrite !length_app, Hblen. unfold Buffer.length.
      cbn [List.length Spec.be16]. lia.
    + cbn [List.length Spec.le16]. lia.
Qed.

(** C2, amended.  [buildPacket] computes the BCC over exactly the bytes
    [3, 15 + len(data)) of the packet, as the one's complement of the
    folded sum of their big-endian 16-bit words, and stores it
    little-endian after the data; the frame built by
    [controlLampDimming(1, 1, 5, 80)] has 22 bytes and its BCC is
    0x5896, the bytes [96 58] at offsets 19 and 20. *)
Theorem buildPacket_bcc_field (destAddr : list Z) (op1 op2 : Z) (data : Buffer.t) :
  List.length destAddr = 5%nat ->
  Buffer.wf data ->
  18 + Buffer.length data <= 65535 ->
  (exists packet,
      buildPacket destAddr op1 op2 data = JS.Ok packet
      /\ Buffer.length packet = 18 + Buffer.length data
      /\ calculateBCC packet 3 (15 + Buffer.length data)
         = Spec.bcc (Buffer.slice packet 3 (15 + Buffer.length data))
      /\ Buffer.slice packet (15 + Buffer.length data) (17 + Buffer.length data)
         = Spec.le16 (Spec.bcc (Buffer.slice packet 3 (15 + Buffer.length data))))
  /\ controlLampDimming 1 1 5 80
     = JS.Ok [0x02; 0x00; 0x16; 0x13; 0x01; 0x01; 0x00; 0x00;
              0x13; 0x00; 0x00; 0x00; 0x00; 0x92; 0x00;
              0x01; 0x05; 0x00; 0x50; 0x96; 0x58; 0x03]
  /\ Spec.bcc [0x13; 0x01; 0x01; 0x00; 0x00; 0x13; 0x00; 0x00; 0x00; 0x00;
               0x92; 0x00; 0x01; 0x05; 0x00; 0x50] = 0x5896.
Proof.
  intros Hlen Hwf Hmax. split; [|split; reflexivity].
  exists (frame destAddr op1 op2 data).
  destruct (frame_slices destAddr op1 op2 data Hlen) as [Hbody Hbcc].
  pose proof (frame_body_length destAddr op1 op2 data Hlen) as Hblen.
  split; [apply buildPacket_frame; assumption|].
  split; [apply frame_length; exact Hlen|].
  rewrite Hbody. split; [|exact Hbcc].
  unfold frame. rewrite (app_assoc [STX]).
  replace 3 with (Z.of_nat (List.length ([STX] ++ Spec.be16 (18 + Buffer.length data))))
    by reflexivity.
  replace (15 + Buffer.length data)
    with (Z.of_nat (List.length ([STX] ++ Spec.be16 (18 + Buffer.length data)))
          + Z.of_nat (List.length (frame_body destAddr op1 op2 data)))
    by (rewrite Hblen; unfold Buffer.length; cbn [List.length app Spec.be16]; lia).
  apply calculateBCC_app, frame_body_wf, Hwf.
Qed.

Lemma buildPacket_bcc_field_witness :
  (List.length [0x13; 1; 1; 0; 0] = 5%nat
   /\ Buffer.wf [1; 5; 0; 80]
   /\ 18 + Buffer.length [1; 5; 0; 80] <= 65535)
  /\ exists packet,
      buildPacket [0x13; 1; 1; 0; 0] 0x92 0x00 [1; 5; 0; 80] = JS.Ok packet
      /\ Buffer.length packet = 18 + Buffer.length [1; 5; 0; 80]
      /\ calculateBCC packet 3 (15 + Buffer.length [1; 5; 0; 80])
         = Spec.bcc (Buffer.slice packet 3 (15 + Buffer.length [1; 5; 0; 80]))
      /\ Buffer.slice packet (15 + Buffer.length [1; 5; 0; 80])
           (17 + Buffer.length [1; 5; 0; 80])
         = Spec.le16 (Spec.bcc (Buffer.slice packet 3 (15 + Buffer.length [1; 5; 0; 80]))).
Proof.
  assert (Hwf : Buffer.wf [1; 5; 0; 80]) by (repeat constructor; lia).
  assert (Hmax : 18 + Buffer.length [1; 5; 0; 80] <= 65535) by (vm_compute; discriminate).
  split; [split; [reflexivity | split; assumption]|].
  exact (proj1 (buildPacket_bcc_field [0x13; 1; 1; 0; 0] 0x92 0x00 [1; 5; 0; 80]
                  eq_refl Hwf Hmax)).
Defined.

(** C2 as it is written fails: the BCC bytes of that frame are not
    [96 5C]. *)
Lemma dimming_frame_bcc_is_not_5C96 :
  (p <- controlLampDimming 1 1 5 80 ;; JS.Ok (Buffer.slice p 19 21))
  <> JS.Ok [0x96; 0x5C].
Proof. vm_compute. discriminate. Qed.

Lemma controlLampDimming_frame masterAddr cuAddr lampNo brightness :
  controlLampDimming masterAddr cuAddr lampNo brightness
  = JS.Ok (frame [0x13; masterAddr; cuAddr; 0; 0] 0x92 0x00
             [JS.toUint8 cuAddr; JS.toUint8 lampNo; 0; JS.toUint8 brightness]).
Proof.
  apply buildPacket_frame;
    [reflexivity | apply (from_wf [cuAddr; lampNo; 0; brightness])
    | vm_compute; discriminate].
Qed.

(** C4, amended.  No builder checks its arguments: for any integers
    each builder returns the encoded frame, an address or data byte
    being the argument modulo 256; the frame of [getLampBrightness] has
    the device type of the table, or 0 for an unknown name.  The one
    failure is that of [writeUInt16BE], for a lamp list that makes the
    frame longer than 65535 bytes. *)
Theorem builders_encode_any_arguments
  (masterAddr cuAddr lampNo brightness colorTemp sceneNo fadeTime : Z)
  (lampList : list Z) (deviceType : string) :
  Z.of_nat (List.length lampList) + 21 <= 65535 ->
  controlLampDimming masterAddr cuAddr lampNo brightness
  = JS.Ok (frame [0x13; masterAddr; cuAddr; 0; 0] 0x92 0x00
             [JS.toUint8 cuAddr; JS.toUint8 lampNo; 0; JS.toUint8 brightness])
  /\ controlLampBlock masterAddr cuAddr lampList brightness
     = JS.Ok (frame [0x13; masterAddr; cuAddr; 0; 0] 0x90 0x00
                (block_data cuAddr lampList brightness))
  /\ controlLampColorTemp masterAddr cuAddr lampList colorTemp
     = JS.Ok (frame [0x13; masterAddr; cuAddr; 0; 0] 0x90 0x05
                (block_data cuAddr lampList colorTemp))
  /\ executeScene masterAddr cuAddr sceneNo fadeTime
     = JS.Ok (frame [0x13; masterAddr; cuAddr; 0; 0] 0x91 0x00
                [JS.toUint8 cuAddr; JS.toUint8 sceneNo; JS.toUint8 fadeTime])
  /\ controlAllLamps masterAddr cuAddr brightness
     = JS.Ok (frame [0x13; masterAddr; cuAddr; 0; 0] 0x90 0x02
                [JS.toUint8 cuAddr; JS.toUint8 brightness])
  /\ getLampBrightness masterAddr cuAddr deviceType
     = JS.Ok (frame [default 0 (deviceTypeMap deviceType); masterAddr; cuAddr; 0; 0]
                0x96 0x00 [])
  /\ getLampColorTemperature masterAddr cuAddr
     = JS.Ok (frame [0x13; masterAddr; cuAddr; 0; 0] 0x96 0x06 [])
  /\ getDeviceName = JS.Ok (frame [0x13; 0; 0; 0; 0] 0xa2 0x05 []).
Proof.
  intros Hn.
  refine (conj _ (conj _ (conj _ (conj _ (conj _ (conj _ (conj _ _))))))).
  - apply controlLampDimming_frame.
  - unfold controlLampBlock. rewrite block_data_built.
    apply buildPacket_frame; [reflexivity | apply block_data_wf |].
    rewrite block_data_length. lia.
  - unfold controlLampColorTemp. rewrite block_data_built.
    apply buildPacket_frame; [reflexivity | apply block_data_wf |].
    rewrite block_data_length. lia.
  - apply buildPacket_frame;
      [reflexivity | apply (from_wf [cuAddr; sceneNo; fadeTime])
      | vm_compute; discriminate].
  - apply buildPacket_frame;
      [reflexivity | apply (from_wf [cuAddr; brightness]) | vm_compute; discriminate].
  - apply buildPacket_frame; [reflexivity | constructor | vm_compute; discriminate].
  - apply buildPacket_frame; [reflexivity | constructor | vm_compute; discriminate].
  - apply buildPacket_frame; [reflexivity | constructor | vm_compute; discriminate].
Qed.

(** The bytes are the arguments themselves when these are in the ranges
    of the documentation. *)
Lemma controlLampDimming_in_range masterAddr cuAddr lampNo brightness :
  1 <= masterAddr <= 255 -> 1 <= cuAddr <= 255 ->
  1 <= lampNo <= 64 -> 0 <= brightness <= 100 ->
  controlLampDimming masterAddr cuAddr lampNo brightness
  = JS.Ok ([STX; 0; 22] ++ [0x13; masterAddr; cuAddr; 0; 0] ++ HOST_ADDRESS
             ++ [0x92; 0x00] ++ [cuAddr; lampNo; 0; brightness]
             ++ Spec.le16 (Spec.bcc ([0x13; masterAddr; cuAddr; 0; 0] ++ HOST_ADDRESS
                                       ++ [0x92; 0x00] ++ [cuAddr; lampNo; 0; brightness]))
             ++ [ETX]).
Proof.
  intros Hm Hcu Hl Hb.
  rewrite controlLampDimming_frame.
  unfold frame, frame_body, Buffer.from. cbn [map].
  rewrite !(toUint8_byte masterAddr), !(toUint8_byte cuAddr),
    !(toUint8_byte lampNo), !(toUint8_byte brightness) by lia.
  reflexivity.
Qed.

Lemma builders_encode_any_arguments_witness :
  Z.of_nat (List.length [0; 65; 1000]) + 21 <= 65535
  /\ controlLampDimming 0 300 65 101
     = JS.Ok (frame [0x13; 0; 300; 0; 0] 0x92 0x00
                [JS.toUint8 300; JS.toUint8 65; 0; JS.toUint8 101]).
Proof.
  assert (H : Z.of_nat (List.length [0; 65; 1000]) + 21 <= 65535)
    by (vm_compute; discriminate).
  split; [exact H|].
  exact (proj1 (builders_encode_any_arguments 0 300 65 101 (-1) 0 0
                  [0; 65; 1000] "XYZ" H)).
Defined.

(** C4 as it is written fails: a brightness of 200 is encoded, and so
    are a master address of 0, a CU address of 300, a lamp number of 65
    and a brightness of 101. *)
Lemma controlLampDimming_encodes_out_of_range :
  controlLampDimming 1 1 5 200
  = JS.Ok [0x02; 0x00; 0x16; 0x13; 0x01; 0x01; 0x00; 0x00;
           0x13; 0x00; 0x00; 0x00; 0x00; 0x92; 0x00;
           0x01; 0x05; 0x00; 200; 30; 88; 0x03]
  /\ controlLampDimming 0 300 65 101
     = JS.Ok [0x02; 0x00; 0x16; 0x13; 0; 44; 0x00; 0x00;
              0x13; 0x00; 0x00; 0x00; 0x00; 0x92; 0x00;
              44; 65; 0x00; 101; 70; 2; 0x03].
Proof. split; reflexivity. Qed.

End BuilderClaims.

(** ** The claims on the decoder *)

Section DecoderClaims.

Import LCSPacketBuilder LCSTcpClient.

Lemma get_0 (x : Z) l : Buffer.get (x :: l) 0 = Some x.
Proof. reflexivity. Qed.

Lemma readUInt16LE_1 (x a b : Z) l :
  Buffer.readUInt16LE (x :: a :: b :: l) 1 = JS.Ok (a + 256 * b).
Proof.
  unfold Buffer.readUInt16LE, Buffer.length. cbn [List.length].
  repeat case_ltb. reflexivity.
Qed.

(** C1.  A frame of a builder that has fewer than 256 bytes is not
    decoded: its length field [00 LL], written big-endian, is read
    little-endian as [LL * 256], more than the buffer holds, and
    [parseResponsePacket] reports an incomplete packet. *)
Theorem parseResponsePacket_of_built_frame (destAddr : list Z) (op1 op2 : Z)
  (data : Buffer.t) :
  List.length destAddr = 5%nat ->
  Buffer.wf data ->
  18 + Buffer.length data < 256 ->
  (packet <- buildPacket destAddr op1 op2 data ;; parseResponsePacket packet)
  = JS.Ok Incomplete.
Proof.
  intros Hlen Hwf Hmax.
  rewrite buildPacket_frame by (assumption || lia).
  cbn [JS.bind]. unfold parseResponsePacket.
  rewrite frame_length by exact Hlen.
  assert (Hn : 0 <= Buffer.length data) by (unfold Buffer.length; lia).
  case_ltb.
  unfold frame at 1. cbn [app Spec.be16]. rewrite get_0.
  change (strict_ne (Some STX) 2) with false. cbv iota.
  unfold frame at 1. cbn [app Spec.be16]. rewrite readUInt16LE_1.
  cbn [JS.bind].
  rewrite Z.div_small, Z.mod_small by lia.
  case_ltb. reflexivity.
Qed.

Lemma parseResponsePacket_of_built_frame_witness :
  (List.length [0x13; 1; 1; 0; 0] = 5%nat
   /\ Buffer.wf [1; 5; 0; 80]
   /\ 18 + Buffer.length [1; 5; 0; 80] < 256)
  /\ (packet <- buildPacket [0x13; 1; 1; 0; 0] 0x92 0x00 [1; 5; 0; 80] ;;
      parseResponsePacket packet) = JS.Ok Incomplete.
Proof.
  assert (Hwf : Buffer.wf [1; 5; 0; 80]) by (repeat constructor; lia).
  assert (Hmax : 18 + Buffer.length [1; 5; 0; 80] < 256) by reflexivity.
  split; [split; [reflexivity | split; assumption]|].
  exact (parseResponsePacket_of_built_frame [0x13; 1; 1; 0; 0] 0x92 0x00 [1; 5; 0; 80]
           eq_refl Hwf Hmax).
Defined.

(** the same, on the frame of [controlLampDimming(1, 1, 5, 80)] *)
Example controlLampDimming_is_not_decoded :
  (packet <- controlLampDimming 1 1 5 80 ;; parseResponsePacket packet)
  = JS.Ok Incomplete.
Proof. reflexivity. Qed.

(** *** The read loop *)

Lemma get_nth (b : Buffer.t) (i : nat) :
  (i < List.length b)%nat -> Buffer.get b (Z.of_nat i) = Some (nth i b 0).
Proof.
  intros H. unfold Buffer.get. case_ltb. rewrite Nat2Z.id.
  destruct (nth_lookup_or_length b i 0) as [Hx|Hx]; [exact Hx | lia].
Qed.

Lemma readUInt16LE_ok (b : Buffer.t) offset :
  0 <= offset -> offset + 2 <= Buffer.length b ->
  Buffer.readUInt16LE b offset
  = JS.Ok (nth (Z.to_nat offset) b 0 + 256 * nth (Z.to_nat offset + 1) b 0).
Proof. intros H1 H2. unfold Buffer.readUInt16LE. repeat case_ltb. reflexivity. Qed.

Lemma wf_nth (b : Buffer.t) i : Buffer.wf b -> 0 <= nth i b 0 < 256.
Proof.
  intros Hwf. destruct (Nat.lt_ge_cases i (List.length b)) as [H|H].
  - unfold Buffer.wf in Hwf. rewrite Forall_forall in Hwf.
    apply Hwf. apply list_elem_of_In. apply nth_In. exact H.
  - rewrite nth_overflow by exact H. lia.
Qed.

Lemma strict_ne_false v k : strict_ne v k = false -> v = Some k.
Proof.
  destruct v as [x|]; simpl; [|discriminate].
  destruct (Z.eqb_spec x k); [intros _; subst; reflexivity | discriminate].
Qed.

(** [parseResponsePacket] does not throw, and a packet that it finds has
    at least 4 bytes and lies within the buffer. *)
Lemma parseResponsePacket_cases (buffer : Buffer.t) :
  Buffer.wf buffer ->
  parseResponsePacket buffer = JS.Ok Incomplete
  \/ exists p, parseResponsePacket buffer = JS.Ok (Complete p)
               /\ 4 <= totalLength p <= Buffer.length buffer.
Proof.
  intros Hwf. unfold parseResponsePacket.
  case_ltb; [left; reflexivity|].
  destruct (strict_ne (Buffer.get buffer 0) 2) eqn:Hstx; [left; reflexivity|].
  rewrite readUInt16LE_ok by lia. cbn [JS.bind].
  change (Z.to_nat 1) with 1%nat. change (1 + 1)%nat with 2%nat.
  pose proof (wf_nth buffer 1 Hwf) as Hb1.
  pose proof (wf_nth buffer 2 Hwf) as Hb2.
  set (L := nth 1 buffer 0 + 256 * nth 2 buffer 0) in *.
  case_ltb; [left; reflexivity|].
  destruct (strict_ne (Buffer.get buffer (L - 1)) 3) eqn:Hetx; [left; reflexivity|].
  apply strict_ne_false in Hstx, Hetx.
  assert (HL : 4 <= L).
  { destruct (Z.le_gt_cases 4 L) as [|Hlt]; [assumption|exfalso].
    assert (Hlen : (3 <= List.length buffer)%nat) by (unfold Buffer.length in *; lia).
    assert (HL : L = 0 \/ L = 1 \/ L = 2 \/ L = 3) by lia.
    destruct HL as [HL|[HL|[HL|HL]]]; rewrite HL in Hetx.
    - discriminate Hetx.
    - change (1 - 1) with 0 in Hetx. congruence.
    - change (2 - 1) with (Z.of_nat 1) in Hetx.
      rewrite get_nth in Hetx by lia. injection Hetx as Hetx. lia.
    - change (3 - 1) with (Z.of_nat 2) in Hetx.
      rewrite get_nth in Hetx by lia. injection Hetx as Hetx. lia. }
  rewrite readUInt16LE_ok by lia. cbn [JS.bind].
  right. eexists. split; [reflexivity|]. cbn [totalLength]. lia.
Qed.

Lemma framing_error_incomplete (buffer : Buffer.t) :
  framing_error buffer -> parseResponsePacket buffer = JS.Ok Incomplete.
Proof.
  intros [Hlen [Hstx | (L & HL & HLlen & Hetx)]]; unfold parseResponsePacket.
  - case_ltb. rewrite Hstx. reflexivity.
  - case_ltb. destruct (strict_ne (Buffer.get buffer 0) 2); [reflexivity|].
    rewrite HL. cbn [JS.bind]. case_ltb. rewrite Hetx. reflexivity.
Qed.

Lemma get_app_l (b x : Buffer.t) i :
  i < Buffer.length b -> Buffer.get (b ++ x) i = Buffer.get b i.
Proof.
  intros H. unfold Buffer.get, Buffer.length in *. case_ltb; [reflexivity|].
  apply lookup_app_l. lia.
Qed.

(** more data does not repair a framing error *)
Lemma framing_error_app (buffer more : Buffer.t) :
  framing_error buffer -> framing_error (buffer ++ more).
Proof.
  intros [Hlen Herr].
  assert (Hlen' : Buffer.length (buffer ++ more)
                  = Buffer.length buffer + Buffer.length more)
    by (unfold Buffer.length; rewrite length_app; lia).
  assert (0 <= Buffer.length more) by (unfold Buffer.length; lia).
  split; [lia|].
  destruct Herr as [Hstx | (L & HL & HLlen & Hetx)].
  - left. rewrite get_app_l by lia. exact Hstx.
  - right. exists L. split; [|split; [lia|]].
    + rewrite readUInt16LE_ok in HL by lia.
      rewrite readUInt16LE_ok by lia.
      unfold Buffer.length in Hlen.
      rewrite !app_nth1 by lia. exact HL.
    + destruct (Z.ltb_spec (L - 1) 0) as [Hneg|Hpos].
      * unfold Buffer.get in *. case_ltb. exact Hetx.
      * rewrite get_app_l by lia. exact Hetx.
Qed.

Lemma responseHandler_buffer id r c :
  responseBuffer (responseHandler id r c) = responseBuffer c.
Proof. unfold responseHandler. destruct (responseCallbacks c !! id); reflexivity. Qed.

Lemma emit_response_buffer c r :
  responseBuffer (emit_response c r) = responseBuffer c.
Proof.
  unfold emit_response.
  change (responseBuffer c) with (responseBuffer (emit c (response r))).
  generalize (emit c (response r)) as s. generalize (listeners c) as l.
  induction l as [|id l IH]; intros s; [reflexivity|].
  cbn [fold_left]. rewrite IH. apply responseHandler_buffer.
Qed.

Lemma slice_from_drop (b : Buffer.t) (k : Z) :
  0 <= k <= Buffer.length b -> Buffer.slice_from b k = drop (Z.to_nat k) b.
Proof.
  intros H. unfold Buffer.slice_from, Buffer.slice, Buffer.clamp.
  assert (0 <= Buffer.length b) by lia.
  repeat case_ltb. rewrite !Z.min_l by lia.
  apply take_ge. rewrite length_drop. unfold Buffer.length. lia.
Qed.

Lemma set_responseBuffer_id c : set_responseBuffer c (responseBuffer c) = c.
Proof. destruct c; reflexivity. Qed.

Lemma responseHandler_set_buffer id r c b :
  responseHandler id r (set_responseBuffer c b)
  = set_responseBuffer (responseHandler id r c) b.
Proof.
  unfold responseHandler. cbn [responseCallbacks set_responseBuffer].
  destruct (responseCallbacks c !! id); reflexivity.
Qed.

Lemma emit_response_set_buffer c r b :
  emit_response (set_responseBuffer c b) r = set_responseBuffer (emit_response c r) b.
Proof.
  unfold emit_response. cbn [listeners set_responseBuffer].
  change (emit (set_responseBuffer c b) (response r))
    with (set_responseBuffer (emit c (response r)) b).
  generalize (emit c (response r)) as s. generalize (listeners c) as l.
  induction l as [|id l IH]; intros s; [reflexivity|].
  cbn [fold_left]. rewrite responseHandler_set_buffer. apply IH.
Qed.

Lemma emit_responses_set_buffer rs : forall c b,
  emit_responses (set_responseBuffer c b) rs = set_responseBuffer (emit_responses c rs) b.
Proof.
  unfold emit_responses.
  induction rs as [|r rs IH]; intros c b; [reflexivity|].
  cbn [fold_left]. rewrite emit_response_set_buffer. apply IH.
Qed.

(** The loop of [handleResponse] leaves by one of its two exits before its
    fuel is used up, and it has then done what [decodes] says. *)
Lemma handleResponse_loop_decodes fuel : forall c,
  Buffer.wf (responseBuffer c) ->
  (List.length (responseBuffer c) <= fuel)%nat ->
  exists responses rest,
    decodes (responseBuffer c) responses rest
    /\ handleResponse_loop fuel c
       = JS.Ok (set_responseBuffer (emit_responses c responses) rest).
Proof.
  induction fuel as [|fuel IH]; intros c Hwf Hfuel.
  - exists [], (responseBuffer c). split.
    + apply decodes_short. unfold Buffer.length. lia.
    + cbn. rewrite set_responseBuffer_id. reflexivity.
  - cbn [handleResponse_loop]. case_ltb.
    + destruct (parseResponsePacket_cases _ Hwf) as [Hp | (p & Hp & Hlen)]; rewrite Hp.
      * exists [], (responseBuffer c). split.
        -- apply decodes_incomplete; assumption.
        -- cbn. rewrite set_responseBuffer_id. reflexivity.
      * cbn [JS.bind]. rewrite emit_response_buffer.
        rewrite slice_from_drop by lia.
        set (rest1 := drop (Z.to_nat (totalLength p)) (responseBuffer c)).
        destruct (IH (set_responseBuffer (emit_response c (interpretResponse p)) rest1))
          as (rs & rest & Hdec & Hloop).
        -- cbn [responseBuffer set_responseBuffer]. apply Forall_drop, Hwf.
        -- cbn [responseBuffer set_responseBuffer]. unfold rest1.
           rewrite length_drop. unfold Buffer.length in *. lia.
        -- exists (interpretResponse p :: rs), rest. split.
           ++ apply decodes_packet; assumption.
           ++ rewrite Hloop. rewrite emit_responses_set_buffer. reflexivity.
    + exists [], (responseBuffer c). split.
      * apply decodes_short. assumption.
      * cbn. rewrite set_responseBuffer_id. reflexivity.
Qed.

Lemma handleResponse_framing_error c chunk :
  framing_error (responseBuffer c ++ chunk) ->
  handleResponse c chunk = JS.Ok (set_responseBuffer c (responseBuffer c ++ chunk)).
Proof.
  intros Herr. pose proof (framing_error_incomplete _ Herr) as Hp.
  destruct Herr as [Hlen _].
  unfold handleResponse, Buffer.concat. cbn [responseBuffer set_responseBuffer].
  unfold Buffer.length in Hlen.
  destruct (List.length (responseBuffer c ++ chunk)) as [|fuel] eqn:Hfuel; [lia|].
  cbn [handleResponse_loop responseBuffer set_responseBuffer].
  unfold Buffer.length. rewrite Hfuel. case_ltb.
  rewrite Hp. reflexivity.
Qed.

Lemma run_cons c ev evs :
  run c (ev :: evs) = (c' <- step c ev ;; run c' evs).
Proof. reflexivity. Qed.

Lemma run_framing_error chunks : forall c chunk,
  framing_error (responseBuffer c ++ chunk) ->
  run c (map Data (chunk :: chunks))
  = JS.Ok (set_responseBuffer c (responseBuffer c ++ chunk ++ concat chunks)).
Proof.
  induction chunks as [|next chunks IH]; intros c chunk Herr.
  - cbn [map run step JS.bind concat]. rewrite handleResponse_framing_error by exact Herr.
    cbn [JS.bind]. rewrite app_nil_r. reflexivity.
  - change (map Data (chunk :: next :: chunks))
      with (Data chunk :: map Data (next :: chunks)).
    rewrite run_cons. cbn [step]. rewrite handleResponse_framing_error by exact Herr.
    cbn [JS.bind].
    rewrite IH.
    + cbn [responseBuffer set_responseBuffer concat].
      rewrite <- app_assoc. reflexivity.
    + cbn [responseBuffer set_responseBuffer]. apply framing_error_app, Herr.
Qed.

(** C3, amended.  The read loop ends on every input, without throwing: it
    takes complete packets from the front of the buffer, emits one
    response for each, and keeps the rest when [parseResponsePacket]
    finds no packet.  It does not drop a byte to find the next STX: once
    the buffer has 18 bytes and its first byte is not STX, or its ETX
    test fails, the buffer is kept whole and nothing is emitted, whatever
    data arrives later. *)
Theorem handleResponse_keeps_what_it_cannot_parse (c : Client) (chunk : Buffer.t) :
  Buffer.wf (responseBuffer c) ->
  Buffer.wf chunk ->
  (exists responses rest,
      decodes (responseBuffer c ++ chunk) responses rest
      /\ handleResponse c chunk
         = JS.Ok (set_responseBuffer (emit_responses c responses) rest))
  /\ (framing_error (responseBuffer c ++ chunk) ->
      forall chunks,
        run c (map Data (chunk :: chunks))
        = JS.Ok (set_responseBuffer c (responseBuffer c ++ chunk ++ concat chunks))).
Proof.
  intros Hwf Hchunk. split.
  - unfold handleResponse, Buffer.concat.
    destruct (handleResponse_loop_decodes
                (List.length (responseBuffer c ++ chunk))
                (set_responseBuffer c (responseBuffer c ++ chunk)))
      as (rs & rest & Hdec & Hloop).
    + cbn [responseBuffer set_responseBuffer]. apply Forall_app. split; assumption.
    + cbn [responseBuffer set_responseBuffer]. lia.
    + exists rs, rest. split; [exact Hdec|].
      cbn [responseBuffer set_responseBuffer] in *. rewrite Hloop.
      rewrite emit_responses_set_buffer. reflexivity.
  - intros Herr chunks. apply run_framing_error, Herr.
Qed.

Lemma handleResponse_keeps_what_it_cannot_parse_witness :
  Buffer.wf (responseBuffer connected_client)
  /\ Buffer.wf (0xFF :: ack_frame 0)
  /\ framing_error (responseBuffer connected_client ++ 0xFF :: ack_frame 0)
  /\ forall chunks,
       run connected_client (map Data ((0xFF :: ack_frame 0) :: chunks))
       = JS.Ok (set_responseBuffer connected_client
                  (responseBuffer connected_client
                     ++ (0xFF :: ack_frame 0) ++ concat chunks)).
Proof.
  assert (Hwf : Buffer.wf (responseBuffer connected_client)) by constructor.
  assert (Hchunk : Buffer.wf (0xFF :: ack_frame 0))
    by (vm_compute; repeat constructor; discriminate).
  assert (Herr : framing_error (responseBuffer connected_client ++ 0xFF :: ack_frame 0))
    by (split; [vm_compute; discriminate | left; reflexivity]).
  split; [exact Hwf|]. split; [exact Hchunk|]. split; [exact Herr|].
  exact (proj2 (handleResponse_keeps_what_it_cannot_parse
                  connected_client (0xFF :: ack_frame 0) Hwf Hchunk) Herr).
Defined.

(** C3 as it is written fails: a byte FF in front of a packet is not
    dropped.  The packet alone is decoded; behind the byte it is kept in
    the buffer, with the byte and with all that arrives later, and no
    response is emitted. *)
Lemma leading_byte_is_not_dropped :
  (c <- handleResponse connected_client (ack_frame 0) ;;
   JS.Ok (responseBuffer c, List.length (emitted c)))
  = JS.Ok ([], 2%nat)
  /\ (c <- run connected_client [Data (0xFF :: ack_frame 0); Data (ack_frame 0)] ;;
      JS.Ok (responseBuffer c, emitted c))
     = JS.Ok (0xFF :: ack_frame 0 ++ ack_frame 0, [connected]).
Proof. split; reflexivity. Qed.

(** With the two length bytes exchanged, the same frame is decoded and
    the fields are those that were encoded. *)
Example little_endian_length_is_decoded :
  parseResponsePacket
    [0x02; 0x16; 0x00; 0x13; 0x01; 0x01; 0x00; 0x00;
     0x13; 0x00; 0x00; 0x00; 0x00; 0x92; 0x00;
     0x01; 0x05; 0x00; 0x50; 0x96; 0x58; 0x03]
  = JS.Ok (Complete {| totalLength := 22;
                       destAddr := [0x13; 1; 1; 0; 0];
                       srcAddr := [0x13; 0; 0; 0; 0];
                       op1 := Some 0x92;
                       op2 := Some 0x00;
                       data := [1; 5; 0; 80];
                       bcc := 0x5896 |}).
Proof. reflexivity. Qed.

End DecoderClaims.

(** ** The log line of [sendPacket] *)

Section PacketLog.

Import LCSPacketBuilder.

Lemma hex_digit_dot (n : nat) :
  JS.dot (JS.toUpperCase_char
            (default Ascii.zero (String.get n "0123456789abcdef"))) = true.
Proof. do 16 (destruct n as [|n]; [reflexivity|]). reflexivity. Qed.

Lemma matches_hex (b : Buffer.t) :
  JS.matches_dot2 (JS.toUpperCase (Buffer.toString_hex b)) = map byte_hex b.
Proof.
  induction b as [|x b IH]; [reflexivity|].
  cbn [Buffer.toString_hex JS.toUpperCase JS.matches_dot2 map].
  unfold Buffer.hex_digit at 1 2. rewrite !hex_digit_dot. cbn [andb].
  rewrite IH. reflexivity.
Qed.

(** [packetToHex] throws on the empty buffer only *)
Lemma packetToHex_throws (packet : Buffer.t) :
  packetToHex packet = None <-> packet = [].
Proof.
  unfold packetToHex, JS.match_dot2. rewrite matches_hex.
  destruct packet; cbn [map]; split; intros H; congruence.
Qed.

(** a packet with a byte is logged, and the promises are as they were *)
Lemma sendPacket_promises (c : LCSTcpClient.Client) (packet : Buffer.t) :
  packet <> [] ->
  LCSTcpClient.promises (fst (LCSTcpClient.sendPacket c packet))
  = LCSTcpClient.promises c.
Proof.
  intros Hne. unfold LCSTcpClient.sendPacket.
  destruct (LCSTcpClient.isConnected c); cbn [negb fst]; [|reflexivity].
  cbn [LCSTcpClient.promises].
  destruct (packetToHex packet) eqn:E; [reflexivity|].
  apply packetToHex_throws in E. contradiction.
Qed.

(** the frames of the builder have a byte *)
Lemma frame_not_empty (destAddr : list Z) (op1 op2 : Z) (data : Buffer.t) :
  frame destAddr op1 op2 data <> [].
Proof. unfold frame. discriminate. Qed.

End PacketLog.

(** ** The claims on the requests *)

Section RequestClaims.

Import LCSTcpClient.

Lemma settle_stable (ps : gmap nat Settled) id id' s x :
  ps !! id = Some x -> settle ps id' s !! id = Some x.
Proof.
  intros H. unfold settle. destruct (ps !! id') eqn:E; [exact H|].
  rewrite lookup_insert_ne; [exact H | congruence].
Qed.

Lemma settle_other (ps : gmap nat Settled) id id' s :
  id <> id' -> settle ps id' s !! id = ps !! id.
Proof.
  intros H. unfold settle. destruct (ps !! id'); [reflexivity|].
  apply lookup_insert_ne. congruence.
Qed.

Lemma settle_pending (ps : gmap nat Settled) id s :
  ps !! id = None -> settle ps id s !! id = Some s.
Proof. intros H. unfold settle. rewrite H. apply lookup_insert_eq. Qed.

(** a predicate that the emissions and the buffer updates keep is kept by
    the read loop *)
Lemma handleResponse_loop_preserves (P : Client -> Prop) :
  (forall c r, P c -> P (emit_response c r)) ->
  (forall c b, P c -> P (set_responseBuffer c b)) ->
  forall fuel c c', P c -> handleResponse_loop fuel c = JS.Ok c' -> P c'.
Proof.
  intros Hemit Hset. induction fuel as [|fuel IH]; intros c c' HP Hloop.
  - injection Hloop as <-. exact HP.
  - cbn [handleResponse_loop] in Hloop.
    destruct (18 <=? Buffer.length (responseBuffer c)).
    + destruct (parseResponsePacket (responseBuffer c)) as [[|p]|e];
        cbn [JS.bind] in Hloop.
      * injection Hloop as <-. exact HP.
      * eapply IH; [|exact Hloop]. apply Hset, Hemit, HP.
      * discriminate Hloop.
    + injection Hloop as <-. exact HP.
Qed.

Lemma handleResponse_preserves (P : Client -> Prop) :
  (forall c r, P c -> P (emit_response c r)) ->
  (forall c b, P c -> P (set_responseBuffer c b)) ->
  forall c chunk c', P c -> handleResponse c chunk = JS.Ok c' -> P c'.
Proof.
  intros Hemit Hset c chunk c' HP H. unfold handleResponse in H.
  eapply handleResponse_loop_preserves; [exact Hemit | exact Hset | | exact H].
  apply Hset, HP.
Qed.

(** *** Settled promises stay as they are *)

Lemma responseHandler_stable id' r c id x :
  promises c !! id = Some x -> promises (responseHandler id' r c) !! id = Some x.
Proof.
  intros H. unfold responseHandler.
  destruct (responseCallbacks c !! id'); [|exact H].
  cbn [promises]. apply settle_stable, H.
Qed.

Lemma emit_response_stable c r id x :
  promises c !! id = Some x -> promises (emit_response c r) !! id = Some x.
Proof.
  unfold emit_response.
  change (promises c) with (promises (emit c (response r))).
  generalize (emit c (response r)) as s. generalize (listeners c) as l.
  induction l as [|id' l IH]; intros s H; [exact H|].
  cbn [fold_left]. apply IH, responseHandler_stable, H.
Qed.

Lemma step_stable c ev c' id x :
  step c ev = JS.Ok c' -> promises c !! id = Some x -> promises c' !! id = Some x.
Proof.
  intros Hstep H. destruct ev as [|packet|chunk|id'| |]; cbn [step] in Hstep.
  - injection Hstep as <-. exact H.
  - injection Hstep as <-. unfold sendPacket.
    destruct (isConnected c); cbn [negb fst]; [|exact H].
    cbn [promises]. destruct (LCSPacketBuilder.packetToHex packet); [exact H|].
    apply settle_stable, H.
  - revert Hstep. apply (handleResponse_preserves (fun s => promises s !! id = Some x)).
    + intros s r. apply emit_response_stable.
    + intros s b Hs. exact Hs.
    + exact H.
  - injection Hstep as <-. unfold on_timeout.
    destruct (decide (id' ∈ timers c)); [|exact H].
    cbn [promises]. apply settle_stable, H.
  - injection Hstep as <-. exact H.
  - injection Hstep as <-. exact H.
Qed.

Lemma run_stable evs : forall c c' id x,
  run c evs = JS.Ok c' -> promises c !! id = Some x -> promises c' !! id = Some x.
Proof.
  induction evs as [|ev evs IH]; intros c c' id x Hrun H.
  - injection Hrun as <-. exact H.
  - rewrite run_cons in Hrun.
    destruct (step c ev) as [c1|e] eqn:Hstep; [|discriminate Hrun].
    cbn [JS.bind] in Hrun.
    eapply IH; [exact Hrun|]. eapply step_stable; eassumption.
Qed.

(** *** The invariant *)

Lemma client_inv_new : client_inv new.
Proof.
  unfold client_inv, pending, new.
  cbn [responseCallbacks listeners promises timers requestId].
  split; [|split; [|split; [|split]]].
  - intros id [x Hx]. rewrite lookup_empty in Hx. discriminate Hx.
  - intros id cb H. rewrite lookup_empty in H. discriminate H.
  - intros id [].
  - intros id [x Hx]. rewrite lookup_empty in Hx. discriminate Hx.
  - intros id H. apply not_elem_of_empty in H. destruct H.
Qed.

Lemma client_inv_set_buffer c b : client_inv c -> client_inv (set_responseBuffer c b).
Proof. intros H. exact H. Qed.

Lemma client_inv_emit c e : client_inv c -> client_inv (emit c e).
Proof. intros H. exact H. Qed.

Lemma client_inv_set_isConnected c b : client_inv c -> client_inv (set_isConnected c b).
Proof. intros H. exact H. Qed.

Lemma client_inv_sendPacket c packet :
  packet <> [] -> client_inv c -> client_inv (fst (sendPacket c packet)).
Proof.
  intros Hbyte H. pose proof (sendPacket_promises c packet Hbyte) as Hp.
  revert Hp. unfold sendPacket.
  destruct (isConnected c); cbn [negb fst]; [|intros _; exact H].
  destruct H as (I1 & I6 & I5 & I2 & I4).
  unfold client_inv, pending. cbn [responseCallbacks listeners promises timers requestId].
  intros ->.
  split; [|split; [|split; [|split]]].
  - intros id Hid. destruct (decide (id = S (requestId c))) as [->|Hne].
    + split; [apply in_or_app; right; left; reflexivity|].
      split; [|apply elem_of_union; right; apply elem_of_singleton; reflexivity].
      destruct (promises c !! S (requestId c)) eqn:E; [|reflexivity].
      assert (S (requestId c) <= requestId c)%nat by (apply I2; eauto). lia.
    + rewrite lookup_insert_ne in Hid by congruence.
      destruct (I1 id Hid) as (H1 & H2 & H3).
      split; [apply in_or_app; left; exact H1|].
      split; [exact H2 | apply elem_of_union; left; exact H3].
  - intros id cb Hcb. destruct (decide (id = S (requestId c))) as [->|Hne].
    + rewrite lookup_insert_eq in Hcb. injection Hcb as <-. reflexivity.
    + rewrite lookup_insert_ne in Hcb by congruence. eapply I6, Hcb.
  - intros id Hid. apply in_app_or in Hid as [Hid|[<-|[]]]; [|lia].
    specialize (I5 id Hid). lia.
  - intros id Hid. specialize (I2 id Hid). lia.
  - intros id Hid. apply elem_of_union in Hid as [Hid|Hid].
    + specialize (I4 id Hid). lia.
    + apply elem_of_singleton in Hid. lia.
Qed.

Lemma client_inv_responseHandler id r c :
  client_inv c -> client_inv (responseHandler id r c).
Proof.
  intros H. unfold responseHandler.
  destruct (responseCallbacks c !! id) as [cb|] eqn:Hcb; [|exact H].
  destruct H as (I1 & I6 & I5 & I2 & I4).
  assert (Hpend : pending c id) by (unfold pending; eauto).
  destruct (I1 id Hpend) as (Hl & Hp & Ht).
  rewrite (I6 id cb Hcb).
  unfold client_inv, pending. cbn [responseCallbacks listeners promises timers requestId].
  split; [|split; [|split; [|split]]].
  - intros id' Hid'. destruct (decide (id' = id)) as [->|Hne].
    + rewrite lookup_delete_eq in Hid'. destruct Hid' as [x Hx]. discriminate Hx.
    + rewrite lookup_delete_ne in Hid' by congruence.
      destruct (I1 id' Hid') as (H1 & H2 & H3).
      split; [|split].
      * apply filter_In. split; [exact H1|].
        apply negb_true_iff, Nat.eqb_neq. exact Hne.
      * rewrite settle_other by exact Hne. exact H2.
      * apply elem_of_difference. split; [exact H3|].
        rewrite elem_of_singleton. exact Hne.
  - intros id' cb' Hcb'. destruct (decide (id' = id)) as [->|Hne].
    + rewrite lookup_delete_eq in Hcb'. discriminate Hcb'.
    + rewrite lookup_delete_ne in Hcb' by congruence. eapply I6, Hcb'.
  - intros id' Hid'. apply filter_In in Hid' as [Hid' _]. apply I5, Hid'.
  - intros id' Hid'. destruct (decide (id' = id)) as [->|Hne]; [apply I5, Hl|].
    rewrite settle_other in Hid' by exact Hne. apply I2, Hid'.
  - intros id' Hid'. apply elem_of_difference in Hid' as [Hid' _]. apply I4, Hid'.
Qed.

Lemma client_inv_emit_response c r : client_inv c -> client_inv (emit_response c r).
Proof.
  intros H. unfold emit_response.
  apply (client_inv_emit c (response r)) in H. revert H.
  generalize (emit c (response r)) as s. generalize (listeners c) as l.
  induction l as [|id l IH]; intros s H; [exact H|].
  cbn [fold_left]. apply IH, client_inv_responseHandler, H.
Qed.

Lemma client_inv_on_timeout c id : client_inv c -> client_inv (on_timeout c id).
Proof.
  intros H. unfold on_timeout.
  destruct (decide (id ∈ timers c)) as [Ht|]; [|exact H].
  destruct H as (I1 & I6 & I5 & I2 & I4).
  unfold client_inv, pending. cbn [responseCallbacks listeners promises timers requestId].
  split; [|split; [|split; [|split]]].
  - intros id' Hid'. destruct (decide (id' = id)) as [->|Hne].
    + rewrite lookup_delete_eq in Hid'. destruct Hid' as [x Hx]. discriminate Hx.
    + rewrite lookup_delete_ne in Hid' by congruence.
      destruct (I1 id' Hid') as (H1 & H2 & H3).
      split; [exact H1|]. split.
      * rewrite settle_other by exact Hne. exact H2.
      * apply elem_of_difference. split; [exact H3|].
        rewrite elem_of_singleton. exact Hne.
  - intros id' cb' Hcb'. destruct (decide (id' = id)) as [->|Hne].
    + rewrite lookup_delete_eq in Hcb'. discriminate Hcb'.
    + rewrite lookup_delete_ne in Hcb' by congruence. eapply I6, Hcb'.
  - exact I5.
  - intros id' Hid'. destruct (decide (id' = id)) as [->|Hne]; [apply I4, Ht|].
    rewrite settle_other in Hid' by exact Hne. apply I2, Hid'.
  - intros id' Hid'. apply elem_of_difference in Hid' as [Hid' _]. apply I4, Hid'.
Qed.

Create HintDb client_inv.

#[local] Hint Resolve client_inv_set_buffer client_inv_emit client_inv_set_isConnected
  client_inv_sendPacket client_inv_emit_response client_inv_on_timeout : client_inv.

(** a step keeps the invariant when the packet that it sends has a byte *)
Lemma client_inv_step c ev c' :
  match ev with Send packet => packet <> [] | _ => True end ->
  step c ev = JS.Ok c' -> client_inv c -> client_inv c'.
Proof.
  intros Hev Hstep H.
  destruct ev as [|packet|chunk|id| |]; cbn [step] in Hstep;
    try (injection Hstep as <-;
         unfold on_connect, on_close, disconnect; auto with client_inv).
  revert Hstep. apply (handleResponse_preserves client_inv); auto with client_inv.
Qed.

(** The invariant holds of every state that a client reaches by sending
    packets that have a byte. *)
Lemma client_inv_run evs : forall c c',
  Forall (fun ev => match ev with Send packet => packet <> [] | _ => True end) evs ->
  run c evs = JS.Ok c' -> client_inv c -> client_inv c'.
Proof.
  induction evs as [|ev evs IH]; intros c c' Hevs Hrun H.
  - injection Hrun as <-. exact H.
  - apply Forall_cons_1 in Hevs as [Hev Hevs].
    rewrite run_cons in Hrun.
    destruct (step c ev) as [c1|e] eqn:Hstep; [|discriminate Hrun].
    cbn [JS.bind] in Hrun.
    eapply IH; [exact Hevs | exact Hrun|]. eapply client_inv_step; eassumption.
Qed.

(** *** A response reaches every pending request *)

Lemma fold_responseHandler_stable r id x : forall l s,
  promises s !! id = Some x ->
  promises (fold_left (fun c id' => responseHandler id' r c) l s) !! id = Some x.
Proof.
  induction l as [|id' l IH]; intros s H; [exact H|].
  cbn [fold_left]. apply IH, responseHandler_stable, H.
Qed.

Lemma fold_responseHandler_resolves r id : forall l s,
  pending s id -> promises s !! id = None -> In id l ->
  promises (fold_left (fun c id' => responseHandler id' r c) l s) !! id
  = Some (Resolved r).
Proof.
  induction l as [|a l IH]; intros s Hpend Hnone Hin; [destruct Hin|].
  cbn [fold_left]. destruct (decide (a = id)) as [->|Hne].
  - apply fold_responseHandler_stable.
    unfold responseHandler. destruct Hpend as [cb Hcb]. rewrite Hcb.
    cbn [promises]. apply settle_pending, Hnone.
  - destruct Hin as [Hin|Hin]; [contradiction|].
    apply IH; [| |exact Hin]; unfold responseHandler, pending in *;
      destruct (responseCallbacks s !! a); cbn [responseCallbacks promises];
      try assumption.
    + rewrite lookup_delete_ne by exact Hne. exact Hpend.
    + rewrite settle_other by congruence. exact Hnone.
Qed.

Lemma responseHandler_pending a r s id :
  pending (responseHandler a r s) id -> pending s id /\ id <> a.
Proof.
  unfold responseHandler, pending.
  destruct (responseCallbacks s !! a) eqn:Ha; cbn [responseCallbacks]; intros H.
  - destruct (decide (id = a)) as [->|Hne].
    + rewrite lookup_delete_eq in H. destruct H as [x Hx]. discriminate Hx.
    + rewrite lookup_delete_ne in H by congruence. split; assumption.
  - split; [exact H|]. intros ->. rewrite Ha in H. destruct H as [x Hx]. discriminate Hx.
Qed.

Lemma fold_responseHandler_pending r id : forall l s,
  pending (fold_left (fun c id' => responseHandler id' r c) l s) id ->
  pending s id /\ ~ In id l.
Proof.
  induction l as [|a l IH]; intros s H; [split; [exact H | intros []]|].
  cbn [fold_left] in H. apply IH in H as [H Hl].
  apply responseHandler_pending in H as [H Hne].
  split; [exact H|]. intros [Heq|Hin]; [congruence | contradiction].
Qed.

Lemma emit_response_resolves c r id :
  client_inv c -> pending c id ->
  promises (emit_response c r) !! id = Some (Resolved r).
Proof.
  intros (I1 & _) Hpend. destruct (I1 id Hpend) as (Hin & Hnone & _).
  unfold emit_response. apply fold_responseHandler_resolves; assumption.
Qed.

Lemma emit_response_clears c r id :
  client_inv c -> ~ pending (emit_response c r) id.
Proof.
  intros (I1 & _) H. unfold emit_response in H.
  apply fold_responseHandler_pending in H as [H Hl].
  apply Hl. apply (I1 id H).
Qed.

Lemma emit_response_isConnected c r :
  isConnected (emit_response c r) = isConnected c.
Proof.
  unfold emit_response.
  change (isConnected c) with (isConnected (emit c (response r))).
  generalize (emit c (response r)) as s. generalize (listeners c) as l.
  induction l as [|id l IH]; intros s; [reflexivity|].
  cbn [fold_left]. rewrite IH. unfold responseHandler.
  destruct (responseCallbacks s !! id); reflexivity.
Qed.

Lemma emit_response_requestId c r :
  requestId (emit_response c r) = requestId c.
Proof.
  unfold emit_response.
  change (requestId c) with (requestId (emit c (response r))).
  generalize (emit c (response r)) as s. generalize (listeners c) as l.
  induction l as [|id l IH]; intros s; [reflexivity|].
  cbn [fold_left]. rewrite IH. unfold responseHandler.
  destruct (responseCallbacks s !! id); reflexivity.
Qed.

Lemma sendPacket_connected c packet :
  isConnected c = true ->
  let c' := fst (sendPacket c packet) in
  snd (sendPacket c packet) = Of (S (requestId c))
  /\ written c' = written c ++ [packet]
  /\ requestId c' = S (requestId c)
  /\ isConnected c' = true
  /\ responseBuffer c' = responseBuffer c
  /\ pending c' (S (requestId c))
  /\ forall id, pending c id -> pending c' id.
Proof.
  intros Hc. unfold sendPacket. rewrite Hc. cbn [negb fst snd].
  unfold pending.
  cbn [written requestId isConnected responseBuffer responseCallbacks].
  repeat (split; [reflexivity || assumption|]). split.
  - rewrite lookup_insert_eq. eauto.
  - intros id [cb Hcb]. destruct (decide (id = S (requestId c))) as [->|Hne].
    + rewrite lookup_insert_eq. eauto.
    + rewrite lookup_insert_ne by congruence. eauto.
Qed.

(** one whole reply on an empty buffer: one response, and the buffer is
    empty again *)
Lemma handleResponse_one_reply c reply p :
  responseBuffer c = [] ->
  is_reply reply p ->
  handleResponse c reply
  = JS.Ok (set_responseBuffer (emit_response c (interpretResponse p)) []).
Proof.
  intros Hbuf [Hparse Hlen]. unfold handleResponse, Buffer.concat.
  rewrite Hbuf. cbn [app responseBuffer set_responseBuffer].
  assert (H18 : 18 <= Buffer.length reply).
  { destruct (Z.le_gt_cases 18 (Buffer.length reply)) as [|Hlt]; [assumption|].
    unfold parseResponsePacket in Hparse. revert Hparse. case_ltb. discriminate. }
  destruct (List.length reply) as [|fuel] eqn:Hfuel;
    [unfold Buffer.length in H18; lia|].
  cbn [handleResponse_loop responseBuffer set_responseBuffer].
  case_ltb. rewrite Hparse. cbn [JS.bind].
  rewrite emit_response_buffer. cbn [responseBuffer set_responseBuffer].
  rewrite slice_from_drop by lia. rewrite Hlen.
  unfold Buffer.length at 1. rewrite Nat2Z.id, drop_all.
  rewrite emit_response_set_buffer.
  destruct fuel; cbn [handleResponse_loop responseBuffer set_responseBuffer];
    reflexivity.
Qed.

(** Requests sent one at a time are answered in their order. *)
Lemma serial_rounds rounds : forall c,
  client_inv c ->
  isConnected c = true ->
  responseBuffer c = [] ->
  (forall id, ~ pending c id) ->
  Forall (fun rd : Buffer.t * Buffer.t * PacketInfo =>
            rd.1.1 <> [] /\ is_reply rd.1.2 rd.2) rounds ->
  exists c',
    run c (serial rounds) = JS.Ok c'
    /\ forall i rd, rounds !! i = Some rd ->
         promises c' !! (requestId c + 1 + i)%nat
         = Some (Resolved (interpretResponse rd.2)).
Proof.
  induction rounds as [|rd rounds IH]; intros c Hinv Hconn Hbuf Hidle Hrounds.
  - exists c. split; [reflexivity|]. intros i rd H. discriminate H.
  - apply Forall_cons_1 in Hrounds as [[Hreq Hrd] Hrounds].
    destruct (sendPacket_connected c rd.1.1 Hconn)
      as (_ & _ & Hid1 & Hconn1 & Hbuf1 & Hpend1 & _).
    set (c1 := fst (sendPacket c rd.1.1)) in *.
    assert (Hinv1 : client_inv c1) by (apply client_inv_sendPacket; assumption).
    set (r := interpretResponse rd.2).
    set (c2 := set_responseBuffer (emit_response c1 r) []).
    assert (Hstep : handleResponse c1 rd.1.2 = JS.Ok c2)
      by (apply handleResponse_one_reply; [congruence | exact Hrd]).
    assert (Hinv2 : client_inv c2)
      by (apply client_inv_set_buffer, client_inv_emit_response, Hinv1).
    destruct (IH c2 Hinv2) as (c' & Hrun & Hres).
    + unfold c2. cbn [isConnected set_responseBuffer].
      rewrite emit_response_isConnected. exact Hconn1.
    + reflexivity.
    + intros id. apply (emit_response_clears c1 r id Hinv1).
    + exact Hrounds.
    + exists c'. split.
      * unfold serial. cbn [flat_map app].
        rewrite run_cons. cbn [step JS.bind].
        rewrite run_cons. cbn [step].
        fold c1. rewrite Hstep. cbn [JS.bind]. exact Hrun.
      * assert (Hid2 : requestId c2 = S (requestId c)).
        { unfold c2. cbn [requestId set_responseBuffer].
          rewrite emit_response_requestId. exact Hid1. }
        intros [|i] rd' Hi.
        -- injection Hi as <-.
           eapply run_stable; [exact Hrun|].
           unfold c2. cbn [promises set_responseBuffer].
           replace (requestId c + 1 + 0)%nat with (S (requestId c)) by lia.
           apply emit_response_resolves; assumption.
        -- replace (requestId c + 1 + S i)%nat with (requestId c2 + 1 + i)%nat by lia.
           apply Hres. exact Hi.
Qed.

Lemma client_inv_two_pending : client_inv two_pending.
Proof.
  unfold two_pending, connected_client, on_connect.
  apply client_inv_sendPacket; [apply frame_not_empty|].
  apply client_inv_sendPacket; [apply frame_not_empty|]. exact client_inv_new.
Qed.

(** C5, amended.  When the socket closes, no pending request is failed:
    the close listener clears [isConnected] and emits 'disconnected', and
    nothing else.  A request that was pending stays pending, with its
    entry, its listener and its timer; its promise is rejected with the
    timeout error when its timer fires, or resolved by a response that
    arrives before.  A request sent after the close is rejected at once
    as not connected. *)
Theorem close_leaves_requests_pending (c : Client) (id : nat) :
  client_inv c ->
  pending c id ->
  let c' := on_close c in
  isConnected c' = false
  /\ emitted c' = emitted c ++ [disconnected]
  /\ responseCallbacks c' = responseCallbacks c
  /\ promises c' = promises c
  /\ timers c' = timers c
  /\ promises c' !! id = None
  /\ id ∈ timers c'
  /\ promises (on_timeout c' id) !! id = Some (Rejected (JS.Error MSG_TIMEOUT))
  /\ (forall r, promises (emit_response c' r) !! id = Some (Resolved r))
  /\ (forall packet,
        snd (sendPacket c' packet) = RejectedNow (JS.Error MSG_NOT_CONNECTED)).
Proof.
  intros Hinv Hpend c'.
  destruct Hinv as (I1 & Hrest). destruct (I1 id Hpend) as (Hin & Hnone & Ht).
  do 5 (split; [reflexivity|]).
  split; [exact Hnone|]. split; [exact Ht|]. split; [|split].
  - unfold on_timeout. cbn [timers c' on_close emit set_isConnected].
    destruct (decide (id ∈ timers c)) as [_|Hn]; [|contradiction].
    cbn [promises]. apply settle_pending, Hnone.
  - intros r. apply emit_response_resolves; [|exact Hpend].
    exact (conj I1 Hrest).
  - intros packet. reflexivity.
Qed.

Lemma close_leaves_requests_pending_witness :
  client_inv two_pending
  /\ pending two_pending 2
  /\ promises (on_close two_pending) !! 2%nat = None
  /\ promises (on_timeout (on_close two_pending) 2) !! 2%nat
     = Some (Rejected (JS.Error MSG_TIMEOUT)).
Proof.
  assert (Hpend : pending two_pending 2) by (vm_compute; eauto).
  split; [exact client_inv_two_pending|]. split; [exact Hpend|].
  pose proof (close_leaves_requests_pending two_pending 2
                client_inv_two_pending Hpend) as H.
  cbv zeta in H.
  split; [exact (proj1 (proj2 (proj2 (proj2 (proj2 (proj2 H))))))|].
  exact (proj1 (proj2 (proj2 (proj2 (proj2 (proj2 (proj2 (proj2 H)))))))).
Defined.

(** C5 as it is written fails: with three requests pending when the socket
    closes, the three promises are still unsettled after the close, and
    each is rejected with the timeout error when its timer fires. *)
Lemma three_requests_wait_for_their_timeouts :
  (c <- run connected_client [Send request1; Send request2; Send request3; Close] ;;
   JS.Ok (isConnected c, promises c !! 1%nat, promises c !! 2%nat, promises c !! 3%nat))
  = JS.Ok (false, None, None, None)
  /\ (c <- run connected_client
            [Send request1; Send request2; Send request3; Close;
             Timeout 1; Timeout 2; Timeout 3] ;;
      JS.Ok (promises c !! 1%nat, promises c !! 2%nat, promises c !! 3%nat))
     = JS.Ok (Some (Rejected (JS.Error MSG_TIMEOUT)),
              Some (Rejected (JS.Error MSG_TIMEOUT)),
              Some (Rejected (JS.Error MSG_TIMEOUT))).
Proof. split; reflexivity. Qed.

(** C6, amended.  The client does not keep to one request on the wire: a
    connected client writes every packet it is given, also while earlier
    requests are pending.  A decoded response resolves every request
    that is pending at that moment, with that same response, and leaves
    none pending.  So the i-th request gets the i-th response when each
    request, a packet of at least one byte, is sent after the reply to
    the one before has arrived; of two requests sent before any reply,
    both get the first reply.  (With a packet that has no byte the log
    line of [sendPacket] throws, and the promise is rejected before any
    response.) *)
Theorem response_goes_to_every_pending_request (c : Client) :
  client_inv c ->
  (forall r id, pending c id -> promises (emit_response c r) !! id = Some (Resolved r))
  /\ (forall r id, ~ pending (emit_response c r) id)
  /\ (isConnected c = true ->
      forall packet,
        written (fst (sendPacket c packet)) = written c ++ [packet]
        /\ pending (fst (sendPacket c packet)) (S (requestId c))
        /\ forall id, pending c id -> pending (fst (sendPacket c packet)) id)
  /\ (isConnected c = true ->
      responseBuffer c = [] ->
      (forall id, ~ pending c id) ->
      forall rounds,
        Forall (fun rd : Buffer.t * Buffer.t * PacketInfo =>
                  rd.1.1 <> [] /\ is_reply rd.1.2 rd.2) rounds ->
        exists c',
          run c (serial rounds) = JS.Ok c'
          /\ forall i rd, rounds !! i = Some rd ->
               promises c' !! (requestId c + 1 + i)%nat
               = Some (Resolved (interpretResponse rd.2))).
Proof.
  intros Hinv. split; [|split; [|split]].
  - intros r id. apply emit_response_resolves, Hinv.
  - intros r id. apply emit_response_clears, Hinv.
  - intros Hconn packet.
    destruct (sendPacket_connected c packet Hconn) as (_ & H1 & _ & _ & _ & H2 & H3).
    split; [exact H1|]. split; [exact H2 | exact H3].
  - intros Hconn Hbuf Hidle rounds Hrounds.
    apply serial_rounds; assumption.
Qed.

Lemma response_goes_to_every_pending_request_witness :
  client_inv two_pending
  /\ pending two_pending 1
  /\ pending two_pending 2
  /\ promises (emit_response two_pending ack_ok) !! 1%nat = Some (Resolved ack_ok)
  /\ promises (emit_response two_pending ack_ok) !! 2%nat = Some (Resolved ack_ok).
Proof.
  assert (H1 : pending two_pending 1) by (vm_compute; eauto).
  assert (H2 : pending two_pending 2) by (vm_compute; eauto).
  split; [exact client_inv_two_pending|]. split; [exact H1|]. split; [exact H2|].
  pose proof (proj1 (response_goes_to_every_pending_request two_pending
                       client_inv_two_pending)) as H.
  split; [exact (H ack_ok 1%nat H1) | exact (H ack_ok 2%nat H2)].
Defined.

(** C6 as it is written fails: two requests are written before any reply;
    the agent replies with a success and then with a failure; both
    promises are resolved with the success, and the failure reaches no
    request. *)
Lemma second_request_gets_the_first_reply :
  (c <- run connected_client
          [Send request1; Send request2; Data (ack_frame 0); Data (ack_frame 1)] ;;
   JS.Ok (written c, promises c !! 1%nat, promises c !! 2%nat))
  = JS.Ok ([request1; request2], Some (Resolved ack_ok), Some (Resolved ack_ok))
  /\ (c <- handleResponse connected_client (ack_frame 1) ;; JS.Ok (emitted c))
     = JS.Ok [connected; response ack_failed]
  /\ ack_ok <> ack_failed.
Proof. split; [reflexivity | split; [reflexivity | discriminate]]. Qed.

End RequestClaims.

(** ** The claims on the effects *)

Section EffectClaims.

Import LCSController.

Lemma fadeControl_trace (ctl : Controller) (masterAddr cuAddr lampNo : Z)
  (startBrightness endBrightness duration : float) (rest : list Outcome) :
  isConnected ctl = true ->
  exec (fadeControl ctl masterAddr cuAddr lampNo startBrightness endBrightness duration)
    (repeat Fulfilled 21 ++ rest)
  = (fade_trace masterAddr cuAddr lampNo startBrightness endBrightness duration,
     Completed).
Proof.
  intros Hc. unfold fadeControl. rewrite Hc. cbv iota beta delta [negb].
  reflexivity.
Qed.

(** The loop of [fadeControl] leaves by its test [i <= steps]: fuel beyond
    the tests that it makes changes nothing. *)
Lemma fadeControl_for_more_fuel (extra : nat) (masterAddr cuAddr lampNo : Z)
  (startBrightness stepSize stepDuration : float) :
  forall (fuel : nat) (i : Z),
    (Z.to_nat (steps + 1 - i) < fuel)%nat ->
    fadeControl_for (fuel + extra) masterAddr cuAddr lampNo
      startBrightness stepSize stepDuration i
    = fadeControl_for fuel masterAddr cuAddr lampNo
        startBrightness stepSize stepDuration i.
Proof.
  induction fuel as [|fuel IH]; intros i Hfuel; [lia|].
  cbn [Nat.add fadeControl_for].
  destruct (Z.leb_spec i steps) as [Hi|Hi]; [|reflexivity].
  rewrite IH by lia. reflexivity.
Qed.

Lemma fadeControl_for_fuel (extra : nat) (masterAddr cuAddr lampNo : Z)
  (startBrightness stepSize stepDuration : float) :
  fadeControl_for (Z.to_nat steps + 2 + extra) masterAddr cuAddr lampNo
    startBrightness stepSize stepDuration 0
  = fadeControl_for (Z.to_nat steps + 2) masterAddr cuAddr lampNo
      startBrightness stepSize stepDuration 0.
Proof. apply fadeControl_for_more_fuel. unfold steps. lia. Qed.

Lemma brightness_values_fade_trace masterAddr cuAddr lampNo startBrightness
  endBrightness duration :
  brightness_values
    (fade_trace masterAddr cuAddr lampNo startBrightness endBrightness duration)
  = map (currentBrightness startBrightness endBrightness) (seqZ 0 21).
Proof. reflexivity. Qed.

(** [Math.round] on a few numbers: a half goes up, also below zero, and
    the largest number below one half goes to 0 *)
Example Math_round_examples :
  map Math_round [0.5; 1.5; 2.5; -0.5; -1.5; -2.5; 0x1.fffffffffffffp-2; 100; 0]%float
  = [1; 2; 3; 0; -1; -2; 0; 100; 0].
Proof. reflexivity. Qed.

(** The command of a task is the call [this.controlLamp(...)]: on a
    connected controller it writes the frame of [controlLampDimming] to
    the socket and returns the promise of a new request. *)
Lemma controlLamp_writes_the_dimming_frame (ctl : Controller)
  (masterAddr cuAddr lampNo brightness : Z) :
  isConnected ctl = true ->
  LCSTcpClient.isConnected (client ctl) = true ->
  snd (controlLamp ctl masterAddr cuAddr lampNo brightness)
  = LCSTcpClient.Of (S (LCSTcpClient.requestId (client ctl)))
  /\ LCSTcpClient.written
       (client (fst (controlLamp ctl masterAddr cuAddr lampNo brightness)))
     = LCSTcpClient.written (client ctl)
         ++ [frame [0x13; masterAddr; cuAddr; 0; 0] 0x92 0x00
               [JS.toUint8 cuAddr; JS.toUint8 lampNo; 0; JS.toUint8 brightness]].
Proof.
  intros Hc Hcc. unfold controlLamp, LCSTcpClient.controlLamp.
  rewrite Hc, controlLampDimming_frame. cbn [negb LCSTcpClient.send_built].
  unfold LCSTcpClient.sendPacket. rewrite Hcc. cbn [negb fst snd client].
  split; reflexivity.
Qed.

(** the comparison, run on every pair of integers of [0, 100] *)
Lemma fade_agrees_all :
  forallb (fun s => forallb (fun e => fade_agrees s e) (seqZ 0 101)) (seqZ 0 101) = true.
Proof. vm_compute. reflexivity. Qed.

Lemma fade_values_on_integers (s e : Z) :
  0 <= s <= 100 -> 0 <= e <= 100 ->
  map (currentBrightness (of_Z s) (of_Z e)) (seqZ 0 21)
  = map (fun i => Spec.fade_value s e i - fade_shortfall s e i) (seqZ 0 21).
Proof.
  intros Hs He. pose proof fade_agrees_all as H.
  rewrite forallb_forall in H.
  assert (Hins : In s (seqZ 0 101)) by (apply list_elem_of_In, elem_of_seqZ; lia).
  specialize (H s Hins). rewrite forallb_forall in H.
  assert (Hine : In e (seqZ 0 101)) by (apply list_elem_of_In, elem_of_seqZ; lia).
  specialize (H e Hine). unfold fade_agrees in H. rewrite forallb_forall in H.
  apply map_ext_in. intros i Hi. apply Z.eqb_eq, H, Hi.
Qed.

(** C8, amended.  On a connected controller whose commands are all
    acknowledged, [fadeControl] issues exactly 21 dim-single-lamp
    commands, one for each i of 0..20, with a sleep of
    [duration * 1000 / 20] ms after each but the last.  The brightness at
    step i is [Math.round(start + ((end - start) / 20) * i)], computed in
    double precision with the step size divided first.  For integers
    start and end of [0, 100] it is [round(start + (end - start) * i / 20)]
    but for step 15 of the fades 0 to 82, 1 to 83 and 2 to 84, where it
    is one less.  From 0 to 100 the values are [0, 5, 10, ..., 100]. *)
Theorem fadeControl_commands (ctl : Controller) (masterAddr cuAddr lampNo : Z)
  (s e : Z) (duration : float) (rest : list Outcome) :
  isConnected ctl = true ->
  0 <= s <= 100 ->
  0 <= e <= 100 ->
  exec (fadeControl ctl masterAddr cuAddr lampNo (of_Z s) (of_Z e) duration)
    (repeat Fulfilled 21 ++ rest)
  = (fade_trace masterAddr cuAddr lampNo (of_Z s) (of_Z e) duration, Completed)
  /\ List.length
       (brightness_values
          (fade_trace masterAddr cuAddr lampNo (of_Z s) (of_Z e) duration)) = 21%nat
  /\ brightness_values (fade_trace masterAddr cuAddr lampNo (of_Z s) (of_Z e) duration)
     = map (fun i => Spec.fade_value s e i - fade_shortfall s e i) (seqZ 0 21)
  /\ brightness_values (fade_trace masterAddr cuAddr lampNo (of_Z 0) (of_Z 100) 1)
     = [0; 5; 10; 15; 20; 25; 30; 35; 40; 45; 50; 55; 60; 65; 70; 75; 80; 85; 90;
        95; 100].
Proof.
  intros Hc Hs He.
  split; [apply fadeControl_trace, Hc|]. split; [reflexivity|]. split.
  - rewrite brightness_values_fade_trace. apply fade_values_on_integers; assumption.
  - reflexivity.
Qed.

Lemma fadeControl_commands_witness :
  (isConnected connected_controller = true /\ 0 <= 0 <= 100 /\ 0 <= 100 <= 100)
  /\ exec (fadeControl connected_controller 1 1 5 (of_Z 0) (of_Z 100) 1)
       (repeat Fulfilled 21 ++ [])
     = (fade_trace 1 1 5 (of_Z 0) (of_Z 100) 1, Completed).
Proof.
  assert (Hc : isConnected connected_controller = true) by reflexivity.
  assert (H0 : 0 <= 0 <= 100) by lia.
  assert (H100 : 0 <= 100 <= 100) by lia.
  split; [split; [exact Hc | split; assumption]|].
  exact (proj1 (fadeControl_commands connected_controller 1 1 5 0 100 1 []
                  Hc H0 H100)).
Defined.

(** C8 as it is written fails: at step 15 of a fade from 0 to 82 the
    command carries 61, and [round(0 + 82 * 15 / 20)] is 62. *)
Lemma fade_0_to_82_sends_61_at_step_15 :
  brightness_values
    (fst (exec (fadeControl connected_controller 1 1 5 (of_Z 0) (of_Z 82) 1)
            (repeat Fulfilled 21))) !! 15%nat = Some 61
  /\ Spec.fade_value 0 82 15 = 62.
Proof. split; reflexivity. Qed.

(** C9.  On a connected controller whose commands are all acknowledged,
    [waveEffect] issues one dim-single-lamp command for each lamp of the
    list, in the order of the list, and sleeps [interval] ms after every
    one of them: after the last command too, so that what it does last,
    for a list that is not empty, is a sleep. *)
Theorem waveEffect_sleeps_after_every_command (ctl : Controller)
  (masterAddr cuAddr : Z) (lampList : list Z) (brightness : Z) (interval : float)
  (rest : list Outcome) :
  isConnected ctl = true ->
  exec (waveEffect ctl masterAddr cuAddr lampList brightness interval)
    (repeat Fulfilled (List.length lampList) ++ rest)
  = (wave_trace masterAddr cuAddr lampList brightness interval, Completed)
  /\ lamps (wave_trace masterAddr cuAddr lampList brightness interval) = lampList
  /\ (lampList <> [] ->
      last (wave_trace masterAddr cuAddr lampList brightness interval)
      = Some (Sleep interval)).
Proof.
  intros Hc. unfold waveEffect. rewrite Hc. cbv iota beta delta [negb].
  split; [|split].
  - induction lampList as [|lampNo lampList IH]; [reflexivity|].
    cbn [waveEffect_for List.length repeat app exec wave_trace flat_map].
    rewrite IH. reflexivity.
  - induction lampList as [|lampNo lampList IH]; [reflexivity|].
    cbn [wave_trace flat_map app lamps]. f_equal. exact IH.
  - induction lampList as [|lampNo lampList IH]; [congruence|]. intros _.
    destruct lampList as [|next lampList]; [reflexivity|].
    cbn [wave_trace flat_map app] in *.
    rewrite !last_cons_cons. rewrite !last_cons_cons in IH.
    apply IH. discriminate.
Qed.

Lemma waveEffect_sleeps_after_every_command_witness :
  isConnected connected_controller = true
  /\ exec (waveEffect connected_controller 1 1 [1; 2] 50 500)
       (repeat Fulfilled (List.length [1; 2]) ++ [])
     = ([ControlLamp 1 1 1 50; Sleep 500; ControlLamp 1 1 2 50; Sleep 500], Completed).
Proof.
  assert (Hc : isConnected connected_controller = true) by reflexivity.
  split; [exact Hc|].
  exact (proj1 (waveEffect_sleeps_after_every_command connected_controller
                  1 1 [1; 2] 50 500 [] Hc)).
Defined.

End EffectClaims.

(** ** The claims on the agent manager *)

Section ManagerClaims.

Import LCSAgentManager.

Lemma keys_delete {V} (m : Map.t V) (k : string) :
  Map.keys (Map.delete m k)
  = List.filter (fun k' => negb (String.eqb k' k)) (Map.keys m).
Proof.
  unfold Map.keys, Map.delete.
  induction m as [|[k' v] m IH]; [reflexivity|].
  cbn [List.filter map fst]. destruct (String.eqb k' k); cbn [negb map fst].
  - exact IH.
  - f_equal. exact IH.
Qed.

(** a new key goes behind the keys that are there *)
Lemma keys_set_new {V} (m : Map.t V) (k : string) (v : V) :
  Map.has m k = false -> Map.keys (Map.set m k v) = Map.keys m ++ [k].
Proof.
  unfold Map.has, Map.get, Map.keys.
  induction m as [|[k' v'] m IH]; [reflexivity|].
  cbn [List.find Map.set fst map app]. destruct (String.eqb k' k) eqn:E.
  - discriminate.
  - intros H. cbn [map fst]. f_equal. apply IH, H.
Qed.

Lemma first_key (l : list string) :
  (if (0 <? List.length l)%nat then l !! 0%nat else None) = head l.
Proof. destruct l; reflexivity. Qed.

(** C7.  [removeAgent] of the agent that is the default deletes it and
    makes the first of the remaining agents, in the order in which they
    were added, the default; the default is null when none remains.
    After [addAgent("a")], [addAgent("b")] and [removeAgent("a")] the
    default is "b", and after [removeAgent("b")] it is null. *)
Theorem removeAgent_promotes_the_oldest (m : Manager) (agentId : string) :
  defaultAgentId m = Some agentId ->
  Map.has (agents m) agentId = true ->
  snd (removeAgent m agentId) = true
  /\ Map.keys (agents (fst (removeAgent m agentId)))
     = List.filter (fun k => negb (String.eqb k agentId)) (Map.keys (agents m))
  /\ defaultAgentId (fst (removeAgent m agentId))
     = head (Map.keys (agents (fst (removeAgent m agentId))))
  /\ (forall ok1 ok2,
        (ma <- addAgent new "a" "10.0.0.1" 1000 None ok1 ;;
         mb <- addAgent (fst ma) "b" "10.0.0.2" 1000 None ok2 ;;
         let m1 := fst (removeAgent (fst mb) "a") in
         let m2 := fst (removeAgent m1 "b") in
         JS.Ok (defaultAgentId (fst mb), defaultAgentId m1, defaultAgentId m2))
        = JS.Ok (Some "a", Some "b", None)).
Proof.
  intros Hdef Hhas. unfold removeAgent.
  unfold Map.has in Hhas.
  destruct (Map.get (agents m) agentId) as [controller|]; [|discriminate Hhas].
  cbn [fst snd agents defaultAgentId].
  rewrite Hdef. cbn [strict_eq]. rewrite String.eqb_refl.
  split; [reflexivity|]. split; [apply keys_delete|]. split; [apply first_key|].
  intros [] []; reflexivity.
Qed.

Lemma removeAgent_promotes_the_oldest_witness :
  (defaultAgentId two_agents = Some "a" /\ Map.has (agents two_agents) "a" = true)
  /\ Map.keys (agents two_agents) = ["a"; "b"]
  /\ defaultAgentId (fst (removeAgent two_agents "a"))
     = head (Map.keys (agents (fst (removeAgent two_agents "a")))).
Proof.
  assert (Hdef : defaultAgentId two_agents = Some "a") by reflexivity.
  assert (Hhas : Map.has (agents two_agents) "a" = true) by reflexivity.
  split; [split; assumption|]. split; [reflexivity|].
  exact (proj1 (proj2 (proj2 (removeAgent_promotes_the_oldest two_agents "a"
                                Hdef Hhas)))).
Defined.

End ManagerClaims.

(** * Further properties *)

Section BuilderFrames.

Import LCSPacketBuilder.

Lemma controlLampBlock_frame masterAddr cuAddr lampList brightness :
  Z.of_nat (List.length lampList) + 21 <= 65535 ->
  controlLampBlock masterAddr cuAddr lampList brightness
  = JS.Ok (frame [0x13; masterAddr; cuAddr; 0; 0] 0x90 0x00
             (block_data cuAddr lampList brightness)).
Proof.
  intros Hn. unfold controlLampBlock. rewrite block_data_built.
  apply buildPacket_frame; [reflexivity | apply block_data_wf |].
  rewrite block_data_length. lia.
Qed.

Lemma controlLampColorTemp_frame masterAddr cuAddr lampList colorTemp :
  Z.of_nat (List.length lampList) + 21 <= 65535 ->
  controlLampColorTemp masterAddr cuAddr lampList colorTemp
  = JS.Ok (frame [0x13; masterAddr; cuAddr; 0; 0] 0x90 0x05
             (block_data cuAddr lampList colorTemp)).
Proof.
  intros Hn. unfold controlLampColorTemp. rewrite block_data_built.
  apply buildPacket_frame; [reflexivity | apply block_data_wf |].
  rewrite block_data_length. lia.
Qed.

Lemma executeScene_frame masterAddr cuAddr sceneNo fadeTime :
  executeScene masterAddr cuAddr sceneNo fadeTime
  = JS.Ok (frame [0x13; masterAddr; cuAddr; 0; 0] 0x91 0x00
             [JS.toUint8 cuAddr; JS.toUint8 sceneNo; JS.toUint8 fadeTime]).
Proof.
  apply buildPacket_frame;
    [reflexivity | apply (from_wf [cuAddr; sceneNo; fadeTime]) | vm_compute; discriminate].
Qed.

Lemma controlAllLamps_frame masterAddr cuAddr brightness :
  controlAllLamps masterAddr cuAddr brightness
  = JS.Ok (frame [0x13; masterAddr; cuAddr; 0; 0] 0x90 0x02
             [JS.toUint8 cuAddr; JS.toUint8 brightness]).
Proof.
  apply buildPacket_frame;
    [reflexivity | apply (from_wf [cuAddr; brightness]) | vm_compute; discriminate].
Qed.

Lemma getLampBrightness_frame masterAddr cuAddr deviceType :
  getLampBrightness masterAddr cuAddr deviceType
  = JS.Ok (frame [default 0 (deviceTypeMap deviceType); masterAddr; cuAddr; 0; 0]
             0x96 0x00 []).
Proof.
  apply buildPacket_frame; [reflexivity | constructor | vm_compute; discriminate].
Qed.

Lemma getLampColorTemperature_frame masterAddr cuAddr :
  getLampColorTemperature masterAddr cuAddr
  = JS.Ok (frame [0x13; masterAddr; cuAddr; 0; 0] 0x96 0x06 []).
Proof.
  apply buildPacket_frame; [reflexivity | constructor | vm_compute; discriminate].
Qed.

Lemma getDeviceName_frame :
  getDeviceName = JS.Ok (frame [0x13; 0; 0; 0; 0] 0xa2 0x05 []).
Proof.
  apply buildPacket_frame; [reflexivity | constructor | vm_compute; discriminate].
Qed.

End BuilderFrames.

Section DecoderStream.

Import LCSTcpClient.

(** what [parseResponsePacket] has tested when it returns a packet, and
    what the packet is *)
Lemma parseResponsePacket_complete_inv (buffer : Buffer.t) (p : PacketInfo) :
  parseResponsePacket buffer = JS.Ok (Complete p) ->
  let L := nth 1 buffer 0 + 256 * nth 2 buffer 0 in
  18 <= Buffer.length buffer
  /\ Buffer.get buffer 0 = Some 0x02
  /\ 3 <= L <= Buffer.length buffer
  /\ Buffer.get buffer (L - 1) = Some 0x03
  /\ p = {| totalLength := L;
            destAddr := Buffer.slice buffer 3 8;
            srcAddr := Buffer.slice buffer 8 13;
            op1 := Buffer.get buffer 13;
            op2 := Buffer.get buffer 14;
            data := Buffer.slice buffer 15 (15 + (L - 18));
            bcc := nth (Z.to_nat (15 + (L - 18))) buffer 0
                   + 256 * nth (Z.to_nat (15 + (L - 18)) + 1) buffer 0 |}.
Proof.
  intros H L. unfold parseResponsePacket in H. revert H.
  case_ltb; [discriminate|].
  destruct (strict_ne (Buffer.get buffer 0) 2) eqn:Hstx; [discriminate|].
  rewrite readUInt16LE_ok by lia. cbn [JS.bind].
  change (Z.to_nat 1) with 1%nat. change (1 + 1)%nat with 2%nat. fold L.
  case_ltb; [discriminate|].
  destruct (strict_ne (Buffer.get buffer (L - 1)) 3) eqn:Hetx; [discriminate|].
  apply strict_ne_false in Hstx, Hetx.
  unfold Buffer.readUInt16LE.
  destruct (Z.ltb_spec (15 + (L - 18)) 0) as [Hneg|Hpos]; [discriminate|].
  destruct (Z.ltb_spec (Buffer.length buffer) (15 + (L - 18) + 2)) as [Hbig|Hfit];
    [discriminate|].
  cbn [orb JS.bind]. intros Hp. injection Hp as <-.
  repeat split; try assumption; lia.
Qed.

Lemma parseResponsePacket_complete_intro (buffer : Buffer.t) :
  let L := nth 1 buffer 0 + 256 * nth 2 buffer 0 in
  18 <= Buffer.length buffer ->
  Buffer.get buffer 0 = Some 0x02 ->
  3 <= L <= Buffer.length buffer ->
  Buffer.get buffer (L - 1) = Some 0x03 ->
  parseResponsePacket buffer
  = JS.Ok (Complete
             {| totalLength := L;
                destAddr := Buffer.slice buffer 3 8;
                srcAddr := Buffer.slice buffer 8 13;
                op1 := Buffer.get buffer 13;
                op2 := Buffer.get buffer 14;
                data := Buffer.slice buffer 15 (15 + (L - 18));
                bcc := nth (Z.to_nat (15 + (L - 18))) buffer 0
                       + 256 * nth (Z.to_nat (15 + (L - 18)) + 1) buffer 0 |}).
Proof.
  intros L Hlen Hstx HL Hetx. unfold parseResponsePacket.
  case_ltb. rewrite Hstx. cbn [strict_ne Z.eqb Pos.eqb negb].
  rewrite readUInt16LE_ok by lia. cbn [JS.bind].
  change (Z.to_nat 1) with 1%nat. change (1 + 1)%nat with 2%nat. fold L.
  case_ltb. rewrite Hetx. cbn [strict_ne Z.eqb Pos.eqb negb].
  rewrite readUInt16LE_ok by lia. reflexivity.
Qed.

Lemma slice_app_l (b more : Buffer.t) start end_ :
  0 <= start <= Buffer.length b -> 0 <= end_ <= Buffer.length b ->
  Buffer.slice (b ++ more) start end_ = Buffer.slice b start end_.
Proof.
  intros Hs He. unfold Buffer.slice, Buffer.clamp, Buffer.length in *.
  rewrite length_app. repeat case_ltb.
  rewrite !Z.min_l by lia.
  rewrite drop_app_le by lia.
  rewrite take_app_le; [reflexivity|]. rewrite length_drop. lia.
Qed.

Lemma nth_app_l (b more : Buffer.t) (i : nat) :
  (i < List.length b)%nat -> nth i (b ++ more) 0 = nth i b 0.
Proof. intros H. apply app_nth1, H. Qed.

(** a packet found in a buffer is found in every longer buffer *)
Lemma parseResponsePacket_app (b more : Buffer.t) (p : PacketInfo) :
  parseResponsePacket b = JS.Ok (Complete p) ->
  parseResponsePacket (b ++ more) = JS.Ok (Complete p).
Proof.
  intros H. apply parseResponsePacket_complete_inv in H.
  cbv zeta in H. destruct H as (Hlen & Hstx & HL & Hetx & ->).
  assert (Hlen' : Buffer.length (b ++ more) = Buffer.length b + Buffer.length more)
    by (unfold Buffer.length; rewrite length_app; lia).
  assert (0 <= Buffer.length more) by (unfold Buffer.length; lia).
  assert (Hn : (18 <= List.length b)%nat) by (unfold Buffer.length in Hlen; lia).
  rewrite (parseResponsePacket_complete_intro (b ++ more));
    rewrite ?nth_app_l by lia; rewrite ?get_app_l by lia; try assumption; try lia.
  do 2 f_equal.
  rewrite !slice_app_l by lia.
  rewrite !nth_app_l by (unfold Buffer.length in *; lia).
  reflexivity.
Qed.


(** [decodes] is a function of the buffer *)
Lemma decodes_fun (buffer : Buffer.t) rs rest :
  decodes buffer rs rest ->
  forall rs' rest', decodes buffer rs' rest' -> rs = rs' /\ rest = rest'.
Proof.
  induction 1 as [b Hlen | b Hlen Hp | b p rs rest Hlen Hp Hd IH];
    intros rs' rest' H'; inversion H'; subst; try (split; reflexivity); try lia;
    try congruence.
  match goal with
  | Hq : parseResponsePacket b = JS.Ok (Complete ?q) |- _ =>
      assert (q = p) by congruence; subst q
  end.
  match goal with
  | Hd' : decodes _ ?rs0 rest' |- _ => destruct (IH _ _ Hd') as [-> ->]
  end.
  split; reflexivity.
Qed.

(** what is left is the end of the buffer *)
Lemma decodes_wf (buffer : Buffer.t) rs rest :
  decodes buffer rs rest -> Buffer.wf buffer -> Buffer.wf rest.
Proof.
  induction 1 as [b Hlen | b Hlen Hp | b p rs rest Hlen Hp Hd IH]; intros Hwf;
    try exact Hwf.
  apply IH. apply Forall_drop, Hwf.
Qed.

(** reading on: what was decoded stays decoded when more bytes follow *)
Lemma decodes_app (buffer : Buffer.t) rs rest :
  decodes buffer rs rest ->
  forall more rs2 rest2,
    decodes (rest ++ more) rs2 rest2 ->
    decodes (buffer ++ more) (rs ++ rs2) rest2.
Proof.
  induction 1 as [b Hlen | b Hlen Hp | b p rs rest Hlen Hp Hd IH];
    intros more rs2 rest2 H2; try exact H2.
  pose proof (parseResponsePacket_complete_inv b p Hp) as Hinv.
  cbv zeta in Hinv. destruct Hinv as (_ & _ & HL & _ & Hpeq).
  assert (HLp : 3 <= totalLength p <= Buffer.length b)
    by (rewrite Hpeq; cbn [totalLength]; exact HL).
  cbn [app]. apply decodes_packet.
  - unfold Buffer.length in *. rewrite length_app. lia.
  - apply parseResponsePacket_app, Hp.
  - rewrite drop_app_le by (unfold Buffer.length in HLp; lia).
    apply IH, H2.
Qed.

(** [handleResponse], by [decodes] *)
Lemma handleResponse_decodes (c : Client) (chunk : Buffer.t) :
  Buffer.wf (responseBuffer c) ->
  Buffer.wf chunk ->
  exists responses rest,
    decodes (responseBuffer c ++ chunk) responses rest
    /\ handleResponse c chunk
       = JS.Ok (set_responseBuffer (emit_responses c responses) rest).
Proof.
  intros Hwf Hchunk. unfold handleResponse, Buffer.concat.
  destruct (handleResponse_loop_decodes
              (List.length (responseBuffer c ++ chunk))
              (set_responseBuffer c (responseBuffer c ++ chunk)))
    as (rs & rest & Hdec & Hloop).
  - cbn [responseBuffer set_responseBuffer]. apply Forall_app. split; assumption.
  - cbn [responseBuffer set_responseBuffer]. lia.
  - exists rs, rest. split; [exact Hdec|].
    cbn [responseBuffer set_responseBuffer] in *. rewrite Hloop.
    rewrite emit_responses_set_buffer. reflexivity.
Qed.

Lemma emit_responses_buffer rs : forall c,
  responseBuffer (emit_responses c rs) = responseBuffer c.
Proof.
  unfold emit_responses. induction rs as [|r rs IH]; intros c; [reflexivity|].
  cbn [fold_left]. rewrite IH. apply emit_response_buffer.
Qed.

Lemma emit_responses_app c rs1 rs2 :
  emit_responses c (rs1 ++ rs2) = emit_responses (emit_responses c rs1) rs2.
Proof. unfold emit_responses. apply fold_left_app. Qed.

Lemma handleResponse_app (c : Client) (a b : Buffer.t) :
  Buffer.wf (responseBuffer c) -> Buffer.wf a -> Buffer.wf b ->
  (c' <- handleResponse c a ;; handleResponse c' b) = handleResponse c (a ++ b).
Proof.
  intros Hwf Ha Hb.
  destruct (handleResponse_decodes c a Hwf Ha) as (rs1 & rest1 & Hd1 & ->).
  cbn [JS.bind].
  set (c1 := set_responseBuffer (emit_responses c rs1) rest1).
  assert (Hwf1 : Buffer.wf (responseBuffer c1)).
  { cbn [c1 responseBuffer set_responseBuffer].
    eapply decodes_wf; [exact Hd1|]. apply Forall_app. split; assumption. }
  destruct (handleResponse_decodes c1 b Hwf1 Hb) as (rs2 & rest2 & Hd2 & ->).
  destruct (handleResponse_decodes c (a ++ b) Hwf) as (rs & rest & Hd & ->);
    [apply Forall_app; split; assumption|].
  cbn [c1 responseBuffer set_responseBuffer] in Hd2.
  pose proof (decodes_app _ _ _ Hd1 _ _ _ Hd2) as Hd12.
  rewrite <- app_assoc in Hd12.
  destruct (decodes_fun _ _ _ Hd _ _ Hd12) as [-> ->].
  f_equal. unfold c1. rewrite emit_responses_set_buffer.
  rewrite emit_responses_app. reflexivity.
Qed.

(** X1.  TCP segmentation.  However the bytes that arrive are cut into
    'data' events, the client ends as if they had arrived in one event:
    the same responses are emitted in the same order, the same requests
    are resolved, and the same bytes are left in the buffer. *)
Theorem handleResponse_any_segmentation (c : Client) (chunk : Buffer.t)
  (chunks : list Buffer.t) :
  Buffer.wf (responseBuffer c) ->
  Buffer.wf chunk ->
  Forall Buffer.wf chunks ->
  run c (map Data (chunk :: chunks)) = handleResponse c (chunk ++ concat chunks).
Proof.
  intros Hwf Hchunk Hchunks. revert c chunk Hwf Hchunk.
  induction Hchunks as [|next chunks Hnext Hchunks IH]; intros c chunk Hwf Hchunk.
  - cbn [map run step concat]. rewrite app_nil_r.
    destruct (handleResponse c chunk); reflexivity.
  - change (map Data (chunk :: next :: chunks))
      with (Data chunk :: map Data (next :: chunks)).
    rewrite run_cons. cbn [step concat].
    assert (Hrest : Buffer.wf (next ++ concat chunks)).
    { apply Forall_app_2; [exact Hnext|]. apply Forall_concat. exact Hchunks. }
    rewrite <- handleResponse_app by assumption.
    destruct (handleResponse_decodes c chunk Hwf Hchunk) as (rs1 & rest1 & Hd1 & ->).
    cbn [JS.bind]. apply IH; [|exact Hnext].
    cbn [responseBuffer set_responseBuffer].
    eapply decodes_wf; [exact Hd1|]. apply Forall_app. split; assumption.
Qed.


Lemma le16_read (v : Z) : v mod 256 + 256 * (v / 256) = v.
Proof. pose proof (Z.div_mod v 256). lia. Qed.

(** X2.  The layout that the decoder reads.  A buffer that begins with a
    packet laid out as STX, the total length little-endian, the two
    addresses, the two operation codes, the data, two BCC bytes and ETX
    is decoded to these fields.  The BCC bytes are returned as they are:
    they are compared with nothing.  What follows the packet in the
    buffer is not looked at. *)
Theorem parseResponsePacket_of_response_frame (destAddr srcAddr : list Z)
  (op1 op2 : Z) (data : Buffer.t) (bcc : Z) (rest : Buffer.t) :
  List.length destAddr = 5%nat ->
  List.length srcAddr = 5%nat ->
  Buffer.wf (response_frame destAddr srcAddr op1 op2 data bcc ++ rest) ->
  parseResponsePacket (response_frame destAddr srcAddr op1 op2 data bcc ++ rest)
  = JS.Ok (Complete {| totalLength := 18 + Buffer.length data;
                       LCSTcpClient.destAddr := destAddr;
                       LCSTcpClient.srcAddr := srcAddr;
                       LCSTcpClient.op1 := Some op1;
                       LCSTcpClient.op2 := Some op2;
                       LCSTcpClient.data := data;
                       LCSTcpClient.bcc := bcc |}).
Proof.
  intros Hd Hs _.
  set (n := Buffer.length data).
  assert (Hn : 0 <= n) by (unfold n, Buffer.length; lia).
  set (buffer := response_frame destAddr srcAddr op1 op2 data bcc ++ rest).
  assert (Hlen : Buffer.length buffer = 18 + n + Buffer.length rest).
  { unfold n, buffer, response_frame, Buffer.length.
    rewrite !length_app, Hd, Hs. cbn [List.length Spec.le16]. lia. }
  assert (Hr : 0 <= Buffer.length rest) by (unfold Buffer.length; lia).
  assert (HL : nth 1 buffer 0 + 256 * nth 2 buffer 0 = 18 + n)
    by (unfold buffer, response_frame; cbn [app Spec.le16 nth]; apply le16_read).
  (* the buffer, cut at each field *)
  assert (Hcut : buffer
                 = ([0x02] ++ Spec.le16 (18 + n)) ++ destAddr ++ srcAddr
                     ++ [op1] ++ [op2] ++ data ++ Spec.le16 bcc ++ [0x03] ++ rest).
  { unfold buffer, response_frame. fold n. rewrite <- !app_assoc. reflexivity. }
  rewrite (parseResponsePacket_complete_intro buffer); rewrite ?HL; try lia.
  - do 2 f_equal. f_equal.
    + rewrite Hcut. apply slice_mid; [reflexivity | rewrite Hd; reflexivity].
    + rewrite Hcut, (app_assoc _ destAddr). apply slice_mid.
      * rewrite length_app, Hd. reflexivity.
      * rewrite Hs. lia.
    + rewrite Hcut, (app_assoc _ destAddr), (app_assoc _ srcAddr).
      replace 13 with (Z.of_nat (List.length (([2] ++ Spec.le16 (18 + n))
                                                ++ destAddr ++ srcAddr)))
        by (rewrite !length_app, Hd, Hs; reflexivity).
      apply get_app_r.
    + rewrite Hcut, (app_assoc _ destAddr), (app_assoc _ srcAddr), (app_assoc _ [op1]).
      replace 14 with (Z.of_nat (List.length (((([2] ++ Spec.le16 (18 + n))
                                                  ++ destAddr) ++ srcAddr) ++ [op1])))
        by (rewrite !length_app, Hd, Hs; reflexivity).
      apply get_app_r.
    + rewrite Hcut, (app_assoc _ destAddr), (app_assoc _ srcAddr), (app_assoc _ [op1]),
        (app_assoc _ [op2]).
      apply slice_mid.
      * rewrite !length_app, Hd, Hs. reflexivity.
      * fold (Buffer.length data). fold n. lia.
    + rewrite Hcut, (app_assoc _ destAddr), (app_assoc _ srcAddr), (app_assoc _ [op1]),
        (app_assoc _ [op2]), (app_assoc _ data).
      set (pre := ((((([2] ++ Spec.le16 (18 + n)) ++ destAddr) ++ srcAddr)
                      ++ [op1]) ++ [op2]) ++ data).
      assert (Hpre : Z.to_nat (15 + (18 + n - 18)) = List.length pre).
      { unfold pre. rewrite !length_app, Hd, Hs. cbn [List.length Spec.le16].
        unfold n, Buffer.length. lia. }
      rewrite Hpre.
      rewrite (app_nth2 pre _ 0 (Nat.le_refl _)).
      rewrite (app_nth2 pre _ 0 (Nat.le_add_r _ 1)).
      replace (List.length pre - List.length pre)%nat with 0%nat by lia.
      replace (List.length pre + 1 - List.length pre)%nat with 1%nat by lia.
      cbn [Spec.le16 app nth]. apply le16_read.
  - reflexivity.
  - rewrite Hcut.
    rewrite (app_assoc _ destAddr), (app_assoc _ srcAddr), (app_assoc _ [op1]),
      (app_assoc _ [op2]), (app_assoc _ data), (app_assoc _ (Spec.le16 bcc)).
    match goal with
    | |- Buffer.get (?pre ++ _) _ = _ =>
        replace (18 + n - 1) with (Z.of_nat (List.length pre))
          by (rewrite !length_app, Hd, Hs; cbn [List.length Spec.le16];
              unfold n, Buffer.length; lia)
    end.
    apply get_app_r.
Qed.


Lemma slice_length (b : Buffer.t) start end_ :
  0 <= start -> 0 <= end_ <= Buffer.length b ->
  Buffer.length (Buffer.slice b start end_) = Z.max 0 (end_ - start).
Proof.
  intros Hs He. unfold Buffer.slice, Buffer.clamp, Buffer.length in *.
  repeat case_ltb. rewrite length_take, length_drop. lia.
Qed.

(** X3.  [parseResponsePacket] does not throw, whatever bytes the buffer
    holds, and it looks at no byte outside the buffer: a packet that it
    returns lies within the buffer, its addresses have 5 bytes, its operation codes are bytes of
    the buffer and its data has the declared length less 18; a declared
    length below 18 is taken as it is, the least being 4, and the data
    is then empty. *)
Theorem parseResponsePacket_never_throws (buffer : Buffer.t) :
  Buffer.wf buffer ->
  (parseResponsePacket buffer = JS.Ok Incomplete
   \/ exists p,
        parseResponsePacket buffer = JS.Ok (Complete p)
        /\ 4 <= totalLength p <= Buffer.length buffer
        /\ List.length (destAddr p) = 5%nat
        /\ List.length (srcAddr p) = 5%nat
        /\ (exists o1 o2, op1 p = Some o1 /\ op2 p = Some o2
                          /\ 0 <= o1 < 256 /\ 0 <= o2 < 256)
        /\ Buffer.length (data p) = Z.max 0 (totalLength p - 18)
        /\ 0 <= bcc p <= 65535)
  /\ parseResponsePacket ([0x02; 4; 0; 0x03] ++ repeat 0 14)
     = JS.Ok (Complete {| totalLength := 4;
                          destAddr := [3; 0; 0; 0; 0];
                          srcAddr := [0; 0; 0; 0; 0];
                          op1 := Some 0;
                          op2 := Some 0;
                          data := [];
                          bcc := 4 |}).
Proof.
  intros Hwf. split; [|reflexivity].
  destruct (parseResponsePacket_cases buffer Hwf) as [Hp | (p & Hp & HL)];
    [left; exact Hp | right].
  exists p. split; [exact Hp|]. split; [exact HL|].
  pose proof (parseResponsePacket_complete_inv buffer p Hp) as Hinv.
  cbv zeta in Hinv. destruct Hinv as (Hlen & _ & _ & _ & Hpeq).
  rewrite Hpeq in HL |- *. cbn [totalLength destAddr srcAddr op1 op2 data bcc] in *.
  set (L := nth 1 buffer 0 + 256 * nth 2 buffer 0) in *.
  assert (Hn : (18 <= List.length buffer)%nat) by (unfold Buffer.length in Hlen; lia).
  refine (conj _ (conj _ (conj _ (conj _ _)))).
  - apply Nat2Z.inj. change (Z.of_nat (List.length (Buffer.slice buffer 3 8)))
      with (Buffer.length (Buffer.slice buffer 3 8)).
    rewrite slice_length by lia. reflexivity.
  - apply Nat2Z.inj. change (Z.of_nat (List.length (Buffer.slice buffer 8 13)))
      with (Buffer.length (Buffer.slice buffer 8 13)).
    rewrite slice_length by lia. reflexivity.
  - exists (nth 13 buffer 0), (nth 14 buffer 0).
    split; [apply (get_nth buffer 13); lia|].
    split; [apply (get_nth buffer 14); lia|].
    split; apply wf_nth, Hwf.
  - rewrite slice_length by lia. lia.
  - pose proof (wf_nth buffer (Z.to_nat (15 + (L - 18))) Hwf).
    pose proof (wf_nth buffer (Z.to_nat (15 + (L - 18)) + 1) Hwf).
    lia.
Qed.

Lemma decodes_replies (replies : list (Buffer.t * PacketInfo)) (tail : Buffer.t) :
  Forall (fun rp => is_reply rp.1 rp.2) replies ->
  Buffer.length tail < 18 \/ parseResponsePacket tail = JS.Ok Incomplete ->
  decodes (concat (map fst replies) ++ tail)
    (map (fun rp => interpretResponse rp.2) replies) tail.
Proof.
  intros Hreplies Htail.
  induction Hreplies as [|[f p] replies [Hparse Hlen] _ IH].
  - cbn [map concat app].
    destruct (Z.lt_ge_cases (Buffer.length tail) 18) as [Hshort|Hlong].
    + apply decodes_short, Hshort.
    + destruct Htail as [Htail|Htail]; [lia|].
      apply decodes_incomplete; [lia | exact Htail].
  - cbn [map concat fst snd] in *. rewrite <- app_assoc.
    pose proof (parseResponsePacket_complete_inv f p Hparse) as Hinv.
    cbv zeta in Hinv. destruct Hinv as (H18 & _).
    apply decodes_packet.
    + unfold Buffer.length in *. rewrite length_app. lia.
    + apply parseResponsePacket_app, Hparse.
    + rewrite Hlen. unfold Buffer.length. rewrite Nat2Z.id, drop_app_length.
      exact IH.
Qed.

(** X4.  A chunk of whole packets.  When the buffer is empty and a chunk
    holds whole packets one after the other, followed by a part of a
    packet in which [parseResponsePacket] finds none yet, [handleResponse]
    emits the response of each packet, in their order, and keeps that
    last part, and only it, in the buffer. *)
Theorem handleResponse_takes_every_whole_packet (c : Client)
  (replies : list (Buffer.t * PacketInfo)) (tail : Buffer.t) :
  responseBuffer c = [] ->
  Forall (fun rp => Buffer.wf rp.1 /\ is_reply rp.1 rp.2) replies ->
  Buffer.wf tail ->
  Buffer.length tail < 18 \/ parseResponsePacket tail = JS.Ok Incomplete ->
  handleResponse c (concat (map fst replies) ++ tail)
  = JS.Ok (set_responseBuffer
             (emit_responses c (map (fun rp => interpretResponse rp.2) replies))
             tail).
Proof.
  intros Hbuf Hreplies Hwf Htail.
  assert (Hwfs : Buffer.wf (concat (map fst replies) ++ tail)).
  { apply Forall_app_2; [|exact Hwf]. apply Forall_concat, Forall_map.
    eapply Forall_impl; [exact Hreplies|]. intros rp [H _]. exact H. }
  destruct (handleResponse_decodes c (concat (map fst replies) ++ tail))
    as (rs & rest & Hdec & ->); [rewrite Hbuf; constructor | exact Hwfs|].
  rewrite Hbuf in Hdec. cbn [app] in Hdec.
  assert (Hdec' : decodes (concat (map fst replies) ++ tail)
                    (map (fun rp => interpretResponse rp.2) replies) tail).
  { apply decodes_replies; [|exact Htail].
    eapply Forall_impl; [exact Hreplies|]. intros rp [_ H]. exact H. }
  destruct (decodes_fun _ _ _ Hdec _ _ Hdec') as [-> ->]. reflexivity.
Qed.

(** ASCII bytes decode to themselves *)
Lemma toString_utf8_ascii (b : Buffer.t) :
  Forall (fun x => x < 0x80) b -> Buffer.toString_utf8 b = b.
Proof.
  unfold Buffer.toString_utf8.
  induction b as [|x b IH]; intros H; [reflexivity|].
  apply Forall_cons_1 in H as [Hx H].
  cbn [Buffer.utf8_decode]. unfold Buffer.utf8_first.
  destruct (Z.leb_spec x 0x7F) as [_|Hgt]; [|lia].
  cbn [app flat_map]. rewrite (IH H). unfold Buffer.utf16.
  destruct (Z.ltb_spec x 0x10000) as [_|Hge]; [reflexivity | lia].
Qed.

(** the decoding of a Hangul syllable of three bytes, of a character of
    four bytes, which takes a surrogate pair, and of bytes that are not
    UTF-8: an overlong form, a surrogate, a lead byte at the end *)
Lemma toString_utf8_examples :
  Buffer.toString_utf8 [0xEC; 0xA1; 0xB0] = [0xC870]
  /\ Buffer.toString_utf8 [0xF0; 0x9F; 0x92; 0xA1] = [0xD83D; 0xDCA1]
  /\ Buffer.toString_utf8 [0xE0; 0x80; 0x80] = [0xFFFD; 0xFFFD; 0xFFFD]
  /\ Buffer.toString_utf8 [0xED; 0xA0; 0x80] = [0xFFFD; 0xFFFD; 0xFFFD]
  /\ Buffer.toString_utf8 [0x41; 0xC3] = [0x41; 0xFFFD].
Proof. repeat split. Qed.

(** X5.  The classes of [interpretResponse].  For a packet that was decoded
    from a buffer, the operation code is [256 * op1 + op2] and the raw
    data is the data of the packet.  The response is a brightness list
    for the codes (0x16, 0x00), a colour temperature list for
    (0x16, 0x06), a device name for (0x22, 0x05), and the
    acknowledgement of a lamp control for (0x10, 0x00), which is a
    success when the first data byte is 0 and a failure otherwise, also
    when there is no data; every other pair of codes gives an unknown
    response.  The device name is the data decoded as UTF-8, without its
    NUL characters: for ASCII data these are the bytes other than NUL,
    and bytes that are not UTF-8 give U+FFFD, so that the name of the
    data C3 00 A9 is U+FFFD U+FFFD. *)
Theorem interpretResponse_classes (buffer : Buffer.t) (p : PacketInfo) :
  Buffer.wf buffer ->
  parseResponsePacket buffer = JS.Ok (Complete p) ->
  exists o1 o2,
    op1 p = Some o1 /\ op2 p = Some o2
    /\ opCode (interpretResponse p) = 256 * o1 + o2
    /\ rawData (interpretResponse p) = data p
    /\ body (interpretResponse p)
       = (if (o1 =? 0x16) && (o2 =? 0x00) then lamp_brightness (data p)
         else if (o1 =? 0x16) && (o2 =? 0x06) then color_temperature (data p)
         else if (o1 =? 0x10) && (o2 =? 0x00) then
           lamp_control_ack (match data p with 0 :: _ => true | _ => false end)
         else if (o1 =? 0x22) && (o2 =? 0x05) then
           device_name (JS.replace_nul (Buffer.toString_utf8 (data p)))
         else unknown (data p))
    /\ (Forall (fun x => x < 0x80) (data p) ->
        JS.replace_nul (Buffer.toString_utf8 (data p))
        = List.filter (fun x => negb (x =? 0)) (data p))
    /\ JS.replace_nul (Buffer.toString_utf8 [0xC3; 0x00; 0xA9]) = [0xFFFD; 0xFFFD].
Proof.
  intros Hwf Hp.
  pose proof (parseResponsePacket_complete_inv buffer p Hp) as Hinv.
  cbv zeta in Hinv. destruct Hinv as (Hlen & _ & _ & _ & Hpeq).
  assert (Hn : (18 <= List.length buffer)%nat) by (unfold Buffer.length in Hlen; lia).
  exists (nth 13 buffer 0), (nth 14 buffer 0).
  pose proof (wf_nth buffer 13 Hwf) as H1.
  pose proof (wf_nth buffer 14 Hwf) as H2.
  assert (Ho1 : op1 p = Some (nth 13 buffer 0))
    by (rewrite Hpeq; apply (get_nth buffer 13); lia).
  assert (Ho2 : op2 p = Some (nth 14 buffer 0))
    by (rewrite Hpeq; apply (get_nth buffer 14); lia).
  set (o1 := nth 13 buffer 0) in *. set (o2 := nth 14 buffer 0) in *.
  split; [exact Ho1|]. split; [exact Ho2|].
  unfold interpretResponse. cbn [opCode rawData body]. rewrite Ho1, Ho2.
  cbn [JS.ToInt32']. rewrite word_of_bytes by lia.
  split; [reflexivity|]. split; [reflexivity|].
  split; [|split; [|reflexivity]].
  - destruct (Z.eqb_spec o1 0x16), (Z.eqb_spec o1 0x10), (Z.eqb_spec o1 0x22),
      (Z.eqb_spec o2 0x00), (Z.eqb_spec o2 0x06), (Z.eqb_spec o2 0x05);
      cbn [andb]; try lia;
      repeat case_ltb; try reflexivity.
    unfold Buffer.get. cbn [Z.ltb Z.compare Z.to_nat].
    destruct (data p) as [|d rest]; [reflexivity|]. cbn [lookup list_lookup strict_ne negb].
    destruct d as [|d|d]; reflexivity.
  - intros Hascii. rewrite toString_utf8_ascii by exact Hascii. reflexivity.
Qed.


Lemma handleResponse_any_segmentation_witness :
  (Buffer.wf (responseBuffer connected_client)
   /\ Buffer.wf (take 7 (ack_frame 0))
   /\ Forall Buffer.wf [drop 7 (ack_frame 0); ack_frame 1])
  /\ run connected_client
       (map Data [take 7 (ack_frame 0); drop 7 (ack_frame 0); ack_frame 1])
     = handleResponse connected_client
         (take 7 (ack_frame 0) ++ concat [drop 7 (ack_frame 0); ack_frame 1]).
Proof.
  assert (H0 : Buffer.wf (responseBuffer connected_client)) by constructor.
  assert (H1 : Buffer.wf (take 7 (ack_frame 0)))
    by (vm_compute; repeat constructor; discriminate).
  assert (H2 : Forall Buffer.wf [drop 7 (ack_frame 0); ack_frame 1])
    by (vm_compute; repeat constructor; discriminate).
  split; [split; [exact H0 | split; [exact H1 | exact H2]]|].
  exact (handleResponse_any_segmentation connected_client (take 7 (ack_frame 0))
           [drop 7 (ack_frame 0); ack_frame 1] H0 H1 H2).
Defined.

Lemma parseResponsePacket_of_response_frame_witness :
  Buffer.wf (response_frame [0x13; 0; 0; 0; 0] [0x13; 1; 1; 0; 0] 0x16 0x00
               [80; 0; 100] 0xBEEF ++ [0x02; 0x12])
  /\ parseResponsePacket
       (response_frame [0x13; 0; 0; 0; 0] [0x13; 1; 1; 0; 0] 0x16 0x00
          [80; 0; 100] 0xBEEF ++ [0x02; 0x12])
     = JS.Ok (Complete {| totalLength := 18 + Buffer.length [80; 0; 100];
                          destAddr := [0x13; 0; 0; 0; 0];
                          srcAddr := [0x13; 1; 1; 0; 0];
                          op1 := Some 0x16;
                          op2 := Some 0x00;
                          data := [80; 0; 100];
                          bcc := 0xBEEF |}).
Proof.
  assert (Hwf : Buffer.wf (response_frame [0x13; 0; 0; 0; 0] [0x13; 1; 1; 0; 0]
                             0x16 0x00 [80; 0; 100] 0xBEEF ++ [0x02; 0x12]))
    by (vm_compute; repeat constructor; discriminate).
  split; [exact Hwf|].
  exact (parseResponsePacket_of_response_frame [0x13; 0; 0; 0; 0] [0x13; 1; 1; 0; 0]
           0x16 0x00 [80; 0; 100] 0xBEEF [0x02; 0x12] eq_refl eq_refl Hwf).
Defined.

Lemma parseResponsePacket_never_throws_witness :
  Buffer.wf (ack_frame 0)
  /\ (parseResponsePacket (ack_frame 0) = JS.Ok Incomplete
      \/ exists p,
           parseResponsePacket (ack_frame 0) = JS.Ok (Complete p)
           /\ 4 <= totalLength p <= Buffer.length (ack_frame 0)
           /\ List.length (destAddr p) = 5%nat
           /\ List.length (srcAddr p) = 5%nat
           /\ (exists o1 o2, op1 p = Some o1 /\ op2 p = Some o2
                             /\ 0 <= o1 < 256 /\ 0 <= o2 < 256)
           /\ Buffer.length (data p) = Z.max 0 (totalLength p - 18)
           /\ 0 <= bcc p <= 65535).
Proof.
  assert (Hwf : Buffer.wf (ack_frame 0))
    by (vm_compute; repeat constructor; discriminate).
  split; [exact Hwf|].
  exact (proj1 (parseResponsePacket_never_throws (ack_frame 0) Hwf)).
Defined.

Lemma handleResponse_takes_every_whole_packet_witness :
  (responseBuffer connected_client = []
   /\ Buffer.wf [0x02; 0x13]
   /\ Buffer.length [0x02; 0x13] < 18)
  /\ (c <- handleResponse connected_client
             (concat [ack_frame 0; ack_frame 1] ++ [0x02; 0x13]) ;;
      JS.Ok (responseBuffer c, emitted c))
     = JS.Ok ([0x02; 0x13], [connected; response ack_ok; response ack_failed]).
Proof.
  assert (Hwf : Buffer.wf [0x02; 0x13]) by (repeat constructor; lia).
  assert (Hshort : Buffer.length [0x02; 0x13] < 18) by reflexivity.
  split; [split; [reflexivity | split; [exact Hwf | exact Hshort]]|].
  assert (Hreplies :
            Forall (fun rp => Buffer.wf rp.1 /\ is_reply rp.1 rp.2)
              [(ack_frame 0,
                {| totalLength := 19; destAddr := [0x13; 0; 0; 0; 0];
                   srcAddr := [0x13; 1; 1; 0; 0]; op1 := Some 0x10; op2 := Some 0;
                   data := [0]; bcc := 56299 |});
               (ack_frame 1,
                {| totalLength := 19; destAddr := [0x13; 0; 0; 0; 0];
                   srcAddr := [0x13; 1; 1; 0; 0]; op1 := Some 0x10; op2 := Some 0;
                   data := [1]; bcc := 56043 |})]).
  { assert (Hw0 : Buffer.wf (ack_frame 0))
      by (vm_compute; repeat constructor; discriminate).
    assert (Hw1 : Buffer.wf (ack_frame 1))
      by (vm_compute; repeat constructor; discriminate).
    constructor; [split; [exact Hw0 | split; reflexivity]|].
    constructor; [split; [exact Hw1 | split; reflexivity]|]. constructor. }
  pose proof (handleResponse_takes_every_whole_packet connected_client _ [0x02; 0x13]
                eq_refl Hreplies Hwf (or_introl Hshort)) as H.
  cbn [map fst] in H. rewrite H. reflexivity.
Defined.

Lemma interpretResponse_classes_witness :
  (Buffer.wf (ack_frame 1)
   /\ parseResponsePacket (ack_frame 1)
      = JS.Ok (Complete {| totalLength := 19; destAddr := [0x13; 0; 0; 0; 0];
                           srcAddr := [0x13; 1; 1; 0; 0]; op1 := Some 0x10;
                           op2 := Some 0; data := [1]; bcc := 56043 |}))
  /\ exists o1 o2 p,
       op1 p = Some o1 /\ op2 p = Some o2
       /\ opCode (interpretResponse p) = 256 * o1 + o2
       /\ body (interpretResponse p) = lamp_control_ack false.
Proof.
  assert (Hwf : Buffer.wf (ack_frame 1))
    by (vm_compute; repeat constructor; discriminate).
  assert (Hp : parseResponsePacket (ack_frame 1)
               = JS.Ok (Complete {| totalLength := 19; destAddr := [0x13; 0; 0; 0; 0];
                                    srcAddr := [0x13; 1; 1; 0; 0]; op1 := Some 0x10;
                                    op2 := Some 0; data := [1]; bcc := 56043 |}))
    by reflexivity.
  split; [split; [exact Hwf | exact Hp]|].
  destruct (interpretResponse_classes (ack_frame 1) _ Hwf Hp)
    as (o1 & o2 & H1 & H2 & H3 & _ & H5 & _).
  exists o1, o2. eexists. split; [exact H1|]. split; [exact H2|]. split; [exact H3|].
  reflexivity.
Defined.

End DecoderStream.

Section ClientRuns.

Import LCSTcpClient.

Lemma timers_pending_sendPacket c packet :
  timers_pending c -> timers_pending (fst (sendPacket c packet)).
Proof.
  intros H. unfold sendPacket.
  destruct (isConnected c); cbn [negb fst]; [|exact H].
  intros id Hid. unfold pending. cbn [timers responseCallbacks] in *.
  destruct (decide (id = S (requestId c))) as [->|Hne].
  - rewrite lookup_insert_eq. eauto.
  - rewrite lookup_insert_ne by congruence. apply H.
    apply elem_of_union in Hid as [Hid|Hid]; [exact Hid|].
    apply elem_of_singleton in Hid. congruence.
Qed.

Lemma timers_pending_responseHandler id r c :
  client_inv c -> timers_pending c -> timers_pending (responseHandler id r c).
Proof.
  intros (_ & I6 & _) H. unfold responseHandler.
  destruct (responseCallbacks c !! id) as [cb|] eqn:Hcb; [|exact H].
  rewrite (I6 id cb Hcb).
  intros id' Hid'. unfold pending. cbn [timers responseCallbacks] in *.
  apply elem_of_difference in Hid' as [Hin Hne].
  rewrite elem_of_singleton in Hne.
  rewrite lookup_delete_ne by congruence. apply H, Hin.
Qed.

Lemma timers_pending_emit_response c r :
  client_inv c -> timers_pending c ->
  client_inv (emit_response c r) /\ timers_pending (emit_response c r).
Proof.
  intros Hinv H. unfold emit_response.
  assert (Hs : client_inv (emit c (response r)) /\ timers_pending (emit c (response r)))
    by (split; assumption).
  revert Hs. generalize (emit c (response r)) as s. generalize (listeners c) as l.
  induction l as [|id l IH]; intros s Hs; [exact Hs|].
  cbn [fold_left]. apply IH. destruct Hs as [Hi Ht]. split.
  - apply client_inv_responseHandler, Hi.
  - apply timers_pending_responseHandler; assumption.
Qed.

Lemma timers_pending_on_timeout c id :
  timers_pending c -> timers_pending (on_timeout c id).
Proof.
  intros H. unfold on_timeout.
  destruct (decide (id ∈ timers c)) as [Ht|]; [|exact H].
  intros id' Hid'. unfold pending. cbn [timers responseCallbacks] in *.
  apply elem_of_difference in Hid' as [Hin Hne].
  rewrite elem_of_singleton in Hne.
  rewrite lookup_delete_ne by congruence. apply H, Hin.
Qed.

Lemma timers_pending_step c ev c' :
  match ev with Send packet => packet <> [] | _ => True end ->
  step c ev = JS.Ok c' ->
  client_inv c /\ timers_pending c -> client_inv c' /\ timers_pending c'.
Proof.
  intros Hev Hstep [Hinv H]. split; [eapply client_inv_step; eassumption|].
  destruct ev as [|packet|chunk|id| |]; cbn [step] in Hstep;
    try (injection Hstep as <-; exact H).
  - injection Hstep as <-. apply timers_pending_sendPacket, H.
  - refine (proj2 (handleResponse_preserves
                     (fun s => client_inv s /\ timers_pending s) _ _ c chunk c'
                     (conj Hinv H) Hstep)).
    + intros s r [Hi Ht]. apply timers_pending_emit_response; assumption.
    + intros s b Hs. exact Hs.
  - injection Hstep as <-. apply timers_pending_on_timeout, H.
Qed.

(** a step on bytes does not throw and leaves bytes in the buffer *)
Lemma step_bytes c ev :
  Buffer.wf (responseBuffer c) ->
  match ev with Data chunk => Buffer.wf chunk | _ => True end ->
  exists c', step c ev = JS.Ok c' /\ Buffer.wf (responseBuffer c').
Proof.
  intros Hwf Hev.
  destruct ev as [|packet|chunk|id| |]; cbn [step];
    try (eexists; split; [reflexivity | exact Hwf]).
  - eexists. split; [reflexivity|]. unfold sendPacket.
    destruct (isConnected c); exact Hwf.
  - destruct (handleResponse_decodes c chunk Hwf Hev) as (rs & rest & Hd & ->).
    eexists. split; [reflexivity|]. cbn [responseBuffer set_responseBuffer].
    eapply decodes_wf; [exact Hd|]. apply Forall_app_2; assumption.
  - eexists. split; [reflexivity|]. unfold on_timeout.
    destruct (decide (id ∈ timers c)); exact Hwf.
Qed.

Lemma run_bytes evs : forall c,
  byte_events evs ->
  Buffer.wf (responseBuffer c) ->
  client_inv c -> timers_pending c ->
  exists c', run c evs = JS.Ok c'
             /\ Buffer.wf (responseBuffer c') /\ client_inv c' /\ timers_pending c'.
Proof.
  induction evs as [|ev evs IH]; intros c Hevs Hwf Hinv Ht.
  - exists c. split; [reflexivity|]. split; [exact Hwf|]. split; assumption.
  - apply Forall_cons_1 in Hevs as [Hev Hevs].
    assert (Hev' : match ev with Data chunk => Buffer.wf chunk | _ => True end)
      by (destruct ev; try exact I; exact Hev).
    assert (Hbyte : match ev with Send packet => packet <> [] | _ => True end)
      by (destruct ev; try exact I; exact Hev).
    destruct (step_bytes c ev Hwf Hev') as (c1 & Hstep & Hwf1).
    destruct (timers_pending_step c ev c1 Hbyte Hstep (conj Hinv Ht)) as [Hinv1 Ht1].
    destruct (IH c1 Hevs Hwf1 Hinv1 Ht1) as (c' & Hrun & H').
    exists c'. split; [|exact H'].
    rewrite run_cons, Hstep. exact Hrun.
Qed.

(** X6.  What holds of every client.  Whatever is done to a new client
    (connections, requests with a packet of at least one byte, data,
    timeouts, closes, in any order), no step throws, and in the state
    that is reached: a pending request has
    its listener registered, its timer armed and its promise unsettled;
    a timer is armed only for a pending request, so that the timer of an
    answered request cannot fire; and no request carries a number above
    the counter. *)
Theorem client_run_keeps_the_requests_consistent (evs : list Event) :
  byte_events evs ->
  exists c,
    run new evs = JS.Ok c
    /\ Buffer.wf (responseBuffer c)
    /\ (forall id, pending c id <-> id ∈ timers c)
    /\ (forall id, pending c id ->
          In id (listeners c) /\ promises c !! id = None /\ (id <= requestId c)%nat)
    /\ (forall id, is_Some (promises c !! id) -> ~ pending c id).
Proof.
  intros Hevs.
  destruct (run_bytes evs new Hevs) as (c & Hrun & Hwf & Hinv & Ht).
  - constructor.
  - exact client_inv_new.
  - intros id Hid. apply not_elem_of_empty in Hid. destruct Hid.
  - exists c. split; [exact Hrun|]. split; [exact Hwf|].
    destruct Hinv as (I1 & I6 & I5 & I2 & I4).
    split; [|split].
    + intros id. split; [intros H; apply (I1 id H) | apply Ht].
    + intros id H. destruct (I1 id H) as (Hl & Hp & _).
      split; [exact Hl|]. split; [exact Hp|]. apply I5, Hl.
    + intros id [x Hx] H. destruct (I1 id H) as (_ & Hp & _). congruence.
Qed.

Lemma client_run_keeps_the_requests_consistent_witness :
  byte_events [Connect; Send request1; Send request2; Data (ack_frame 0);
               Send request3; Close; Timeout 3; Data (ack_frame 1)]
  /\ exists c,
       run new [Connect; Send request1; Send request2; Data (ack_frame 0);
                Send request3; Close; Timeout 3; Data (ack_frame 1)] = JS.Ok c
       /\ Buffer.wf (responseBuffer c)
       /\ (forall id, pending c id <-> id ∈ timers c).
Proof.
  assert (Hevs : byte_events
                   [Connect; Send request1; Send request2; Data (ack_frame 0);
                    Send request3; Close; Timeout 3; Data (ack_frame 1)]).
  { repeat constructor; vm_compute; repeat constructor; discriminate. }
  split; [exact Hevs|].
  destruct (client_run_keeps_the_requests_consistent _ Hevs)
    as (c & Hrun & Hwf & Hpt & _).
  exists c. split; [exact Hrun|]. split; [exact Hwf | exact Hpt].
Defined.

(** *** The listener of a request that timed out *)

Lemma stale_listener_responseHandler a r s id :
  stale_listener s id -> stale_listener (responseHandler a r s) id.
Proof.
  intros (Hl & Hc & Hn). unfold responseHandler.
  destruct (responseCallbacks s !! a) as [cb|] eqn:Ha; [|repeat split; assumption].
  assert (Hne : id <> a) by congruence.
  unfold stale_listener. cbn [listeners responseCallbacks requestId].
  split; [|split; [|exact Hn]].
  - apply filter_In. split; [exact Hl|]. apply negb_true_iff, Nat.eqb_neq, Hne.
  - rewrite lookup_delete_ne by congruence. exact Hc.
Qed.

Lemma stale_listener_emit_response c r id :
  stale_listener c id -> stale_listener (emit_response c r) id.
Proof.
  intros H. unfold emit_response.
  assert (Hs : stale_listener (emit c (response r)) id) by exact H.
  revert Hs. generalize (emit c (response r)) as s. generalize (listeners c) as l.
  induction l as [|a l IH]; intros s Hs; [exact Hs|].
  cbn [fold_left]. apply IH, stale_listener_responseHandler, Hs.
Qed.

Lemma stale_listener_step c ev c' id :
  step c ev = JS.Ok c' -> stale_listener c id -> stale_listener c' id.
Proof.
  intros Hstep H.
  destruct ev as [|packet|chunk|id'| |]; cbn [step] in Hstep;
    try (injection Hstep as <-; exact H).
  - injection Hstep as <-. unfold sendPacket.
    destruct (isConnected c); cbn [negb fst]; [|exact H].
    destruct H as (Hl & Hc & Hn).
    unfold stale_listener. cbn [listeners responseCallbacks requestId].
    split; [apply in_or_app; left; exact Hl|]. split; [|lia].
    rewrite lookup_insert_ne by lia. exact Hc.
  - revert Hstep.
    apply (handleResponse_preserves (fun s => stale_listener s id)).
    + intros s r. apply stale_listener_emit_response.
    + intros s b Hs. exact Hs.
    + exact H.
  - injection Hstep as <-. unfold on_timeout.
    destruct (decide (id' ∈ timers c)); [|exact H].
    destruct H as (Hl & Hc & Hn).
    unfold stale_listener. cbn [listeners responseCallbacks requestId].
    split; [exact Hl|]. split; [|exact Hn].
    destruct (decide (id = id')) as [->|Hne];
      [apply lookup_delete_eq | rewrite lookup_delete_ne by congruence; exact Hc].
Qed.

Lemma stale_listener_run evs : forall c c' id,
  run c evs = JS.Ok c' -> stale_listener c id -> stale_listener c' id.
Proof.
  induction evs as [|ev evs IH]; intros c c' id Hrun H.
  - injection Hrun as <-. exact H.
  - rewrite run_cons in Hrun.
    destruct (step c ev) as [c1|e] eqn:Hstep; [|discriminate Hrun].
    cbn [JS.bind] in Hrun.
    eapply IH; [exact Hrun|]. eapply stale_listener_step; eassumption.
Qed.

(** X7.  A request that timed out.  When the timer of a pending request
    fires, its promise is rejected with the timeout error and its entry
    is deleted, but its 'response' listener is not taken off.  Whatever
    happens to the client afterwards, the promise stays rejected (a
    response that arrives late does not reach it), and the listener
    stays registered for good. *)
Theorem timed_out_request_leaves_its_listener (c : Client) (id : nat)
  (evs : list Event) (c' : Client) :
  client_inv c ->
  pending c id ->
  run (on_timeout c id) evs = JS.Ok c' ->
  promises c' !! id = Some (Rejected (JS.Error MSG_TIMEOUT))
  /\ ~ pending c' id
  /\ In id (listeners c').
Proof.
  intros Hinv Hpend Hrun.
  destruct Hinv as (I1 & I6 & I5 & I2 & I4).
  destruct (I1 id Hpend) as (Hl & Hp & Ht).
  assert (Hstale : stale_listener (on_timeout c id) id).
  { unfold on_timeout. destruct (decide (id ∈ timers c)) as [_|Hn]; [|contradiction].
    unfold stale_listener. cbn [listeners responseCallbacks requestId].
    split; [exact Hl|]. split; [apply lookup_delete_eq | apply I5, Hl]. }
  assert (Hrej : promises (on_timeout c id) !! id
                 = Some (Rejected (JS.Error MSG_TIMEOUT))).
  { unfold on_timeout. destruct (decide (id ∈ timers c)) as [_|Hn]; [|contradiction].
    cbn [promises]. apply settle_pending, Hp. }
  destruct (stale_listener_run evs _ c' id Hrun Hstale) as (Hl' & Hc' & _).
  split; [eapply run_stable; eassumption|]. split; [|exact Hl'].
  intros [x Hx]. congruence.
Qed.

Lemma timed_out_request_leaves_its_listener_witness :
  (client_inv two_pending /\ pending two_pending 1)
  /\ exists c',
       run (on_timeout two_pending 1) [Data (ack_frame 0); Send request3; Data (ack_frame 1)]
       = JS.Ok c'
       /\ promises c' !! 1%nat = Some (Rejected (JS.Error MSG_TIMEOUT))
       /\ ~ pending c' 1
       /\ In 1%nat (listeners c').
Proof.
  assert (Hpend : pending two_pending 1) by (vm_compute; eauto).
  split; [split; [exact client_inv_two_pending | exact Hpend]|].
  destruct (run (on_timeout two_pending 1)
              [Data (ack_frame 0); Send request3; Data (ack_frame 1)])
    as [c'|e] eqn:Hrun; [|vm_compute in Hrun; discriminate Hrun].
  exists c'. split; [reflexivity|].
  exact (timed_out_request_leaves_its_listener two_pending 1 _ c'
           client_inv_two_pending Hpend Hrun).
Defined.

(** *** A packet without a byte *)

(** X22.  [sendPacket] with a packet that has no byte.  On a connected
    client the request is numbered, its entry, its timer and its
    listener are registered and the empty packet is written; then the
    log line throws ([packetToHex] finds no match), which rejects the
    promise with a TypeError on the spot.  The promise stays so whatever
    happens afterwards, while the entry waits for a response or for the
    timeout.  With a packet that has a byte the promise of the new
    request is unsettled. *)
Theorem sendPacket_without_a_byte (c : Client) :
  client_inv c ->
  isConnected c = true ->
  let id := S (requestId c) in
  let c1 := fst (sendPacket c []) in
  snd (sendPacket c []) = Of id
  /\ written c1 = written c ++ [[]]
  /\ pending c1 id
  /\ id ∈ timers c1
  /\ In id (listeners c1)
  /\ promises c1 !! id = Some (Rejected JS.TypeError)
  /\ (forall evs c', run c1 evs = JS.Ok c' ->
        promises c' !! id = Some (Rejected JS.TypeError))
  /\ (forall packet, packet <> [] ->
        promises (fst (sendPacket c packet)) !! id = None).
Proof.
  intros (_ & _ & _ & I2 & _) Hconn id c1.
  assert (Hnone : promises c !! id = None).
  { destruct (promises c !! id) eqn:E; [|reflexivity].
    assert (id <= requestId c)%nat by (apply I2; eauto). unfold id in *. lia. }
  assert (Hrej : promises c1 !! id = Some (Rejected JS.TypeError)).
  { unfold c1, sendPacket. rewrite Hconn. cbn [negb fst promises].
    change (LCSPacketBuilder.packetToHex []) with (@None string).
    apply settle_pending, Hnone. }
  pose proof (sendPacket_connected c [] Hconn) as Hsend. cbv zeta in Hsend.
  destruct Hsend as (Hsnd & Hw & _ & _ & _ & Hpend & _).
  split; [exact Hsnd|]. split; [exact Hw|]. split; [exact Hpend|].
  split; [|split; [|split; [exact Hrej|split]]].
  - unfold c1, sendPacket. rewrite Hconn. cbn [negb fst timers].
    apply elem_of_union. right. apply elem_of_singleton. reflexivity.
  - unfold c1, sendPacket. rewrite Hconn. cbn [negb fst listeners].
    apply in_or_app. right. left. reflexivity.
  - intros evs c' Hrun. eapply run_stable; [exact Hrun | exact Hrej].
  - intros packet Hbyte. rewrite sendPacket_promises by exact Hbyte. exact Hnone.
Qed.

Lemma sendPacket_without_a_byte_witness :
  (client_inv connected_client /\ isConnected connected_client = true)
  /\ promises (fst (sendPacket connected_client [])) !! 1%nat
     = Some (Rejected JS.TypeError)
  /\ (forall c', run (fst (sendPacket connected_client []))
                   [Data (ack_frame 0); Timeout 1] = JS.Ok c' ->
                 promises c' !! 1%nat = Some (Rejected JS.TypeError)).
Proof.
  assert (Hinv : client_inv connected_client) by exact client_inv_new.
  assert (Hconn : isConnected connected_client = true) by reflexivity.
  split; [split; [exact Hinv | exact Hconn]|].
  pose proof (sendPacket_without_a_byte connected_client Hinv Hconn) as H.
  cbv zeta in H.
  split; [exact (proj1 (proj2 (proj2 (proj2 (proj2 (proj2 H))))))|].
  intros c'. exact (proj1 (proj2 (proj2 (proj2 (proj2 (proj2 (proj2 H))))))
                      [Data (ack_frame 0); Timeout 1] c').
Defined.

End ClientRuns.

Section ControllerRuns.

Import LCSController.

Lemma handleResponse_isConnected c chunk c' :
  LCSTcpClient.handleResponse c chunk = JS.Ok c' ->
  LCSTcpClient.isConnected c' = LCSTcpClient.isConnected c.
Proof.
  apply (handleResponse_preserves
           (fun s => LCSTcpClient.isConnected s = LCSTcpClient.isConnected c)).
  - intros s r Hs. rewrite emit_response_isConnected. exact Hs.
  - intros s b Hs. exact Hs.
  - reflexivity.
Qed.

Lemma send_built_keeps c packet :
  LCSTcpClient.isConnected (fst (LCSTcpClient.send_built c packet))
  = LCSTcpClient.isConnected c
  /\ LCSTcpClient.responseBuffer (fst (LCSTcpClient.send_built c packet))
     = LCSTcpClient.responseBuffer c.
Proof.
  destruct packet as [p|e]; cbn [LCSTcpClient.send_built fst]; [|split; reflexivity].
  unfold LCSTcpClient.sendPacket.
  destruct (LCSTcpClient.isConnected c) eqn:Hc; cbn [negb fst];
    [split; reflexivity | split; [exact Hc | reflexivity]].
Qed.

Lemma controller_inv_step ctl ev :
  controller_inv ctl ->
  match ev with SocketData chunk => Buffer.wf chunk | _ => True end ->
  exists ctl', step ctl ev = JS.Ok ctl' /\ controller_inv ctl'.
Proof.
  intros (Hsync & Harm & Hwf) Hev.
  destruct ev as [ok| |packet|ok| |chunk|id]; cbn [step].
  - eexists. split; [reflexivity|].
    destruct ok; unfold controller_inv; cbn; repeat split; try exact Hwf; discriminate.
  - eexists. split; [reflexivity|].
    unfold controller_inv; cbn; repeat split; try exact Hwf; discriminate.
  - eexists. split; [reflexivity|]. unfold guarded.
    destruct (isConnected ctl) eqn:Hc; cbn [negb fst];
      [|unfold controller_inv; rewrite Hc; repeat split; assumption].
    destruct (send_built_keeps (client ctl) packet) as [H1 H2].
    destruct (LCSTcpClient.send_built (client ctl) packet) as [c p].
    cbn [fst] in *. unfold controller_inv. cbn [with_client client isConnected
                                                reconnectInterval].
    rewrite H1, H2, Hc. repeat split; assumption.
  - eexists. split; [reflexivity|].
    destruct (reconnectInterval ctl) eqn:Hr;
      [|unfold controller_inv; rewrite Hr; repeat split; assumption].
    destruct ok; unfold controller_inv; cbn; repeat split; try exact Hwf; discriminate.
  - eexists. split; [reflexivity|].
    unfold controller_inv; cbn; repeat split; try exact Hwf; discriminate.
  - destruct (handleResponse_decodes (client ctl) chunk Hwf Hev)
      as (rs & rest & Hd & Hh).
    pose proof (handleResponse_isConnected _ _ _ Hh) as Hc.
    rewrite Hh. cbn [JS.bind]. eexists. split; [reflexivity|].
    unfold controller_inv. cbn [with_client client isConnected reconnectInterval].
    rewrite Hc. split; [exact Hsync|]. split; [exact Harm|].
    cbn [LCSTcpClient.responseBuffer LCSTcpClient.set_responseBuffer].
    eapply decodes_wf; [exact Hd|]. apply Forall_app_2; assumption.
  - eexists. split; [reflexivity|].
    unfold controller_inv. cbn [with_client client isConnected reconnectInterval].
    unfold LCSTcpClient.on_timeout.
    destruct (decide (id ∈ LCSTcpClient.timers (client ctl)));
      repeat split; assumption.
Qed.

Lemma controller_inv_run evs : forall ctl,
  byte_chunks evs -> controller_inv ctl ->
  exists ctl', run ctl evs = JS.Ok ctl' /\ controller_inv ctl'.
Proof.
  induction evs as [|ev evs IH]; intros ctl Hevs Hinv.
  - exists ctl. split; [reflexivity | exact Hinv].
  - apply Forall_cons_1 in Hevs as [Hev Hevs].
    assert (Hev' : match ev with SocketData chunk => Buffer.wf chunk | _ => True end)
      by (destruct ev; try exact I; exact Hev).
    destruct (controller_inv_step ctl ev Hinv Hev') as (ctl1 & Hstep & Hinv1).
    destruct (IH ctl1 Hevs Hinv1) as (ctl' & Hrun & Hinv').
    exists ctl'. split; [|exact Hinv'].
    cbn [run]. rewrite Hstep. exact Hrun.
Qed.

Lemma guarded_request ctl packet :
  isConnected ctl = LCSTcpClient.isConnected (client ctl) ->
  controller_request ctl
    (guarded ctl (fun c => LCSTcpClient.send_built c (JS.Ok packet))) packet.
Proof.
  intros Hsync. unfold controller_request, guarded.
  destruct (isConnected ctl) eqn:Hc; cbn [negb]; [|reflexivity].
  cbn [LCSTcpClient.send_built]. unfold LCSTcpClient.sendPacket, pending.
  rewrite <- Hsync.
  cbn [negb fst snd with_client client LCSTcpClient.written
         LCSTcpClient.responseCallbacks].
  split; [reflexivity|]. split; [reflexivity|].
  rewrite lookup_insert_eq. eauto.
Qed.

Lemma controlLamp_guarded ctl masterAddr cuAddr lampNo brightness :
  controlLamp ctl masterAddr cuAddr lampNo brightness
  = guarded ctl (fun c => LCSTcpClient.controlLamp c masterAddr cuAddr lampNo brightness).
Proof. reflexivity. Qed.

Section Requests.

Variable ctl : Controller.
Hypothesis Hsync : isConnected ctl = LCSTcpClient.isConnected (client ctl).
Variables masterAddr cuAddr : Z.

Lemma getLampBrightness_request (deviceType : string) :
  controller_request ctl (getLampBrightness ctl masterAddr cuAddr deviceType)
    (frame [default 0 (LCSPacketBuilder.deviceTypeMap deviceType); masterAddr; cuAddr; 0; 0]
       0x96 0x00 []).
Proof.
  unfold getLampBrightness, LCSTcpClient.getLampBrightness.
  rewrite getLampBrightness_frame. apply guarded_request, Hsync.
Qed.

Lemma getLampColorTemperature_request :
  controller_request ctl (getLampColorTemperature ctl masterAddr cuAddr)
    (frame [0x13; masterAddr; cuAddr; 0; 0] 0x96 0x06 []).
Proof.
  unfold getLampColorTemperature, LCSTcpClient.getLampColorTemperature.
  rewrite getLampColorTemperature_frame. apply guarded_request, Hsync.
Qed.

Lemma controlLamp_request (lampNo brightness : Z) :
  controller_request ctl (controlLamp ctl masterAddr cuAddr lampNo brightness)
    (frame [0x13; masterAddr; cuAddr; 0; 0] 0x92 0x00
       [JS.toUint8 cuAddr; JS.toUint8 lampNo; 0; JS.toUint8 brightness]).
Proof.
  rewrite controlLamp_guarded. unfold LCSTcpClient.controlLamp.
  rewrite controlLampDimming_frame. apply guarded_request, Hsync.
Qed.

Lemma controlLampBlock_request (lampList : list Z) (brightness : Z) :
  Z.of_nat (List.length lampList) + 21 <= 65535 ->
  controller_request ctl (controlLampBlock ctl masterAddr cuAddr lampList brightness)
    (frame [0x13; masterAddr; cuAddr; 0; 0] 0x90 0x00
       (block_data cuAddr lampList brightness)).
Proof.
  intros Hn. unfold controlLampBlock, LCSTcpClient.controlLampBlock.
  rewrite controlLampBlock_frame by exact Hn. apply guarded_request, Hsync.
Qed.

Lemma controlColorTemperature_request (lampList : list Z) (colorTemp : Z) :
  Z.of_nat (List.length lampList) + 21 <= 65535 ->
  controller_request ctl (controlColorTemperature ctl masterAddr cuAddr lampList colorTemp)
    (frame [0x13; masterAddr; cuAddr; 0; 0] 0x90 0x05
       (block_data cuAddr lampList colorTemp)).
Proof.
  intros Hn. unfold controlColorTemperature, LCSTcpClient.controlColorTemperature.
  rewrite controlLampColorTemp_frame by exact Hn. apply guarded_request, Hsync.
Qed.

Lemma executeScene_request (sceneNo fadeTime : Z) :
  controller_request ctl (executeScene ctl masterAddr cuAddr sceneNo fadeTime)
    (frame [0x13; masterAddr; cuAddr; 0; 0] 0x91 0x00
       [JS.toUint8 cuAddr; JS.toUint8 sceneNo; JS.toUint8 fadeTime]).
Proof.
  unfold executeScene, LCSTcpClient.executeScene.
  rewrite executeScene_frame. apply guarded_request, Hsync.
Qed.

Lemma controlAllLamps_request (brightness : Z) :
  controller_request ctl (controlAllLamps ctl masterAddr cuAddr brightness)
    (frame [0x13; masterAddr; cuAddr; 0; 0] 0x90 0x02
       [JS.toUint8 cuAddr; JS.toUint8 brightness]).
Proof.
  unfold controlAllLamps, LCSTcpClient.controlAllLamps.
  rewrite controlAllLamps_frame. apply guarded_request, Hsync.
Qed.

Lemma getDeviceInfo_request :
  controller_request ctl (getDeviceInfo ctl) (frame [0x13; 0; 0; 0; 0] 0xa2 0x05 []).
Proof.
  unfold getDeviceInfo, LCSTcpClient.getDeviceInfo.
  rewrite getDeviceName_frame. apply guarded_request, Hsync.
Qed.

End Requests.

(** X8.  The two flags.  Whatever is done to a new controller (calls of
    [connect], [disconnect] and of the request methods, whose builders
    throw or return a packet of at least one byte, ticks of the
    reconnect interval, events of the socket and of the request timers,
    in any order), no step throws, and in the state that is reached the
    controller's [isConnected] is that of its client, and the reconnect
    interval is not armed while the controller is connected.  So each of
    the eight request methods either is rejected by the controller's own
    test, leaving the client as it is, or writes the frame of its builder
    to the socket and returns the promise of a new pending request: the
    client does not reject what the controller has let through. *)
Theorem controller_flag_is_the_clients (host : string) (port : Z) (evs : list Event) :
  byte_chunks evs ->
  exists ctl,
    run (new host port) evs = JS.Ok ctl
    /\ isConnected ctl = LCSTcpClient.isConnected (client ctl)
    /\ (isConnected ctl = true -> reconnectInterval ctl = false)
    /\ forall (masterAddr cuAddr lampNo brightness colorTemp sceneNo fadeTime : Z)
         (lampList : list Z) (deviceType : string),
         Z.of_nat (List.length lampList) + 21 <= 65535 ->
         Forall (fun rp => controller_request ctl rp.1 rp.2)
           [(getLampBrightness ctl masterAddr cuAddr deviceType,
             frame [default 0 (LCSPacketBuilder.deviceTypeMap deviceType);
                    masterAddr; cuAddr; 0; 0] 0x96 0x00 []);
            (getLampColorTemperature ctl masterAddr cuAddr,
             frame [0x13; masterAddr; cuAddr; 0; 0] 0x96 0x06 []);
            (controlLamp ctl masterAddr cuAddr lampNo brightness,
             frame [0x13; masterAddr; cuAddr; 0; 0] 0x92 0x00
               [JS.toUint8 cuAddr; JS.toUint8 lampNo; 0; JS.toUint8 brightness]);
            (controlLampBlock ctl masterAddr cuAddr lampList brightness,
             frame [0x13; masterAddr; cuAddr; 0; 0] 0x90 0x00
               (block_data cuAddr lampList brightness));
            (controlColorTemperature ctl masterAddr cuAddr lampList colorTemp,
             frame [0x13; masterAddr; cuAddr; 0; 0] 0x90 0x05
               (block_data cuAddr lampList colorTemp));
            (executeScene ctl masterAddr cuAddr sceneNo fadeTime,
             frame [0x13; masterAddr; cuAddr; 0; 0] 0x91 0x00
               [JS.toUint8 cuAddr; JS.toUint8 sceneNo; JS.toUint8 fadeTime]);
            (controlAllLamps ctl masterAddr cuAddr brightness,
             frame [0x13; masterAddr; cuAddr; 0; 0] 0x90 0x02
               [JS.toUint8 cuAddr; JS.toUint8 brightness]);
            (getDeviceInfo ctl, frame [0x13; 0; 0; 0; 0] 0xa2 0x05 [])].
Proof.
  intros Hevs.
  destruct (controller_inv_run evs (new host port) Hevs) as (ctl & Hrun & Hinv).
  - unfold controller_inv. cbn. split; [reflexivity|]. split; [discriminate | constructor].
  - exists ctl. destruct Hinv as (Hsync & Harm & _).
    split; [exact Hrun|]. split; [exact Hsync|]. split; [exact Harm|].
    intros masterAddr cuAddr lampNo brightness colorTemp sceneNo fadeTime lampList
      deviceType Hn.
    repeat (apply List.Forall_cons); [..|apply List.Forall_nil]; cbn [fst snd];
      auto using getLampBrightness_request, getLampColorTemperature_request,
        controlLamp_request, controlLampBlock_request, controlColorTemperature_request,
        executeScene_request, controlAllLamps_request, getDeviceInfo_request.
Qed.

Lemma controller_flag_is_the_clients_witness :
  byte_chunks [CallConnect false; Tick true; Request (JS.Ok request1);
               SocketData (ack_frame 0); SocketClose; Tick false; CallDisconnect]
  /\ exists ctl,
       run (new "10.0.0.1" 1000)
         [CallConnect false; Tick true; Request (JS.Ok request1);
          SocketData (ack_frame 0); SocketClose; Tick false; CallDisconnect]
       = JS.Ok ctl
       /\ isConnected ctl = LCSTcpClient.isConnected (client ctl).
Proof.
  assert (Hevs : byte_chunks
                   [CallConnect false; Tick true; Request (JS.Ok request1);
                    SocketData (ack_frame 0); SocketClose; Tick false; CallDisconnect]).
  { repeat constructor; vm_compute; repeat constructor; discriminate. }
  split; [exact Hevs|].
  destruct (controller_flag_is_the_clients "10.0.0.1" 1000 _ Hevs)
    as (ctl & Hrun & Hsync & _).
  exists ctl. split; [exact Hrun | exact Hsync].
Defined.

(** X9.  [disconnect] and the reconnect interval.  [disconnect()] clears
    the interval and the two flags.  The listener of 'disconnected' does
    not tell a wanted disconnect from a lost connection: when the
    socket's 'close' follows, it arms the interval again, and at the
    next tick on which the agent accepts the connection the controller is
    connected again, the interval being cleared.  A controller that was
    never closed after [disconnect()] stays as it is: a tick does nothing
    while the interval is not armed. *)
Theorem disconnect_is_undone_by_the_close_event (ctl : Controller) :
  let ctl1 := disconnect ctl in
  let ctl2 := socket_close ctl1 in
  let ctl3 := reconnect_tick ctl2 true in
  (isConnected ctl1 = false /\ reconnectInterval ctl1 = false
   /\ LCSTcpClient.isConnected (client ctl1) = false)
  /\ (forall ok, step ctl1 (Tick ok) = JS.Ok ctl1)
  /\ (isConnected ctl2 = false /\ reconnectInterval ctl2 = true
      /\ LCSTcpClient.emitted (client ctl2)
         = LCSTcpClient.emitted (client ctl) ++ [LCSTcpClient.disconnected])
  /\ run ctl [CallDisconnect; SocketClose; Tick true] = JS.Ok ctl3
  /\ (isConnected ctl3 = true /\ reconnectInterval ctl3 = false
      /\ LCSTcpClient.isConnected (client ctl3) = true
      /\ LCSTcpClient.emitted (client ctl3)
         = LCSTcpClient.emitted (client ctl)
             ++ [LCSTcpClient.disconnected; LCSTcpClient.connected]).
Proof.
  intros ctl1 ctl2 ctl3.
  split; [repeat split|]. split; [intros ok; reflexivity|].
  split; [repeat split|]. split; [reflexivity|].
  split; [reflexivity|]. split; [reflexivity|]. split; [reflexivity|].
  unfold ctl3, ctl2, ctl1. cbn. rewrite <- app_assoc. reflexivity.
Qed.

End ControllerRuns.

Section ManagerRegistry.

Import LCSAgentManager.

(** *** The map *)

Lemma get_set_eq {V} (m : Map.t V) k v : Map.get (Map.set m k v) k = Some v.
Proof.
  unfold Map.get. induction m as [|[k' v'] m IH]; cbn [Map.set List.find fst].
  - rewrite String.eqb_refl. reflexivity.
  - destruct (String.eqb k' k) eqn:E; cbn [List.find fst].
    + rewrite String.eqb_refl. reflexivity.
    + rewrite E. exact IH.
Qed.

Lemma get_set_ne {V} (m : Map.t V) k k' v :
  k' <> k -> Map.get (Map.set m k v) k' = Map.get m k'.
Proof.
  intros Hne. unfold Map.get.
  induction m as [|[k0 v0] m IH]; cbn [Map.set List.find fst].
  - destruct (String.eqb_spec k k'); [congruence | reflexivity].
  - destruct (String.eqb_spec k0 k) as [->|Hk0]; cbn [List.find fst].
    + destruct (String.eqb_spec k k'); [congruence | reflexivity].
    + destruct (String.eqb k0 k'); [reflexivity | exact IH].
Qed.

Lemma set_same {V} (m : Map.t V) k v : Map.get m k = Some v -> Map.set m k v = m.
Proof.
  unfold Map.get. induction m as [|[k0 v0] m IH]; cbn [Map.set List.find fst].
  - discriminate.
  - destruct (String.eqb_spec k0 k) as [->|Hk0].
    + cbn. intros H. injection H as ->. reflexivity.
    + intros H. f_equal. apply IH, H.
Qed.

Lemma has_In {V} (m : Map.t V) k : Map.has m k = true <-> In k (Map.keys m).
Proof.
  unfold Map.has, Map.get, Map.keys.
  induction m as [|[k0 v0] m IH]; cbn [List.find map fst In].
  - split; [discriminate | intros []].
  - destruct (String.eqb_spec k0 k) as [->|Hk0].
    + cbn. split; [left; reflexivity | reflexivity].
    + rewrite IH. split; [right; assumption | intros [H|H]; [congruence | exact H]].
Qed.

Lemma has_false_In {V} (m : Map.t V) k : Map.has m k = false <-> ~ In k (Map.keys m).
Proof.
  rewrite <- has_In. destruct (Map.has m k); split; congruence.
Qed.

Lemma keys_set_old {V} (m : Map.t V) k v :
  Map.has m k = true -> Map.keys (Map.set m k v) = Map.keys m.
Proof.
  unfold Map.has, Map.get, Map.keys.
  induction m as [|[k0 v0] m IH]; cbn [List.find Map.set map fst].
  - discriminate.
  - destruct (String.eqb_spec k0 k) as [->|Hk0]; cbn [map fst].
    + reflexivity.
    + intros H. f_equal. apply IH, H.
Qed.

Lemma get_delete_eq {V} (m : Map.t V) k : Map.get (Map.delete m k) k = None.
Proof.
  unfold Map.get, Map.delete.
  induction m as [|[k0 v0] m IH]; cbn [List.filter List.find fst]; [reflexivity|].
  destruct (String.eqb k0 k) eqn:E; cbn [negb List.find fst]; [exact IH|].
  rewrite E. exact IH.
Qed.

Lemma get_delete_ne {V} (m : Map.t V) k k' :
  k' <> k -> Map.get (Map.delete m k) k' = Map.get m k'.
Proof.
  intros Hne. unfold Map.get, Map.delete.
  induction m as [|[k0 v0] m IH]; cbn [List.filter List.find fst]; [reflexivity|].
  destruct (String.eqb_spec k0 k) as [->|Hk0]; cbn [negb List.find fst].
  - destruct (String.eqb_spec k k'); [congruence | exact IH].
  - destruct (String.eqb k0 k'); [reflexivity | exact IH].
Qed.

Lemma has_get {V} (m : Map.t V) k :
  Map.has m k = true <-> is_Some (Map.get m k).
Proof.
  unfold Map.has. destruct (Map.get m k); split; try eauto; try discriminate.
  intros [x Hx]. discriminate Hx.
Qed.

(** *** The invariant *)

Lemma registry_inv_new : registry_inv new.
Proof.
  unfold registry_inv, new. cbn. split; [constructor|]. split; [tauto|]. discriminate.
Qed.

Lemma registry_inv_update m k ctl :
  registry_inv m -> Map.has (agents m) k = true ->
  registry_inv {| agents := Map.set (agents m) k ctl; defaultAgentId := defaultAgentId m |}.
Proof.
  intros (Hnd & Hdef & Hhas) Hk. unfold registry_inv. cbn [agents defaultAgentId].
  rewrite keys_set_old by exact Hk. split; [exact Hnd|]. split.
  - rewrite Hdef. split; intros H.
    + rewrite H in Hk. discriminate Hk.
    + apply (f_equal Map.keys) in H. rewrite keys_set_old in H by exact Hk.
      destruct (agents m); [reflexivity | discriminate H].
  - intros k' Hk'. apply has_In. rewrite keys_set_old by exact Hk.
    apply has_In, Hhas, Hk'.
Qed.

Lemma registry_inv_addAgent m agentId host port name tcp_ok r :
  registry_inv m ->
  addAgent m agentId host port name tcp_ok = JS.Ok r -> registry_inv (fst r).
Proof.
  intros (Hnd & Hdef & Hhas) H. unfold addAgent in H.
  destruct (Map.has (agents m) agentId) eqn:Hk; [discriminate H|].
  destruct (LCSController.connect _ tcp_ok) as [ctl ok]. injection H as <-.
  unfold registry_inv. cbn [fst agents defaultAgentId].
  rewrite keys_set_new by exact Hk. split; [|split].
  - apply NoDup_app. split; [exact Hnd|]. split; [|repeat constructor; intros []%elem_of_nil].
    intros x Hx ->%list_elem_of_singleton.
    apply has_false_In in Hk. apply Hk, list_elem_of_In, Hx.
  - split.
    + destruct (defaultAgentId m) as [d|]; cbn [falsy];
        [destruct (String.eqb d EmptyString)|]; intros H; discriminate H.
    + intros H. apply (f_equal Map.keys) in H. rewrite keys_set_new in H by exact Hk.
      destruct (Map.keys (agents m)); discriminate H.
  - intros k Hk'. apply has_In. rewrite keys_set_new by exact Hk.
    apply in_or_app.
    destruct (falsy (defaultAgentId m)).
    + injection Hk' as <-. right. left. reflexivity.
    + left. apply has_In, Hhas, Hk'.
Qed.

Lemma NoDup_filter_keys (l : list string) (f : string -> bool) :
  NoDup l -> NoDup (List.filter f l).
Proof.
  induction 1 as [|x l Hx Hnd IH]; cbn [List.filter]; [constructor|].
  destruct (f x); [|exact IH]. constructor; [|exact IH].
  intros H. apply Hx. apply list_elem_of_In in H. apply filter_In in H as [H _].
  apply list_elem_of_In, H.
Qed.

Lemma registry_inv_removeAgent m agentId :
  registry_inv m -> registry_inv (fst (removeAgent m agentId)).
Proof.
  intros (Hnd & Hdef & Hhas). unfold removeAgent.
  destruct (Map.get (agents m) agentId) as [ctl|] eqn:Hget;
    [|repeat split; try assumption; apply Hdef].
  cbn [fst]. unfold registry_inv. cbn [agents defaultAgentId].
  rewrite first_key. rewrite keys_delete.
  split; [apply NoDup_filter_keys, Hnd|].
  destruct (strict_eq (defaultAgentId m) agentId) eqn:Hse.
  - split.
    + split; intros H.
      * assert (Hk : Map.keys (Map.delete (agents m) agentId) = [])
          by (rewrite keys_delete; destruct (List.filter _ _); [reflexivity | discriminate H]).
        destruct (Map.delete (agents m) agentId); [reflexivity | discriminate Hk].
      * rewrite <- keys_delete, H. reflexivity.
    + intros k Hk. apply has_In. rewrite keys_delete.
      destruct (List.filter _ _) as [|x l] eqn:E; [discriminate Hk|].
      injection Hk as ->. left. reflexivity.
  - destruct (defaultAgentId m) as [d|] eqn:Hd.
    + assert (Hne : d <> agentId).
      { intros ->. cbn [strict_eq] in Hse. rewrite String.eqb_refl in Hse.
        discriminate Hse. }
      assert (Hin : In d (List.filter (fun k' => negb (String.eqb k' agentId))
                            (Map.keys (agents m)))).
      { apply filter_In. split; [apply has_In, Hhas; reflexivity|].
        apply negb_true_iff, String.eqb_neq, Hne. }
      split.
      * split; [discriminate|]. intros H.
        rewrite <- keys_delete, H in Hin. destruct Hin.
      * intros k Hk. injection Hk as <-. apply has_In. rewrite keys_delete. exact Hin.
    + exfalso. assert (H : agents m = []) by (apply Hdef; reflexivity).
      rewrite H in Hget. discriminate Hget.
Qed.

Lemma registry_inv_setDefaultAgent m agentId :
  registry_inv m -> registry_inv (fst (setDefaultAgent m agentId)).
Proof.
  intros (Hnd & Hdef & Hhas). unfold setDefaultAgent.
  destruct (Map.has (agents m) agentId) eqn:Hk; cbn [negb fst];
    [|repeat split; try assumption; apply Hdef].
  unfold registry_inv. cbn [agents defaultAgentId].
  split; [exact Hnd|]. split.
  - split; [discriminate|]. intros H. rewrite H in Hk. discriminate Hk.
  - intros k H. injection H as <-. exact Hk.
Qed.

Lemma getAgent_has m agentId agent :
  getAgent m agentId = Some agent ->
  exists id, targetId m agentId = Some id /\ Map.get (agents m) id = Some agent.
Proof.
  unfold getAgent, targetId.
  destruct (if falsy agentId then defaultAgentId m else agentId) as [id|];
    [|discriminate].
  intros H. exists id. split; [reflexivity | exact H].
Qed.

Lemma registry_inv_proxy m agentId call :
  registry_inv m -> registry_inv (fst (proxy m agentId call)).
Proof.
  intros Hinv. unfold proxy.
  destruct (getAgent m agentId) as [agent|] eqn:Hget; [|exact Hinv].
  destruct (getAgent_has _ _ _ Hget) as (id & Hid & Hg).
  destruct (call agent) as [agent' p]. cbn [fst]. rewrite Hid. cbn [default].
  apply registry_inv_update; [exact Hinv|]. apply has_get. eauto.
Qed.

Lemma registry_inv_apply_op m op : registry_inv m -> registry_inv (apply_op m op).
Proof.
  intros Hinv. destruct op as [id h p n ok|id|id|id ok|a ma cu l b|]; cbn [apply_op].
  - destruct (addAgent m id h p n ok) as [r|e] eqn:H; [|exact Hinv].
    eapply registry_inv_addAgent; eassumption.
  - apply registry_inv_removeAgent, Hinv.
  - apply registry_inv_setDefaultAgent, Hinv.
  - unfold reconnectAgent.
    destruct (Map.get (agents m) id) as [ctl|] eqn:Hget; [|exact Hinv].
    destruct (LCSController.connect ctl ok) as [ctl' ok']. cbn [fst].
    apply registry_inv_update; [exact Hinv|]. apply has_get. eauto.
  - apply registry_inv_proxy, Hinv.
  - apply registry_inv_new.
Qed.

Lemma registry_inv_after_ops ops : registry_inv (after_ops ops).
Proof.
  unfold after_ops. generalize registry_inv_new. generalize new as m.
  induction ops as [|op ops IH]; intros m Hinv; [exact Hinv|].
  cbn [fold_left]. apply IH, registry_inv_apply_op, Hinv.
Qed.

(** X10.  The default agent.  After any sequence of calls on a new manager
    ([addAgent], [removeAgent], [setDefaultAgent], [reconnectAgent],
    [controlLamp], [disconnectAll], with any arguments and outcomes), no
    identifier is registered twice, the default is null exactly when no
    agent is registered, and a default that is not null is the
    identifier of a registered agent.  So [getAgent()] without an
    identifier returns an agent whenever one is registered. *)
Theorem manager_default_is_registered (ops : list ManagerOp) :
  let m := after_ops ops in
  NoDup (Map.keys (agents m))
  /\ (defaultAgentId m = None <-> agents m = [])
  /\ (forall k, defaultAgentId m = Some k -> Map.has (agents m) k = true)
  /\ (agents m <> [] -> is_Some (getAgent m None)).
Proof.
  intros m. destruct (registry_inv_after_ops ops) as (Hnd & Hdef & Hhas).
  fold m in Hnd, Hdef, Hhas.
  split; [exact Hnd|]. split; [exact Hdef|]. split; [exact Hhas|].
  intros Hne. unfold getAgent. cbn [falsy].
  destruct (defaultAgentId m) as [d|] eqn:Hd.
  - apply has_get, Hhas. reflexivity.
  - destruct Hne. apply Hdef. reflexivity.
Qed.

Lemma manager_default_is_registered_witness :
  let m := after_ops [AddAgent "a" "10.0.0.1" 1000 None false;
                      AddAgent "b" "10.0.0.2" 1000 (Some "B") true;
                      SetDefaultAgent "b"; RemoveAgent "b"] in
  agents m <> [] /\ is_Some (getAgent m None).
Proof.
  intros m.
  assert (Hne : agents m <> []) by (vm_compute; discriminate).
  split; [exact Hne|].
  exact (proj2 (proj2 (proj2 (manager_default_is_registered
                                [AddAgent "a" "10.0.0.1" 1000 None false;
                                 AddAgent "b" "10.0.0.2" 1000 (Some "B") true;
                                 SetDefaultAgent "b"; RemoveAgent "b"]))) Hne).
Defined.


(** X11.  [addAgent] and [getAgent].  [addAgent] with an identifier that is
    not registered returns the outcome of the connection and registers
    the agent in both cases, also when the connection fails: the agent is
    then registered as not connected, with its reconnect interval armed.
    The agent is the last of the registry, the others are as they were,
    and it becomes the default when there was none.  Its name is the
    given one, or ["Agent-" + agentId] when none is given.  A second
    [addAgent] with the same identifier throws, whatever the outcome of
    the first was. *)
Theorem addAgent_registers_the_agent (m : Manager) (agentId host : string) (port : Z)
  (name : option string) (tcp_ok : bool) :
  Map.has (agents m) agentId = false ->
  exists m' ctl,
    addAgent m agentId host port name tcp_ok = JS.Ok (m', tcp_ok)
    /\ Map.get (agents m') agentId = Some ctl
    /\ LCSController.agentId ctl = Some agentId
    /\ LCSController.name ctl
       = Some (if falsy name then "Agent-" +:+ agentId else default EmptyString name)
    /\ LCSController.host ctl = host
    /\ LCSController.port ctl = port
    /\ LCSController.isConnected ctl = tcp_ok
    /\ LCSController.reconnectInterval ctl = negb tcp_ok
    /\ Map.keys (agents m') = Map.keys (agents m) ++ [agentId]
    /\ (forall k, k <> agentId -> Map.get (agents m') k = Map.get (agents m) k)
    /\ defaultAgentId m'
       = (if falsy (defaultAgentId m) then Some agentId else defaultAgentId m)
    /\ (forall host' port' name' tcp_ok',
          addAgent m' agentId host' port' name' tcp_ok'
          = JS.Throw (JS.Error (MSG_EXISTS agentId))).
Proof.
  intros Hk. unfold addAgent at 1. rewrite Hk.
  destruct tcp_ok; cbn [LCSController.connect LCSController.on_connected
                          LCSController.on_error LCSController.new
                          LCSController.client LCSController.isConnected
                          LCSController.reconnectInterval LCSController.agentId
                          LCSController.name LCSController.host LCSController.port];
    eexists; eexists; (split; [reflexivity|]);
    cbn [agents defaultAgentId];
    (split; [apply get_set_eq|]);
    do 6 (split; [reflexivity|]);
    (split; [apply keys_set_new, Hk|]);
    (split; [intros k Hne; apply get_set_ne, Hne|]);
    (split; [reflexivity|]);
    intros host' port' name' ok'; unfold addAgent, Map.has; cbn [agents];
    rewrite get_set_eq; reflexivity.
Qed.

Lemma addAgent_registers_the_agent_witness :
  Map.has (agents new) "a" = false
  /\ exists m' ctl,
       addAgent new "a" "10.0.0.1" 1000 None false = JS.Ok (m', false)
       /\ Map.get (agents m') "a" = Some ctl
       /\ LCSController.name ctl = Some "Agent-a"
       /\ defaultAgentId m' = Some "a"
       /\ addAgent m' "a" "10.0.0.1" 1000 None true
          = JS.Throw (JS.Error (MSG_EXISTS "a")).
Proof.
  assert (Hk : Map.has (agents new) "a" = false) by reflexivity.
  split; [exact Hk|].
  destruct (addAgent_registers_the_agent new "a" "10.0.0.1" 1000 None false Hk)
    as (m' & ctl & H1 & H2 & _ & H4 & _ & _ & _ & _ & _ & _ & H11 & H12).
  exists m', ctl. split; [exact H1|]. split; [exact H2|]. split; [exact H4|].
  split; [exact H11 | apply H12].
Defined.

(** X12.  [removeAgent], the other cases.  For an identifier that is not
    registered it returns false and changes nothing.  For a registered
    one it returns true, the agent is no longer found, the other agents
    are as they were and in their order, and a default other than the
    removed agent stays the default; a second [removeAgent] of it returns
    false. *)
Theorem removeAgent_of_any_agent (m : Manager) (agentId : string) :
  (Map.has (agents m) agentId = false -> removeAgent m agentId = (m, false))
  /\ (Map.has (agents m) agentId = true ->
      let m' := fst (removeAgent m agentId) in
      snd (removeAgent m agentId) = true
      /\ Map.get (agents m') agentId = None
      /\ (forall k, k <> agentId -> Map.get (agents m') k = Map.get (agents m) k)
      /\ Map.keys (agents m')
         = List.filter (fun k => negb (String.eqb k agentId)) (Map.keys (agents m))
      /\ (defaultAgentId m <> Some agentId -> defaultAgentId m' = defaultAgentId m)
      /\ removeAgent m' agentId = (m', false)).
Proof.
  unfold removeAgent at 1 2 3, Map.has.
  destruct (Map.get (agents m) agentId) as [ctl|] eqn:Hget;
    (split; [intros H; try discriminate H; reflexivity|]); [|intros H; discriminate H].
  intros _. cbn [fst snd agents defaultAgentId].
  split; [reflexivity|]. split; [apply get_delete_eq|].
  split; [intros k Hne; apply get_delete_ne, Hne|].
  split; [apply keys_delete|]. split.
  - intros Hne. destruct (defaultAgentId m) as [d|]; cbn [strict_eq]; [|reflexivity].
    destruct (String.eqb_spec d agentId) as [->|]; [congruence | reflexivity].
  - unfold removeAgent. cbn [agents]. rewrite get_delete_eq. reflexivity.
Qed.

Lemma removeAgent_of_any_agent_witness :
  (Map.has (agents two_agents) "b" = true /\ defaultAgentId two_agents <> Some "b")
  /\ Map.get (agents (fst (removeAgent two_agents "b"))) "b" = None
  /\ defaultAgentId (fst (removeAgent two_agents "b")) = defaultAgentId two_agents.
Proof.
  assert (Hk : Map.has (agents two_agents) "b" = true) by reflexivity.
  assert (Hd : defaultAgentId two_agents <> Some "b") by (vm_compute; discriminate).
  split; [split; [exact Hk | exact Hd]|].
  pose proof (proj2 (removeAgent_of_any_agent two_agents "b") Hk) as H.
  cbv zeta in H. destruct H as (_ & H2 & _ & _ & H5 & _).
  split; [exact H2 | exact (H5 Hd)].
Defined.

Lemma count_key (d : string) (l : list string) :
  NoDup l -> In d l -> List.length (List.filter (String.eqb d) l) = 1%nat.
Proof.
  induction 1 as [|x l Hx Hnd IH]; intros Hin; [destruct Hin|].
  cbn [List.filter]. destruct (String.eqb_spec d x) as [->|Hne].
  - cbn [List.length]. f_equal.
    assert (Hnone : forall l', ~ In x l' -> List.filter (String.eqb x) l' = []).
    { induction l' as [|y l' IHl]; intros Hy; [reflexivity|].
      cbn [List.filter]. destruct (String.eqb_spec x y) as [->|_].
      - destruct Hy. left. reflexivity.
      - apply IHl. intros H. apply Hy. right. exact H. }
    rewrite Hnone; [reflexivity|]. intros H. apply Hx, list_elem_of_In, H.
  - apply IH. destruct Hin as [->|Hin]; [congruence | exact Hin].
Qed.

(** X13.  The status report.  After any sequence of calls on a new manager,
    [getConnectionStatus] lists the registered agents in the order in
    which they were added, [totalAgents] is their number, and
    [connectedAgents] counts those whose controller is connected, so that
    it is at most [totalAgents]; exactly one agent of the list is marked
    as the default when there is an agent, and [defaultAgentId] is its
    identifier. *)
Theorem getConnectionStatus_counts (ops : list ManagerOp) :
  let m := after_ops ops in
  let status := getConnectionStatus m in
  map AgentInfo.agentId (ConnectionStatus.agents status) = Map.keys (agents m)
  /\ ConnectionStatus.totalAgents status = List.length (agents m)
  /\ ConnectionStatus.connectedAgents status
     = List.length (List.filter (fun e => LCSController.isConnected e.2) (agents m))
  /\ (ConnectionStatus.connectedAgents status <= ConnectionStatus.totalAgents status)%nat
  /\ List.length (List.filter AgentInfo.isDefault (ConnectionStatus.agents status))
     = (if ConnectionStatus.totalAgents status =? 0 then 0 else 1)%nat
  /\ (forall info, In info (ConnectionStatus.agents status) ->
        AgentInfo.isDefault info = true ->
        ConnectionStatus.defaultAgentId status = Some (AgentInfo.agentId info)).
Proof.
  intros m status.
  destruct (registry_inv_after_ops ops) as (Hnd & Hdef & Hhas).
  fold m in Hnd, Hdef, Hhas.
  unfold status, getConnectionStatus, getAllAgents.
  cbn [ConnectionStatus.agents ConnectionStatus.totalAgents
         ConnectionStatus.connectedAgents ConnectionStatus.defaultAgentId].
  assert (Hfilter : forall (f : AgentInfo.t -> bool) (g : string * LCSController.Controller -> AgentInfo.t)
                      (l : list (string * LCSController.Controller)),
             List.length (List.filter f (map g l))
             = List.length (List.filter (fun e => f (g e)) l)).
  { intros f g l. induction l as [|e l IH]; [reflexivity|].
    cbn [map List.filter]. destruct (f (g e)); cbn [List.length]; rewrite IH; reflexivity. }
  refine (conj _ (conj _ (conj _ (conj _ (conj _ _))))).
  - rewrite map_map. unfold Map.keys. apply map_ext. intros [k ctl]. reflexivity.
  - apply length_map.
  - rewrite Hfilter. f_equal. apply filter_ext. intros [k ctl]. reflexivity.
  - rewrite length_map. rewrite Hfilter. apply filter_length_le.
  - rewrite length_map, Hfilter.
    destruct (defaultAgentId m) as [d|] eqn:Hd.
    + assert (Hin : In d (Map.keys (agents m))) by (apply has_In, Hhas; reflexivity).
      assert (Hcount : List.length
                         (List.filter (fun e : string * LCSController.Controller =>
                                         String.eqb d e.1) (agents m)) = 1%nat).
      { rewrite <- (count_key d (Map.keys (agents m)) Hnd Hin). unfold Map.keys.
        clear. induction (agents m) as [|[k ctl] l IH]; [reflexivity|].
        cbn [map List.filter fst]. destruct (String.eqb d k); cbn [List.length];
          rewrite IH; reflexivity. }
      replace (List.filter _ (agents m))
        with (List.filter (fun e : string * LCSController.Controller =>
                             String.eqb d e.1) (agents m))
        by (apply filter_ext; intros [k ctl]; reflexivity).
      rewrite Hcount. destruct (agents m); [destruct Hin | reflexivity].
    + rewrite (proj1 Hdef eq_refl). reflexivity.
  - intros info Hin Hisd. apply in_map_iff in Hin as ([k ctl] & <- & _).
    cbn [AgentInfo.isDefault AgentInfo.agentId] in *.
    destruct (defaultAgentId m) as [d|]; cbn [strict_eq] in Hisd; [|discriminate Hisd].
    apply String.eqb_eq in Hisd. congruence.
Qed.

Lemma proxy_request (m : Manager) (agentId : option string)
  (call : LCSController.Controller -> LCSController.Controller * LCSTcpClient.Promise)
  (packet : Buffer.t) :
  (forall agent, getAgent m agentId = Some agent ->
     controller_request agent (call agent) packet) ->
  manager_request m agentId (proxy m agentId call) packet.
Proof.
  intros Hcall. unfold manager_request, proxy.
  destruct (getAgent m agentId) as [agent|] eqn:Hagent; [|reflexivity].
  specialize (Hcall agent eq_refl).
  assert (Hid : exists tid, targetId m agentId = Some tid
                           /\ Map.get (agents m) tid = Some agent).
  { unfold getAgent in Hagent. unfold targetId.
    destruct (if falsy agentId then defaultAgentId m else agentId) as [tid|];
      [eauto | discriminate Hagent]. }
  destruct Hid as (tid & Hid & Hget).
  rewrite Hid. change (default EmptyString (Some tid)) with tid.
  unfold controller_request in *.
  destruct (LCSController.isConnected agent) eqn:Hc.
  - destruct (call agent) as [agent' p]. cbn [fst snd agents defaultAgentId] in *.
    exists agent'. split.
    + unfold getAgent. cbn [defaultAgentId agents].
      unfold targetId in Hid. rewrite Hid. apply get_set_eq.
    + destruct Hcall as (Hp & Hw & Hpend).
      split; [exact Hp|]. split; [exact Hw|]. split; [exact Hpend|]. split.
      * intros k Hne. apply get_set_ne. congruence.
      * split; [|reflexivity]. apply keys_set_old, has_get. eauto.
  - rewrite Hcall. rewrite set_same by exact Hget. destruct m; reflexivity.
Qed.

(** X14.  A request through the manager.  Each of the six request methods
    of the manager ([controlLamp], [controlLampBlock],
    [controlColorTemperature], [executeScene], [controlAllLamps],
    [getLampBrightness]) throws the "agent not found" error, and does
    nothing, when [getAgent] finds no agent: for an identifier that is
    not registered (the default is not used in its place) and, without
    an identifier, when there is no default; the empty string counts as
    no identifier.  When the agent is found
    and connected, the call writes the frame of the method's builder to
    the socket of that agent and returns the promise of its new request;
    the other agents, the order of the registry and the default are as
    they were.  When the agent is found but not connected, the call is
    rejected as not connected and nothing changes. *)
Theorem manager_requests_reach_one_agent (m : Manager) (agentId : option string)
  (masterAddr cuAddr lampNo brightness colorTemp sceneNo fadeTime : Z)
  (lampList : list Z) (deviceType : string) :
  (forall agent, getAgent m agentId = Some agent ->
     LCSController.isConnected agent
     = LCSTcpClient.isConnected (LCSController.client agent)) ->
  Z.of_nat (List.length lampList) + 21 <= 65535 ->
  Forall (fun rp => manager_request m agentId rp.1 rp.2)
    [(controlLamp m agentId masterAddr cuAddr lampNo brightness,
      frame [0x13; masterAddr; cuAddr; 0; 0] 0x92 0x00
        [JS.toUint8 cuAddr; JS.toUint8 lampNo; 0; JS.toUint8 brightness]);
     (controlLampBlock m agentId masterAddr cuAddr lampList brightness,
      frame [0x13; masterAddr; cuAddr; 0; 0] 0x90 0x00
        (block_data cuAddr lampList brightness));
     (controlColorTemperature m agentId masterAddr cuAddr lampList colorTemp,
      frame [0x13; masterAddr; cuAddr; 0; 0] 0x90 0x05
        (block_data cuAddr lampList colorTemp));
     (executeScene m agentId masterAddr cuAddr sceneNo fadeTime,
      frame [0x13; masterAddr; cuAddr; 0; 0] 0x91 0x00
        [JS.toUint8 cuAddr; JS.toUint8 sceneNo; JS.toUint8 fadeTime]);
     (controlAllLamps m agentId masterAddr cuAddr brightness,
      frame [0x13; masterAddr; cuAddr; 0; 0] 0x90 0x02
        [JS.toUint8 cuAddr; JS.toUint8 brightness]);
     (getLampBrightness m agentId masterAddr cuAddr deviceType,
      frame [default 0 (LCSPacketBuilder.deviceTypeMap deviceType);
             masterAddr; cuAddr; 0; 0] 0x96 0x00 [])]
  /\ (forall id, agentId = Some id -> id <> EmptyString ->
        Map.has (agents m) id = false -> getAgent m agentId = None)
  /\ (agentId = None -> defaultAgentId m = None -> getAgent m agentId = None)
  /\ getAgent m (Some EmptyString) = getAgent m None.
Proof.
  intros Hsync Hn. split; [|split; [|split; [|reflexivity]]].
  - repeat (apply List.Forall_cons); [..|apply List.Forall_nil]; cbn [fst snd];
      apply proxy_request; intros agent Hagent;
      auto using getLampBrightness_request, controlLamp_request,
        controlLampBlock_request, controlColorTemperature_request,
        executeScene_request, controlAllLamps_request.
  - intros id -> Hne Hk. unfold getAgent. cbn [falsy].
    destruct (String.eqb_spec id EmptyString) as [->|_]; [congruence|].
    unfold Map.has in Hk. destruct (Map.get (agents m) id); [discriminate Hk | reflexivity].
  - intros -> Hd. unfold getAgent. cbn [falsy]. rewrite Hd. reflexivity.
Qed.

Lemma manager_requests_reach_one_agent_witness :
  ((forall agent, getAgent two_agents (Some "b") = Some agent ->
      LCSController.isConnected agent
      = LCSTcpClient.isConnected (LCSController.client agent))
   /\ Z.of_nat (List.length [1; 2; 3]) + 21 <= 65535)
  /\ manager_request two_agents (Some "b")
       (controlLamp two_agents (Some "b") 1 1 5 80) request1
  /\ manager_request two_agents (Some "c")
       (controlLamp two_agents (Some "c") 1 1 5 80) request1.
Proof.
  assert (Hb : forall agent, getAgent two_agents (Some "b") = Some agent ->
                 LCSController.isConnected agent
                 = LCSTcpClient.isConnected (LCSController.client agent)).
  { intros agent H. injection H as <-. reflexivity. }
  assert (Hc : forall agent, getAgent two_agents (Some "c") = Some agent ->
                 LCSController.isConnected agent
                 = LCSTcpClient.isConnected (LCSController.client agent)).
  { intros agent H. discriminate H. }
  assert (Hn : Z.of_nat (List.length [1; 2; 3]) + 21 <= 65535) by (cbn; lia).
  split; [split; [exact Hb | exact Hn]|]. split.
  - exact (Forall_inv (proj1 (manager_requests_reach_one_agent two_agents (Some "b")
                                1 1 5 80 0 0 0 [1; 2; 3] "" Hb Hn))).
  - exact (Forall_inv (proj1 (manager_requests_reach_one_agent two_agents (Some "c")
                                1 1 5 80 0 0 0 [1; 2; 3] "" Hc Hn))).
Defined.

Lemma getConnectionStatus_counts_witness :
  let status := getConnectionStatus
                  (after_ops [AddAgent "a" "10.0.0.1" 1000 None false;
                              AddAgent "b" "10.0.0.2" 1000 None true]) in
  (exists info, In info (ConnectionStatus.agents status)
                /\ AgentInfo.isDefault info = true)
  /\ ConnectionStatus.defaultAgentId status = Some "a".
Proof.
  intros status.
  assert (Hin : In {| AgentInfo.agentId := "a"; AgentInfo.name := Some "Agent-a";
                      AgentInfo.host := "10.0.0.1"; AgentInfo.port := 1000;
                      AgentInfo.isConnected := false; AgentInfo.isDefault := true |}
                  (ConnectionStatus.agents status))
    by (left; reflexivity).
  split; [eexists; split; [exact Hin | reflexivity]|].
  exact (proj2 (proj2 (proj2 (proj2 (proj2
           (getConnectionStatus_counts [AddAgent "a" "10.0.0.1" 1000 None false;
                                        AddAgent "b" "10.0.0.2" 1000 None true])))))
           _ Hin eq_refl).
Defined.

End ManagerRegistry.

Section EffectFailures.

Import LCSController.

Lemma fadeControl_for_fails (masterAddr cuAddr lampNo : Z)
  (startBrightness stepSize stepDuration : float) (e : JS.exn) (rest : list Outcome)
  (k : nat) : forall (fuel : nat) (i : Z),
  0 <= i -> i + Z.of_nat k <= steps -> (k < fuel)%nat ->
  exec (fadeControl_for fuel masterAddr cuAddr lampNo startBrightness stepSize
          stepDuration i)
    (repeat Fulfilled k ++ Failed e :: rest)
  = (flat_map
       (fun j => [ControlLamp masterAddr cuAddr lampNo
                    (Math_round (startBrightness + stepSize * of_Z j)%float);
                  Sleep stepDuration])
       (seqZ i (Z.of_nat k))
     ++ [ControlLamp masterAddr cuAddr lampNo
           (Math_round (startBrightness + stepSize * of_Z (i + Z.of_nat k))%float)],
     Raised e).
Proof.
  induction k as [|k IH]; intros fuel i Hi Hik Hfuel.
  - destruct fuel as [|fuel]; [lia|]. cbn [fadeControl_for].
    destruct (Z.leb_spec i steps) as [_|Hgt]; [|simpl in Hik; lia].
    cbn [repeat app exec Nat2Z.inj Z.of_nat seqZ flat_map].
    rewrite Z.add_0_r. reflexivity.
  - destruct fuel as [|fuel]; [lia|]. cbn [fadeControl_for].
    destruct (Z.leb_spec i steps) as [_|Hgt]; [|lia].
    destruct (Z.ltb_spec i steps) as [_|Hge]; [|lia].
    cbn [repeat app exec].
    rewrite IH by lia.
    rewrite (seqZ_cons i (Z.of_nat (S k))) by lia.
    cbn [flat_map app].
    replace (Z.pred (Z.of_nat (S k))) with (Z.of_nat k) by lia.
    replace (Z.succ i) with (i + 1) by lia.
    replace (i + Z.of_nat (S k)) with (i + 1 + Z.of_nat k) by lia.
    reflexivity.
Qed.

(** X15.  A fade whose command fails.  When the command number [k] of a
    fade is rejected (the first [k] commands being acknowledged), the
    fade ends with that error: it has issued the commands 0 to [k], with
    a sleep after each of the first [k], and issues no command after the
    failed one.  On a controller that is not connected the fade throws at
    once and issues no command. *)
Theorem fadeControl_stops_at_the_first_failure (ctl : Controller)
  (masterAddr cuAddr lampNo : Z) (startBrightness endBrightness duration : float)
  (k : nat) (e : JS.exn) (rest : list Outcome) :
  (k <= 20)%nat ->
  exec (fadeControl ctl masterAddr cuAddr lampNo startBrightness endBrightness duration)
    (repeat Fulfilled k ++ Failed e :: rest)
  = if isConnected ctl then
      (fade_trace_until masterAddr cuAddr lampNo startBrightness endBrightness
         duration k,
       Raised e)
    else ([], Raised (JS.Error MSG_NOT_CONNECTED)).
Proof.
  intros Hk. unfold fadeControl.
  destruct (isConnected ctl); cbn [negb]; [|reflexivity].
  rewrite fadeControl_for_fails by (unfold steps; lia).
  reflexivity.
Qed.

Lemma fadeControl_stops_at_the_first_failure_witness :
  (3 <= 20)%nat
  /\ exec (fadeControl connected_controller 1 1 5 (of_Z 0) (of_Z 100) 1)
       (repeat Fulfilled 3 ++ Failed (JS.Error LCSTcpClient.MSG_TIMEOUT) :: [])
     = (fade_trace_until 1 1 5 (of_Z 0) (of_Z 100) 1 3,
        Raised (JS.Error LCSTcpClient.MSG_TIMEOUT)).
Proof.
  assert (H : (3 <= 20)%nat) by lia.
  split; [exact H|].
  exact (fadeControl_stops_at_the_first_failure connected_controller 1 1 5
           (of_Z 0) (of_Z 100) 1 3 (JS.Error LCSTcpClient.MSG_TIMEOUT) [] H).
Defined.

(** X16.  A wave whose command fails.  When the command of the lamp number
    [k] of the list is rejected (the commands of the lamps before it
    being acknowledged), the wave ends with that error: the lamps before
    it were commanded, each followed by a sleep, and the lamps after it
    are not commanded.  On a controller that is not connected the wave
    throws at once, and for an empty list it completes without a command
    and without a sleep. *)
Theorem waveEffect_stops_at_the_first_failure (ctl : Controller)
  (masterAddr cuAddr : Z) (lampList : list Z) (brightness : Z) (interval : float)
  (k : nat) (lampNo : Z) (e : JS.exn) (rest : list Outcome) :
  lampList !! k = Some lampNo ->
  exec (waveEffect ctl masterAddr cuAddr lampList brightness interval)
    (repeat Fulfilled k ++ Failed e :: rest)
  = (if isConnected ctl then
       (wave_trace masterAddr cuAddr (take k lampList) brightness interval
          ++ [ControlLamp masterAddr cuAddr lampNo brightness],
        Raised e)
     else ([], Raised (JS.Error MSG_NOT_CONNECTED)))
  /\ exec (waveEffect ctl masterAddr cuAddr [] brightness interval) rest
     = if isConnected ctl then ([], Completed)
       else ([], Raised (JS.Error MSG_NOT_CONNECTED)).
Proof.
  intros Hk. unfold waveEffect.
  destruct (isConnected ctl); cbn [negb]; [|split; reflexivity].
  split; [|reflexivity].
  revert k Hk. induction lampList as [|l lampList IH]; intros k Hk; [discriminate Hk|].
  destruct k as [|k].
  - injection Hk as ->. reflexivity.
  - cbn [waveEffect_for repeat app exec take wave_trace flat_map].
    cbn [lookup list_lookup] in Hk. rewrite (IH k Hk). reflexivity.
Qed.

Lemma waveEffect_stops_at_the_first_failure_witness :
  [1; 2; 3] !! 1%nat = Some 2
  /\ exec (waveEffect connected_controller 1 1 [1; 2; 3] 50 500)
       (repeat Fulfilled 1 ++ Failed (JS.Error LCSTcpClient.MSG_TIMEOUT) :: [])
     = ([ControlLamp 1 1 1 50; Sleep 500; ControlLamp 1 1 2 50],
        Raised (JS.Error LCSTcpClient.MSG_TIMEOUT)).
Proof.
  assert (H : [1; 2; 3] !! 1%nat = Some 2) by reflexivity.
  split; [exact H|].
  exact (proj1 (waveEffect_stops_at_the_first_failure connected_controller 1 1
                  [1; 2; 3] 50 500 1 2 (JS.Error LCSTcpClient.MSG_TIMEOUT) [] H)).
Defined.

End EffectFailures.

Section BuilderEdges.

Import LCSPacketBuilder.

(** *** Frames that are too long *)

Lemma buildPacket_too_long (destAddr : list Z) (op1 op2 : Z) (data : Buffer.t) :
  65535 < 18 + Buffer.length data ->
  buildPacket destAddr op1 op2 data = JS.Throw JS.RangeError.
Proof.
  intros H. unfold buildPacket, Buffer.writeUInt16BE.
  destruct (Z.ltb_spec (18 + Buffer.length data) 0) as [Hneg|_];
    [unfold Buffer.length in *; lia|].
  destruct (Z.ltb_spec 65535 (18 + Buffer.length data)) as [_|Hle]; [|lia].
  reflexivity.
Qed.

Lemma with_client_id (ctl : LCSController.Controller) :
  LCSController.with_client ctl (LCSController.client ctl) = ctl.
Proof. destruct ctl; reflexivity. Qed.

(** X17.  A frame longer than 65535 bytes.  [buildPacket] throws a
    RangeError, from writing the length field, when the data has more
    than 65517 bytes; so do [controlLampBlock] and [controlLampColorTemp]
    for a lamp list that makes their data that long.  The client builds
    the packet before it looks at the connection: the request is then
    rejected with the RangeError, connected or not, and the client is as
    it was.  The controller looks at the connection first: when it is
    not connected the request is rejected as not connected, and else
    with the RangeError. *)
Theorem frame_beyond_65535_bytes_is_refused (destAddr : list Z) (op1 op2 : Z)
  (data : Buffer.t) :
  65535 < 18 + Buffer.length data ->
  buildPacket destAddr op1 op2 data = JS.Throw JS.RangeError
  /\ forall (masterAddr cuAddr : Z) (lampList : list Z) (value : Z),
       data = block_data cuAddr lampList value ->
       controlLampBlock masterAddr cuAddr lampList value = JS.Throw JS.RangeError
       /\ controlLampColorTemp masterAddr cuAddr lampList value = JS.Throw JS.RangeError
       /\ (forall c,
             LCSTcpClient.controlLampBlock c masterAddr cuAddr lampList value
             = (c, LCSTcpClient.RejectedNow JS.RangeError)
             /\ LCSTcpClient.controlColorTemperature c masterAddr cuAddr lampList value
                = (c, LCSTcpClient.RejectedNow JS.RangeError))
       /\ (forall ctl,
             LCSController.controlLampBlock ctl masterAddr cuAddr lampList value
             = (ctl, LCSTcpClient.RejectedNow
                       (if LCSController.isConnected ctl then JS.RangeError
                        else JS.Error LCSController.MSG_NOT_CONNECTED))
             /\ LCSController.controlColorTemperature ctl masterAddr cuAddr lampList value
                = (ctl, LCSTcpClient.RejectedNow
                          (if LCSController.isConnected ctl then JS.RangeError
                           else JS.Error LCSController.MSG_NOT_CONNECTED))).
Proof.
  intros Hlong. split; [apply buildPacket_too_long, Hlong|].
  intros masterAddr cuAddr lampList value ->.
  assert (H1 : controlLampBlock masterAddr cuAddr lampList value
               = JS.Throw JS.RangeError).
  { unfold controlLampBlock. rewrite block_data_built.
    apply buildPacket_too_long, Hlong. }
  assert (H2 : controlLampColorTemp masterAddr cuAddr lampList value
               = JS.Throw JS.RangeError).
  { unfold controlLampColorTemp. rewrite block_data_built.
    apply buildPacket_too_long, Hlong. }
  split; [exact H1|]. split; [exact H2|]. split.
  - intros c. unfold LCSTcpClient.controlLampBlock, LCSTcpClient.controlColorTemperature.
    rewrite H1, H2. split; reflexivity.
  - intros ctl.
    unfold LCSController.controlLampBlock, LCSController.controlColorTemperature,
      LCSController.guarded, LCSTcpClient.controlLampBlock,
      LCSTcpClient.controlColorTemperature.
    rewrite H1, H2. cbn [LCSTcpClient.send_built].
    destruct (LCSController.isConnected ctl); cbn [negb];
      rewrite ?with_client_id; split; reflexivity.
Qed.

Lemma frame_beyond_65535_bytes_is_refused_witness :
  65535 < 18 + Buffer.length (block_data 1 (repeat 1 (Z.to_nat 65515)) 80)
  /\ controlLampBlock 1 1 (repeat 1 (Z.to_nat 65515)) 80 = JS.Throw JS.RangeError.
Proof.
  assert (H : 65535 < 18 + Buffer.length (block_data 1 (repeat 1 (Z.to_nat 65515)) 80))
    by (rewrite block_data_length, repeat_length; lia).
  split; [exact H|].
  exact (proj1 (proj2 (frame_beyond_65535_bytes_is_refused [0x13; 1; 1; 0; 0] 0x90 0x00
                         _ H) 1 1 (repeat 1 (Z.to_nat 65515)) 80 eq_refl)).
Defined.

(** *** [packetToHex] *)

Lemma join_hex_cons (x y : Z) (b : Buffer.t) :
  JS.join " " (map byte_hex (x :: y :: b))
  = String (JS.toUpperCase_char (Buffer.hex_digit (x / 16)))
      (String (JS.toUpperCase_char (Buffer.hex_digit (x mod 16)))
         (String (Ascii.ascii_of_nat 32) (JS.join " " (map byte_hex (y :: b))))).
Proof. reflexivity. Qed.

Lemma join_hex_length (b : Buffer.t) :
  b <> [] ->
  Z.of_nat (String.length (JS.join " " (map byte_hex b))) = 3 * Buffer.length b - 1.
Proof.
  induction b as [|x [|y b] IH]; intros Hne; [congruence | reflexivity|].
  rewrite join_hex_cons. cbn [String.length].
  unfold Buffer.length in *. cbn [List.length] in *.
  specialize (IH ltac:(discriminate)). lia.
Qed.

Lemma unhex_byte (x : Z) :
  0 <= x < 256 ->
  16 * unhex (JS.toUpperCase_char (Buffer.hex_digit (x / 16)))
  + unhex (JS.toUpperCase_char (Buffer.hex_digit (x mod 16))) = x.
Proof.
  intros Hx.
  assert (Hd : forall d, 0 <= d < 16 ->
                 unhex (JS.toUpperCase_char (Buffer.hex_digit d)) = d).
  { intros d Hd.
    assert (H : d = 0 \/ d = 1 \/ d = 2 \/ d = 3 \/ d = 4 \/ d = 5 \/ d = 6 \/ d = 7
                \/ d = 8 \/ d = 9 \/ d = 10 \/ d = 11 \/ d = 12 \/ d = 13 \/ d = 14
                \/ d = 15) by lia.
    repeat (destruct H as [->|H]; [reflexivity|]). subst d. reflexivity. }
  rewrite !Hd.
  - pose proof (Z.div_mod x 16). lia.
  - apply Z.mod_pos_bound. lia.
  - split; [apply Z.div_pos; lia | apply Z.div_lt_upper_bound; lia].
Qed.

Lemma unhex_line_join (b : Buffer.t) :
  Buffer.wf b -> unhex_line (JS.join " " (map byte_hex b)) = b.
Proof.
  induction b as [|x [|y b] IH]; intros Hwf; [reflexivity| |].
  - apply Forall_cons_1 in Hwf as [Hx _].
    cbn [map JS.join byte_hex unhex_line]. rewrite unhex_byte by exact Hx. reflexivity.
  - apply Forall_cons_1 in Hwf as [Hx Hwf].
    rewrite join_hex_cons. cbn [unhex_line].
    rewrite unhex_byte by exact Hx. f_equal. apply IH, Hwf.
Qed.

(** X18.  [packetToHex].  On a buffer without a byte it throws (a TypeError,
    [match] returning null).  On any other buffer it returns the bytes in
    their order, each as two upper-case hexadecimal digits, with one
    space between two bytes: [3 * n - 1] characters for [n] bytes.  The
    line tells the packet: two buffers with the same line are equal. *)
Theorem packetToHex_prints_every_byte (packet : Buffer.t) :
  Buffer.wf packet ->
  packetToHex [] = None
  /\ (packet <> [] ->
      packetToHex packet = Some (JS.join " " (map byte_hex packet))
      /\ Z.of_nat (String.length (JS.join " " (map byte_hex packet)))
         = 3 * Buffer.length packet - 1)
  /\ (forall packet' : Buffer.t,
        Buffer.wf packet' ->
        packetToHex packet' = packetToHex packet -> packet' = packet).
Proof.
  intros Hwf. split; [reflexivity|].
  assert (Hhex : forall b : Buffer.t,
             packetToHex b
             = if decide (b = []) then None else Some (JS.join " " (map byte_hex b))).
  { intros b. unfold packetToHex, JS.match_dot2. rewrite matches_hex.
    destruct b; reflexivity. }
  split.
  - intros Hne. split; [|apply join_hex_length, Hne].
    rewrite Hhex. destruct (decide (packet = [])); [contradiction | reflexivity].
  - intros packet' Hwf' Heq. rewrite !Hhex in Heq.
    destruct (decide (packet' = [])) as [->|Hne'], (decide (packet = [])) as [->|Hne];
      try discriminate Heq; [reflexivity|].
    injection Heq as Heq. apply (f_equal unhex_line) in Heq.
    rewrite !unhex_line_join in Heq by assumption. exact Heq.
Qed.

Lemma packetToHex_prints_every_byte_witness :
  (Buffer.wf [0x02; 0x00; 0x16; 0xAB] /\ [0x02; 0x00; 0x16; 0xAB] <> [])
  /\ packetToHex [0x02; 0x00; 0x16; 0xAB] = Some "02 00 16 AB".
Proof.
  assert (Hwf : Buffer.wf [0x02; 0x00; 0x16; 0xAB]) by (repeat constructor; lia).
  assert (Hne : [0x02; 0x00; 0x16; 0xAB] <> []) by discriminate.
  split; [split; [exact Hwf | exact Hne]|].
  exact (proj1 (proj1 (proj2 (packetToHex_prints_every_byte _ Hwf)) Hne)).
Defined.

End BuilderEdges.

Section ChecksumProperties.

Import LCSPacketBuilder.

(** *** Outside the buffer *)

Lemma get_padded (data : Buffer.t) (k : nat) (i : Z) :
  JS.ToInt32' (Buffer.get (data ++ repeat 0 k) i) = JS.ToInt32' (Buffer.get data i).
Proof.
  unfold Buffer.get. destruct (Z.ltb_spec i 0) as [_|Hi]; [reflexivity|].
  destruct (Nat.lt_ge_cases (Z.to_nat i) (List.length data)) as [Hlt|Hge].
  - rewrite (lookup_app_l data (repeat 0 k)) by exact Hlt. reflexivity.
  - rewrite (lookup_app_r data (repeat 0 k)) by exact Hge.
    rewrite (lookup_ge_None_2 data) by exact Hge.
    destruct (repeat 0 k !! (Z.to_nat i - List.length data)%nat) as [z|] eqn:Hz;
      [|reflexivity].
    apply list_elem_of_lookup_2, list_elem_of_In, repeat_spec in Hz. subst z.
    reflexivity.
Qed.

Lemma calculateBCC_loop_padded (data : Buffer.t) (k : nat) (end_ : Z) (fuel : nat) :
  forall i sum,
    calculateBCC_loop fuel (data ++ repeat 0 k) end_ i sum
    = calculateBCC_loop fuel data end_ i sum.
Proof.
  induction fuel as [|fuel IH]; intros i sum; [reflexivity|].
  cbn [calculateBCC_loop]. destruct (i <? end_); [|reflexivity].
  rewrite IH. f_equal. f_equal. f_equal.
  - f_equal. apply get_padded.
  - destruct (i + 1 <? end_); [apply get_padded | reflexivity].
Qed.

(** X19.  [calculateBCC] at the bounds.  For every buffer and every pair of
    indices the result is an integer of [0, 0xFFFF].  A range that holds
    no byte ([end <= start]) gives 0xFFFF.  An index outside the buffer
    reads as a zero byte, so that a buffer and the same buffer followed
    by zero bytes have the same BCC over any range. *)
Theorem calculateBCC_at_the_bounds (data : Buffer.t) (start end_ : Z) :
  0 <= calculateBCC data start end_ <= 0xFFFF
  /\ (end_ <= start -> calculateBCC data start end_ = 0xFFFF)
  /\ (forall k : nat,
        calculateBCC (data ++ repeat 0 k) start end_ = calculateBCC data start end_).
Proof.
  split; [unfold calculateBCC; apply and_ffff_range|]. split.
  - intros H. unfold calculateBCC.
    replace (Z.to_nat (end_ - start)) with 0%nat by lia. reflexivity.
  - intros k. unfold calculateBCC. rewrite calculateBCC_loop_padded. reflexivity.
Qed.

Lemma calculateBCC_at_the_bounds_witness :
  7 <= 7 /\ calculateBCC [1; 2; 3] 7 7 = 0xFFFF.
Proof.
  assert (H : 7 <= 7) by lia.
  split; [exact H|].
  exact (proj1 (proj2 (calculateBCC_at_the_bounds [1; 2; 3] 7 7)) H).
Defined.

(** *** A changed byte *)

Lemma sum_words_insert : forall (body : list Z) (j : nat) (x x' : Z),
  body !! j = Some x ->
  Spec.sum_words (<[j := x']> body)
  = Spec.sum_words body + (x' - x) * (if Nat.even j then 256 else 1).
Proof.
  unfold Spec.sum_words. fix IH 1. intros [|hi [|lo rest]] j x x' Hj.
  - discriminate Hj.
  - destruct j as [|j]; [|discriminate Hj]. injection Hj as ->.
    cbn. lia.
  - destruct j as [|[|j]].
    + injection Hj as ->. cbn [insert list_insert Spec.words_be fold_right Nat.even]. lia.
    + injection Hj as ->. cbn [insert list_insert Spec.words_be fold_right Nat.even]. lia.
    + change (rest !! j = Some x) in Hj.
      change (<[S (S j) := x']> (hi :: lo :: rest)) with (hi :: lo :: <[j := x']> rest).
      cbn [Spec.words_be fold_right Nat.even].
      rewrite (IH rest j x x' Hj). lia.
Qed.

Lemma sum_words_bound : forall body : list Z,
  Buffer.wf body -> 0 <= Spec.sum_words body <= 65535 * Z.of_nat (List.length body).
Proof.
  unfold Spec.sum_words. fix IH 1. intros [|hi [|lo rest]] Hwf.
  - cbn. lia.
  - apply Forall_cons_1 in Hwf as [Hhi _]. cbn. lia.
  - apply Forall_cons_1 in Hwf as [Hhi Hwf].
    apply Forall_cons_1 in Hwf as [Hlo Hwf].
    specialize (IH rest Hwf).
    cbn [Spec.words_be fold_right List.length]. lia.
Qed.

(** the folded complement tells two sums that differ by less than a
    word *)
Lemma folded_complement_differs (s d : Z) :
  0 <= s -> 0 <= s + d -> d <> 0 -> - 65535 < d < 65535 ->
  (2 ^ 16 - 1 - (s mod 2 ^ 16 + s / 2 ^ 16)) mod 2 ^ 16
  <> (2 ^ 16 - 1 - ((s + d) mod 2 ^ 16 + (s + d) / 2 ^ 16)) mod 2 ^ 16.
Proof.
  intros Hs Hsd Hd Hrange Heq.
  change (2 ^ 16) with 65536 in Heq.
  pose proof (Z.div_mod s 65536 ltac:(lia)) as Hs1.
  pose proof (Z.mod_pos_bound s 65536 ltac:(lia)) as Hs2.
  pose proof (Z.div_mod (s + d) 65536 ltac:(lia)) as Ht1.
  pose proof (Z.mod_pos_bound (s + d) 65536 ltac:(lia)) as Ht2.
  set (q := s / 65536) in *. set (r := s mod 65536) in *.
  set (q' := (s + d) / 65536) in *. set (r' := (s + d) mod 65536) in *.
  assert (Hq : 0 <= q) by (apply Z.div_pos; lia).
  assert (Hq' : 0 <= q') by (apply Z.div_pos; lia).
  pose proof (Z.div_mod (65536 - 1 - (r + q)) 65536 ltac:(lia)) as Ha.
  pose proof (Z.div_mod (65536 - 1 - (r' + q')) 65536 ltac:(lia)) as Hb.
  rewrite Heq in Ha.
  set (ta := (65536 - 1 - (r + q)) / 65536) in *.
  set (tb := (65536 - 1 - (r' + q')) / 65536) in *.
  assert (Hu : q' - q = 0 \/ q' - q = 1 \/ q' - q = -1) by lia.
  assert (Hdiff : (r' + q') - (r + q) = 65536 * (ta - tb)) by lia.
  destruct Hu as [Hu|[Hu|Hu]]; lia.
Qed.

Lemma bcc_insert (body : list Z) (j : nat) (x x' : Z) :
  Buffer.wf body ->
  Z.of_nat (List.length body) <= 65535 ->
  body !! j = Some x ->
  0 <= x' < 256 -> x' <> x ->
  Spec.bcc (<[j := x']> body) <> Spec.bcc body.
Proof.
  intros Hwf Hlen Hj Hx' Hne.
  assert (Hx : 0 <= x < 256).
  { unfold Buffer.wf in Hwf. rewrite Forall_forall in Hwf.
    apply Hwf. eapply list_elem_of_lookup_2, Hj. }
  assert (Hwf' : Buffer.wf (<[j := x']> body)) by (apply Forall_insert; assumption).
  pose proof (sum_words_bound body Hwf) as Hb.
  pose proof (sum_words_bound _ Hwf') as Hb'.
  rewrite length_insert in Hb'.
  pose proof (sum_words_insert body j x x' Hj) as Hs.
  unfold Spec.bcc.
  rewrite (Z.mod_small (Spec.sum_words body) (2 ^ 32)),
    (Z.mod_small (Spec.sum_words (<[j := x']> body)) (2 ^ 32)) by lia.
  set (d := (x' - x) * (if Nat.even j then 256 else 1)) in *.
  rewrite Hs. intros Heq. symmetry in Heq. revert Heq.
  apply folded_complement_differs; try lia.
  - unfold d. destruct (Nat.even j); lia.
  - unfold d. destruct (Nat.even j); lia.
Qed.

(** X20.  The BCC tells a changed byte.  Over a range of at most 65535
    bytes within the buffer, changing one byte of the range to another
    value changes the BCC. *)
Theorem calculateBCC_tells_a_changed_byte (data : Buffer.t) (start end_ : Z)
  (j : nat) (x x' : Z) :
  Buffer.wf data ->
  0 <= start -> end_ <= Buffer.length data -> end_ - start <= 65535 ->
  start <= Z.of_nat j < end_ ->
  data !! j = Some x ->
  0 <= x' < 256 -> x' <> x ->
  calculateBCC (<[j := x']> data) start end_ <> calculateBCC data start end_.
Proof.
  intros Hwf Hs He Hlen Hj Hx Hx' Hne.
  destruct (slice_cut data start end_ ltac:(lia) He) as (Hd & Hpre & Hmid).
  set (pre := take (Z.to_nat start) data) in *.
  set (mid := Buffer.slice data start end_) in *.
  set (post := drop (Z.to_nat end_) data) in *.
  assert (Hwfm : Buffer.wf mid).
  { unfold Buffer.wf in *. rewrite Hd in Hwf.
    apply Forall_app in Hwf as [_ Hwf]. apply Forall_app in Hwf as [Hwf _]. exact Hwf. }
  assert (Hjm : mid !! (j - List.length pre)%nat = Some x).
  { rewrite Hd in Hx. rewrite (lookup_app_r pre (mid ++ post)) in Hx by lia.
    rewrite (lookup_app_l mid post) in Hx by lia. exact Hx. }
  assert (Hins : <[j := x']> data
                 = pre ++ <[(j - List.length pre)%nat := x']> mid ++ post).
  { rewrite Hd at 1. rewrite (insert_app_r_alt pre) by lia.
    rewrite insert_app_l by lia. reflexivity. }
  assert (HL : calculateBCC (<[j := x']> data) start end_
               = Spec.bcc (<[(j - List.length pre)%nat := x']> mid)).
  { transitivity
      (calculateBCC (pre ++ <[(j - List.length pre)%nat := x']> mid ++ post)
         (Z.of_nat (List.length pre))
         (Z.of_nat (List.length pre) + Z.of_nat (List.length mid))).
    - rewrite Hins. f_equal; lia.
    - rewrite <- (length_insert mid (j - List.length pre) x').
      apply calculateBCC_app, Forall_insert; assumption. }
  assert (HR : calculateBCC data start end_ = Spec.bcc mid).
  { transitivity
      (calculateBCC (pre ++ mid ++ post) (Z.of_nat (List.length pre))
         (Z.of_nat (List.length pre) + Z.of_nat (List.length mid))).
    - rewrite <- Hd. f_equal; lia.
    - apply calculateBCC_app, Hwfm. }
  rewrite HL, HR. apply (bcc_insert mid (j - List.length pre) x x'); try assumption. lia.
Qed.

Lemma calculateBCC_tells_a_changed_byte_witness :
  (Buffer.wf request1
   /\ 0 <= 3 /\ 19 <= Buffer.length request1 /\ 19 - 3 <= 65535
   /\ 3 <= Z.of_nat 18 < 19
   /\ request1 !! 18%nat = Some 80
   /\ 0 <= 81 < 256 /\ 81 <> 80)
  /\ calculateBCC (<[18%nat := 81]> request1) 3 19 <> calculateBCC request1 3 19.
Proof.
  assert (Hwf : Buffer.wf request1) by (vm_compute; repeat constructor; discriminate).
  assert (He : 19 <= Buffer.length request1) by (vm_compute; discriminate).
  assert (Hx : request1 !! 18%nat = Some 80) by reflexivity.
  split; [repeat split; try assumption; try lia|].
  apply (calculateBCC_tells_a_changed_byte request1 3 19 18 80 81);
    try assumption; lia.
Defined.

End ChecksumProperties.

Section BuilderAddress.

Import LCSPacketBuilder.

(** copying an address of any length over the five zero bytes of the
    destination field *)
Lemma copy_destAddr (pre tail : list Z) (destAddr : list Z) (off : Z) :
  off = Z.of_nat (List.length pre) ->
  exists over,
    List.length over = List.length tail
    /\ Buffer.copy (Buffer.from destAddr) (pre ++ repeat 0 5 ++ tail) off
       = (pre ++ Buffer.from (address5 destAddr)) ++ over.
Proof.
  intros ->. unfold address5.
  destruct destAddr as [|a [|b [|c [|d [|e rest]]]]].
  - exists tail. split; [reflexivity|].
    change (repeat 0 5 ++ tail) with ([] ++ repeat 0 5 ++ tail).
    rewrite (copy_mid pre []) by reflexivity.
    rewrite <- !app_assoc. reflexivity.
  - exists tail. split; [reflexivity|].
    change (repeat 0 5 ++ tail) with ([0] ++ repeat 0 4 ++ tail).
    rewrite (copy_mid pre [0]) by reflexivity.
    rewrite <- !app_assoc. reflexivity.
  - exists tail. split; [reflexivity|].
    change (repeat 0 5 ++ tail) with ([0; 0] ++ repeat 0 3 ++ tail).
    rewrite (copy_mid pre [0; 0]) by reflexivity.
    rewrite <- !app_assoc. reflexivity.
  - exists tail. split; [reflexivity|].
    change (repeat 0 5 ++ tail) with ([0; 0; 0] ++ repeat 0 2 ++ tail).
    rewrite (copy_mid pre [0; 0; 0]) by reflexivity.
    rewrite <- !app_assoc. reflexivity.
  - exists tail. split; [reflexivity|].
    change (repeat 0 5 ++ tail) with ([0; 0; 0; 0] ++ repeat 0 1 ++ tail).
    rewrite (copy_mid pre [0; 0; 0; 0]) by reflexivity.
    rewrite <- !app_assoc. reflexivity.
  - exists (take (List.length tail) (Buffer.from rest)
              ++ drop (List.length (Buffer.from rest)) tail).
    split.
    + rewrite length_app, length_take, length_drop. lia.
    + unfold Buffer.copy. rewrite Nat2Z.id.
      rewrite (take_app_length pre).
      rewrite (drop_app_add pre).
      rewrite !length_app, repeat_length.
      replace (List.length pre + (5 + List.length tail) - List.length pre)%nat
        with (5 + List.length tail)%nat by lia.
      cbn [Buffer.from map List.length app take repeat drop Nat.add].
      rewrite <- !app_assoc. reflexivity.
Qed.

Lemma split_tail (over : list Z) (n : nat) :
  List.length over = (5 + (1 + (1 + (n + (2 + 1)))))%nat ->
  exists (over5 : list Z) y z (overn : list Z) b1 b2 e,
    over = over5 ++ [y] ++ [z] ++ overn ++ [b1; b2] ++ [e] ++ []
    /\ List.length over5 = 5%nat /\ List.length overn = n.
Proof.
  intros Hlen.
  rewrite <- (take_drop 5 over).
  remember (drop 5 over) as r1 eqn:Hr1.
  assert (Hl1 : List.length r1 = (1 + (1 + (n + (2 + 1))))%nat)
    by (subst r1; rewrite length_drop; lia).
  destruct r1 as [|y [|z r2]]; try (cbn in Hl1; lia).
  rewrite <- (take_drop n r2).
  remember (drop n r2) as r3 eqn:Hr3.
  assert (Hl3 : List.length r3 = 3%nat)
    by (subst r3; rewrite length_drop; cbn in Hl1; lia).
  destruct r3 as [|b1 [|b2 [|e [|? ?]]]]; try discriminate Hl3.
  exists (take 5 over), y, z, (take n r2), b1, b2, e.
  split; [reflexivity|]. split; rewrite length_take; cbn in Hl1; lia.
Qed.

Lemma address5_length (destAddr : list Z) : List.length (address5 destAddr) = 5%nat.
Proof.
  unfold address5. rewrite length_take, length_app, repeat_length. lia.
Qed.

Ltac offset Hlen :=
  unfold Buffer.from, Buffer.length, HOST_ADDRESS;
  rewrite ?length_app, ?length_map, ?Hlen, ?repeat_length; cbn [List.length]; lia.

(** [buildPacket] for an address of any length *)
Lemma buildPacket_any_address (destAddr : list Z) (op1 op2 : Z) (data : Buffer.t) :
  Buffer.wf data ->
  18 + Buffer.length data <= 65535 ->
  buildPacket destAddr op1 op2 data = JS.Ok (frame (address5 destAddr) op1 op2 data).
Proof.
  intros Hwf Hmax.
  pose proof (address5_length destAddr) as Hlen.
  pose proof (frame_body_wf (address5 destAddr) op1 op2 data Hwf) as Hbwf.
  pose proof (frame_body_length (address5 destAddr) op1 op2 data Hlen) as Hblen.
  assert (Hmax' : 0 <= 18 + Z.of_nat (List.length data) <= 65535)
    by (unfold Buffer.length in Hmax; lia).
  unfold buildPacket.
  unfold Buffer.length at 1. rewrite alloc_cut.
  rewrite set_mid by reflexivity.
  rewrite writeUInt16BE_mid by (offset Hlen).
  cbn [JS.bind].
  match goal with
  | |- context [Buffer.copy (Buffer.from destAddr) (?pre ++ repeat 0 5 ++ ?tail) ?off] =>
      destruct (copy_destAddr pre tail destAddr off ltac:(reflexivity))
        as (over & Hover & ->)
  end.
  rewrite !length_app, !repeat_length in Hover. cbn [List.length] in Hover.
  destruct (split_tail over (List.length data) ltac:(lia))
    as (over5 & y & z & overn & b1 & b2 & e & -> & Hover5 & Hovern).
  rewrite (copy_mid _ over5) by (offset Hlen).
  rewrite set_mid by (offset Hlen).
  rewrite set_mid by (offset Hlen).
  rewrite copy_data_branch.
  rewrite (copy_mid _ overn) by (offset Hlen).
  rewrite <- !app_assoc.
  set (pre := [JS.toUint8 STX; Z.shiftr (18 + Buffer.length data) 8;
               Z.land (18 + Buffer.length data) 255]).
  set (body := frame_body (address5 destAddr) op1 op2 data) in *.
  match goal with
  | |- context [Buffer.writeUInt16LE ?p _ _] =>
      replace p with (pre ++ body ++ [b1; b2] ++ [e] ++ [])
        by (unfold pre, body, frame_body; rewrite <- !app_assoc; reflexivity)
  end.
  replace 3 with (Z.of_nat (List.length pre)) by reflexivity.
  replace (18 + Buffer.length data - Z.of_nat (List.length pre))
    with (Z.of_nat (List.length pre) + Z.of_nat (List.length body))
    by (rewrite Hblen; unfold Buffer.length; cbn [List.length pre]; lia).
  rewrite calculateBCC_app by exact Hbwf.
  pose proof (bcc_range body) as Hbcc.
  rewrite (app_assoc pre body).
  rewrite writeUInt16LE_mid
    by (first [ rewrite length_app, Hblen; unfold Buffer.length;
                cbn [List.length pre]; lia | lia ]).
  cbn [JS.bind].
  rewrite set_mid
    by (rewrite !length_app, Hblen; unfold Buffer.length; cbn [List.length pre]; lia).
  rewrite app_nil_r.
  f_equal. unfold frame, Spec.be16, Spec.le16, pre. fold body.
  rewrite !Z.shiftr_div_pow2 by lia.
  change 255 with (Z.ones 8). rewrite !Z.land_ones by lia.
  change (2 ^ 8) with 256.
  rewrite <- !app_assoc. reflexivity.
Qed.

(** X21.  The destination address.  [buildPacket] takes five bytes from
    [destAddr], whatever its length: its first five entries modulo 256,
    with zeros for the entries that are missing.  Entries beyond the
    fifth leave no trace in the packet: the bytes they are copied to are
    written again by the fields that follow.  So for byte data of at
    most 65517 bytes [buildPacket] returns a packet for every address,
    and the packet is the same as for the five-byte address. *)
Theorem buildPacket_takes_five_address_bytes (destAddr : list Z) (op1 op2 : Z)
  (data : Buffer.t) :
  Buffer.wf data ->
  18 + Buffer.length data <= 65535 ->
  buildPacket destAddr op1 op2 data = JS.Ok (frame (address5 destAddr) op1 op2 data)
  /\ buildPacket destAddr op1 op2 data = buildPacket (address5 destAddr) op1 op2 data
  /\ Buffer.slice (frame (address5 destAddr) op1 op2 data) 3 8
     = Buffer.from (address5 destAddr)
  /\ Buffer.length (frame (address5 destAddr) op1 op2 data) = 18 + Buffer.length data
  /\ is_Some (packetToHex (frame (address5 destAddr) op1 op2 data)).
Proof.
  intros Hwf Hmax.
  pose proof (address5_length destAddr) as Hlen.
  pose proof (buildPacket_any_address destAddr op1 op2 data Hwf Hmax) as Hb.
  split; [exact Hb|]. split; [|split; [|split]].
  - rewrite Hb. symmetry. apply buildPacket_frame; assumption.
  - unfold frame, frame_body.
    rewrite <- (app_assoc (Buffer.from (address5 destAddr))), (app_assoc [STX]).
    apply slice_mid; [reflexivity|].
    unfold Buffer.from. rewrite length_map, Hlen. reflexivity.
  - apply frame_length, Hlen.
  - unfold packetToHex, JS.match_dot2. rewrite matches_hex.
    unfold frame. cbn [app map]. eauto.
Qed.

Lemma buildPacket_takes_five_address_bytes_witness :
  (Buffer.wf [1; 5; 0; 80] /\ 18 + Buffer.length [1; 5; 0; 80] <= 65535)
  /\ buildPacket [0x13; 1; 1; 0; 0; 0xAA; 0xBB; 0xCC; 0xDD; 0xEE; 0xFF; 7; 8; 9; 10;
                  11; 12; 13; 14; 15; 16; 17; 18; 19; 20; 21; 22] 0x92 0x00 [1; 5; 0; 80]
     = JS.Ok request1
  /\ buildPacket [0x13; 1] 0x92 0x00 [1; 5; 0; 80]
     = buildPacket [0x13; 1; 0; 0; 0] 0x92 0x00 [1; 5; 0; 80].
Proof.
  assert (Hwf : Buffer.wf [1; 5; 0; 80]) by (repeat constructor; lia).
  assert (Hmax : 18 + Buffer.length [1; 5; 0; 80] <= 65535) by (vm_compute; discriminate).
  split; [split; [exact Hwf | exact Hmax]|]. split.
  - exact (proj1 (buildPacket_takes_five_address_bytes
                    [0x13; 1; 1; 0; 0; 0xAA; 0xBB; 0xCC; 0xDD; 0xEE; 0xFF; 7; 8; 9; 10;
                     11; 12; 13; 14; 15; 16; 17; 18; 19; 20; 21; 22]
                    0x92 0x00 [1; 5; 0; 80] Hwf Hmax)).
  - exact (proj1 (proj2 (buildPacket_takes_five_address_bytes
                           [0x13; 1] 0x92 0x00 [1; 5; 0; 80] Hwf Hmax))).
Defined.

End BuilderAddress.
